(** * data-state: observable key-value store, routing layer and adapters

    A shallow embedding of the TypeScript classes
    - [DataState]         ([src/dataState.ts]),
    - [DataAdapterLayer]  ([dataAdapterLayer.ts], in [unnamed/part_002]),
    - [BaseAdapter]       ([baseAdapter.ts], in [src/adapters/streamAdapter.ts]),
    - [SSEAdapter]        ([sseAdapter.ts], in [unnamed/part_000]),
    - [WebSocketAdapter]  ([websocketAdapter.ts], in [unnamed/part_001]),
    - [StreamAdapter]     ([src/adapters/streamAdapter.ts]),
    - [RestAdapter]       ([restAdapter.ts], in [src/consumer.ts]),
    - [MockAdapter]       ([mockAdapter.ts], in [src/adapters/index.ts]),
    - [Consumer]          ([src/consumer.ts]),
    - [SimpleDataSystem]  ([src/simpleWrapper.ts]),
    together with the properties the specification states about them and
    further properties of the code.

    Conventions of the embedding.
    - A JavaScript value of type [any] is a term of [value]; numbers that
      the code only counts with or compares are integers.
    - A JavaScript [Map<string, V>] is an insertion-ordered association list
      ([jsmap V]): [keys()] and [forEach] follow insertion order, [set] on a
      present key keeps its position.
    - A JavaScript [Set] of callbacks is an insertion-ordered list without
      duplicates; callbacks are identified by a number (function identity).
    - Effects are threaded through the monad [M S]: a state of type [S], the
      trace of observable events (callback invocations, console output) and
      an outcome that is either a normal return or a thrown value.
    - User callbacks are external code.  An invocation is recorded in the
      trace and its outcome (return or throw) is given by an oracle that may
      depend on the whole trace so far, so callbacks may be stateful; a
      callback that calls back into the object notifying it is outside the
      model.
    - Text that is trimmed (the lines of a stream) is held as its UTF-8
      encoding, one [ascii] per byte, and [trim] strips the white space
      and line terminators of ECMAScript, beyond ASCII too.
    - An [async] method is a state machine: it runs up to an [await] and
      continues on the input that settles the awaited promise; each
      [await] of the source is a state of its own. *)

From Stdlib Require Import ZArith Ascii.
From stdpp Require Import base tactics option list strings pretty.

Local Open Scope string_scope.
Local Open Scope list_scope.
Local Set Warnings "-register-all".

(** ** JavaScript values *)

Inductive value : Type :=
| VUndefined
| VNull
| VBool (b : bool)
| VNum (n : Z)
| VStr (s : string)
| VObj (fields : list (string * value)).

(** [v !== undefined] *)
Definition is_defined (v : value) : bool :=
  match v with VUndefined => false | _ => true end.

(** JavaScript truthiness, as used by [a && b], [a || b] and [if (a)]. *)
Definition truthy (v : value) : bool :=
  match v with
  | VUndefined | VNull => false
  | VBool b => b
  | VNum n => negb (n =? 0)%Z
  | VStr s => negb (String.eqb s EmptyString)
  | VObj _ => true
  end.

(** [new Error(msg)] *)
Definition mk_error (msg : string) : value := VObj [("message", VStr msg)].

(** ** Insertion-ordered maps with string keys (JavaScript [Map]) *)

Definition jsmap (V : Type) : Type := list (string * V).

Section JsMap.
Context {V : Type}.

Fixpoint map_get (m : jsmap V) (k : string) : option V :=
    match m with
    | [] => None
    | (k', v) :: m' => if decide (k' = k) then Some v else map_get m' k
    end.

Definition map_has (m : jsmap V) (k : string) : bool :=
    match map_get m k with Some _ => true | None => false end.

Fixpoint map_set (m : jsmap V) (k : string) (v : V) : jsmap V :=
    match m with
    | [] => [(k, v)]
    | (k', v') :: m' =>
        if decide (k' = k) then (k, v) :: m' else (k', v') :: map_set m' k v
    end.

Fixpoint map_delete (m : jsmap V) (k : string) : jsmap V :=
    match m with
    | [] => []
    | (k', v') :: m' =>
        if decide (k' = k) then map_delete m' k else (k', v') :: map_delete m' k
    end.

Definition map_keys (m : jsmap V) : list string := m.*1.
Definition map_values (m : jsmap V) : list V := m.*2.

End JsMap.

(** ** Insertion-ordered sets of callbacks (JavaScript [Set]) *)

Definition set_add (l : list nat) (cb : nat) : list nat :=
  if decide (cb ∈ l) then l else l ++ [cb].

Definition set_delete (l : list nat) (cb : nat) : list nat :=
  filter (λ c, c ≠ cb) l.

(** ** Observable events and the effect monad *)

Inductive event : Type :=
| KeyCall (cb : nat) (v : value)                (* callback(value) *)
| GlobalCall (cb : nat) (k : string) (v : value) (* callback(key, value) *)
| DataCall (cb : nat) (item : value)            (* callback(dataItem) *)
| AdapterConnect (a : nat)                      (* adapter.connect() *)
| AdapterDisconnect (a : nat)                   (* adapter.disconnect() *)
| ConsoleError (msg : string) (err : value)
| ConsoleLog (msg : string).

Definition is_call (e : event) : bool :=
  match e with
  | KeyCall _ _ | GlobalCall _ _ _ | DataCall _ _ => true
  | _ => false
  end.

(** The invocations of callbacks in a trace, console output dropped. *)
Definition calls (tr : list event) : list event := filter (λ e, is_call e = true) tr.

Inductive outcome (A : Type) : Type :=
| Normal (a : A)
| Thrown (e : value).
Arguments Normal {A} a.
Arguments Thrown {A} e.

Definition M (S A : Type) : Type := S → list event → outcome A * S * list event.

Definition ret {S A} (a : A) : M S A := λ s tr, (Normal a, s, tr).

Definition bind {S A B} (m : M S A) (f : A → M S B) : M S B :=
  λ s tr,
    match m s tr with
    | (Normal a, s', tr') => f a s' tr'
    | (Thrown e, s', tr') => (Thrown e, s', tr')
    end.

Definition throw {S A} (e : value) : M S A := λ s tr, (Thrown e, s, tr).

(** [try { body } catch (error) { handler(error) }] *)
Definition try_catch {S A} (body : M S A) (handler : value → M S A) : M S A :=
  λ s tr,
    match body s tr with
    | (Normal a, s', tr') => (Normal a, s', tr')
    | (Thrown e, s', tr') => handler e s' tr'
    end.

Definition get_state {S} : M S S := λ s tr, (Normal s, s, tr).
Definition put_state {S} (s : S) : M S unit := λ _ tr, (Normal tt, s, tr).
Definition modify {S} (f : S → S) : M S unit := λ s tr, (Normal tt, f s, tr).
Definition emit {S} (e : event) : M S unit := λ s tr, (Normal tt, s, tr ++ [e]).

Notation "'let*' x ':=' m1 'in' m2" := (bind m1 (λ x, m2))
  (at level 10, x name, m1 at level 100, m2 at level 200).
Notation "m1 ;; m2" := (bind m1 (λ _, m2))
  (at level 100, right associativity).

(** [xs.forEach(f)] *)
Fixpoint for_each {S A} (xs : list A) (f : A → M S unit) : M S unit :=
  match xs with
  | [] => ret tt
  | x :: xs' => f x ;; for_each xs' f
  end.

Definition when {S} (b : bool) (m : M S unit) : M S unit :=
  if b then m else ret tt.

(** Running [m] and keeping its outcome, normal or thrown, as a value. *)
Definition attempt {S A} (m : M S A) : M S (outcome A) :=
  λ s tr, match m s tr with (o, s', tr') => (Normal o, s', tr') end.

Fixpoint map_m {S A B} (xs : list A) (f : A → M S B) : M S (list B) :=
  match xs with
  | [] => ret []
  | x :: xs' => let* y := f x in let* ys := map_m xs' f in ret (y :: ys)
  end.

(** ** Promises

    An [async] function runs synchronously up to its first [await]; the
    rest runs when the awaited promise settles.  A promise returned by an
    adapter settles as the environment decides. *)

Inductive settlement : Type :=
| Resolves
| Rejects (err : value).

Inductive promise_state : Type :=
| Pending
| Fulfilled
| Rejected (err : value).

Fixpoint first_rejection (settled : list (outcome unit)) : option value :=
  match settled with
  | [] => None
  | Thrown e :: _ => Some e
  | Normal _ :: rest => first_rejection rest
  end.

(** The state of [Promise.all(ps)] for [n] promises [ps], when the
    outcomes in [settled] are those of the promises settled so far, in the
    order in which they settled: rejected with the first rejection,
    fulfilled once all [n] are fulfilled. *)
Definition promise_all (n : nat) (settled : list (outcome unit)) : promise_state :=
  match first_rejection settled with
  | Some e => Rejected e
  | None => if decide (n ≤ length settled)%nat then Fulfilled else Pending
  end.

(** The state of [Promise.allSettled(ps)]: fulfilled once all [n] promises
    have settled, never rejected. *)
Definition promise_allSettled (n : nat) (settled : list (outcome unit)) : promise_state :=
  if decide (n ≤ length settled)%nat then Fulfilled else Pending.

(** The double quote character, for the messages the code builds with
    template literals. *)
Definition dquote : string := String "034"%char EmptyString.

(** ** Invoking user callbacks *)

Section Callbacks.
(** [cb_throws tr] tells whether the callback invocation recorded last in
    [tr] throws, and what. *)
Variable cb_throws : list event → option value.

(** A call of a user callback: recorded, then it returns or throws. *)
Definition call {S} (e : event) : M S unit :=
  λ s tr,
    let tr' := tr ++ [e] in
    match cb_throws tr' with
    | None => (Normal tt, s, tr')
    | Some err => (Thrown err, s, tr')
    end.

(** [try { callback(...) } catch (error) { console.error(msg, error) }] *)
Definition guarded {S} (e : event) (msg : string) : M S unit :=
  try_catch (call e) (λ err, emit (ConsoleError msg err)).

End Callbacks.

(** ** The observable store ([src/dataState.ts]) *)

Module DataState.

(** The fields of the class.  [subscribers] maps a key to the reference of
    its [Set] object; [sets] is the heap of the [Set] objects this store
    has allocated, indexed by reference.  The heap is explicit because a
    cancellation closure keeps the [Set] it was created with, also after
    [delete] or [clear] have dropped that [Set] from [subscribers]. *)
Record t : Type := mk {
  data : jsmap value;
  subscribers : jsmap nat;
  sets : list (list nat);
  globalSubscribers : list nat;
}.

(** [new DataState()] *)
Definition empty : t := mk [] [] [] [].

(** The closure returned by [subscribe]: it captures [key], the [Set]
    object [keySubscribers] and [callback]. *)
Record handle : Type := mk_handle {
  h_key : string;
  h_set : nat;
  h_cb : nat;
}.

(** The members of the [Set] object with reference [r]. *)
Definition set_contents (s : t) (r : nat) : list nat := default [] (sets s !! r).

(** The callbacks [set(key, _)] notifies: the members of
    [this.subscribers.get(key)]. *)
Definition key_subscribers (s : t) (key : string) : list nat :=
  match map_get (subscribers s) key with
  | Some r => set_contents s r
  | None => []
  end.

(** The result of [this.data.get(key)]. *)
Definition lookup (s : t) (key : string) : value :=
  default VUndefined (map_get (data s) key).

Definition msg_subscriber (key : string) : string :=
  "Error in subscriber for key " +:+ dquote +:+ key +:+ dquote +:+ ":".
Definition msg_initial (key : string) : string :=
  "Error in initial callback for key " +:+ dquote +:+ key +:+ dquote +:+ ":".
Definition msg_global : string := "Error in global subscriber:".
Definition msg_initial_global : string := "Error in initial global callback:".

Section Methods.
Variable cb_throws : list event → option value.

Definition get (key : string) : M t value :=
  let* s := get_state in ret (lookup s key).

Definition set (key : string) (v : value) : M t unit :=
  modify (λ s, mk (map_set (data s) key v) (subscribers s) (sets s) (globalSubscribers s)) ;;
  let* s := get_state in
  match map_get (subscribers s) key with
  | Some r =>
      for_each (set_contents s r)
        (λ cb, guarded cb_throws (KeyCall cb v) (msg_subscriber key))
  | None => ret tt
  end ;;
  let* s := get_state in
  for_each (globalSubscribers s)
    (λ cb, guarded cb_throws (GlobalCall cb key v) msg_global).

Definition delete (key : string) : M t unit :=
  modify (λ s, mk (map_delete (data s) key) (subscribers s) (sets s) (globalSubscribers s)) ;;
  modify (λ s, mk (data s) (map_delete (subscribers s) key) (sets s) (globalSubscribers s)) ;;
  let* s := get_state in
  for_each (globalSubscribers s)
    (λ cb, guarded cb_throws (GlobalCall cb key VUndefined) msg_global).

Definition clear : M t unit :=
  let* s := get_state in
  let keys := map_keys (data s) in
  modify (λ s, mk [] (subscribers s) (sets s) (globalSubscribers s)) ;;
  modify (λ s, mk (data s) [] (sets s) (globalSubscribers s)) ;;
  for_each keys (λ key,
    let* s := get_state in
    for_each (globalSubscribers s)
      (λ cb, guarded cb_throws (GlobalCall cb key VUndefined) msg_global)).

Definition keys : M t (list string) :=
  let* s := get_state in ret (map_keys (data s)).

Definition subscribe (key : string) (callback : nat) : M t handle :=
  let* s := get_state in
  when (negb (map_has (subscribers s) key))
    (put_state (mk (data s) (map_set (subscribers s) key (length (sets s)))
                   (sets s ++ [[]]) (globalSubscribers s))) ;;
  let* s := get_state in
  let keySubscribers := default 0 (map_get (subscribers s) key) in
  modify (λ s, mk (data s) (subscribers s)
                  (alter (λ l, set_add l callback) keySubscribers (sets s))
                  (globalSubscribers s)) ;;
  let* s := get_state in
  let currentValue := lookup s key in
  when (is_defined currentValue)
    (guarded cb_throws (KeyCall callback currentValue) (msg_initial key)) ;;
  ret (mk_handle key keySubscribers callback).

(** Calling the closure [subscribe] returned. *)
Definition unsubscribe (h : handle) : M t unit :=
  modify (λ s, mk (data s) (subscribers s)
                  (alter (λ l, set_delete l (h_cb h)) (h_set h) (sets s))
                  (globalSubscribers s)) ;;
  let* s := get_state in
  when (bool_decide (length (set_contents s (h_set h)) = 0))
    (modify (λ s, mk (data s) (map_delete (subscribers s) (h_key h)) (sets s)
                     (globalSubscribers s))).

Definition subscribeAll (callback : nat) : M t nat :=
  modify (λ s, mk (data s) (subscribers s) (sets s) (set_add (globalSubscribers s) callback)) ;;
  let* s := get_state in
  for_each (data s)
    (λ kv, guarded cb_throws (GlobalCall callback kv.1 kv.2) msg_initial_global) ;;
  ret callback.

(** Calling the closure [subscribeAll] returned. *)
Definition unsubscribeAll (callback : nat) : M t unit :=
  modify (λ s, mk (data s) (subscribers s) (sets s) (set_delete (globalSubscribers s) callback)).

End Methods.


(** Well-formed stores: every [Set] object is a set (no member occurs
    twice) and every registered reference points into the heap.  The
    empty store is well formed and every method preserves it
    ([wf_empty], [set_wf], [delete_wf], [clear_wf], [subscribe_wf],
    [unsubscribe_wf], [subscribeAll_wf], [unsubscribeAll_wf]). *)
Record wf (s : t) : Prop := mk_wf {
  wf_sets : ∀ r l, sets s !! r = Some l → NoDup l;
  wf_globals : NoDup (globalSubscribers s);
  wf_refs : ∀ k r, map_get (subscribers s) k = Some r → r < length (sets s);
}.

(** The store [subscribe(key, callback)] leaves behind, and the
      reference of the [Set] object the returned closure captures. *)
Definition subscribe_set (key : string) (s : t) : nat :=
  default (length (sets s)) (map_get (subscribers s) key).

Definition subscribe_state (key : string) (callback : nat) (s : t) : t :=
  match map_get (subscribers s) key with
  | Some r =>
      mk (data s) (subscribers s) (alter (λ l, set_add l callback) r (sets s))
         (globalSubscribers s)
  | None =>
      mk (data s) (map_set (subscribers s) key (length (sets s)))
         (sets s ++ [[callback]]) (globalSubscribers s)
  end.

(** The store that calling the closure [h] leaves behind. *)
Definition unsubscribe_state (h : handle) (s : t) : t :=
  let sets' := alter (λ l, set_delete l (h_cb h)) (h_set h) (sets s) in
  if bool_decide (length (default [] (sets' !! h_set h)) = 0)
  then mk (data s) (map_delete (subscribers s) (h_key h)) sets' (globalSubscribers s)
  else mk (data s) (subscribers s) sets' (globalSubscribers s).

(** The store after [set(kv.1, kv.2)], and the callback invocations of
    that call, in order. *)
Definition write (s : t) (kv : string * value) : t :=
  mk (map_set (data s) kv.1 kv.2) (subscribers s) (sets s) (globalSubscribers s).

Definition notifications (s : t) (kv : string * value) : list event :=
  ((λ cb, KeyCall cb kv.2) <$> key_subscribers s kv.1)
  ++ ((λ cb, GlobalCall cb kv.1 kv.2) <$> globalSubscribers s).

(** A store with two subscribers of ["k"] and one global subscriber, and an
    oracle under which every callback throws. *)
Definition demo_store : t := mk [("k", VNum 0)] [("k", 0)] [[7; 8]] [9].

Definition always_throws : list event → option value := λ _, Some VNull.

Definition never_throws : list event → option value := λ _, None.

End DataState.

(** ** Envelopes and payloads ([src/types.ts]) *)

Module DataItem.

(** [interface DataItem { id; timestamp; data; source? }] *)
Record t : Type := mk {
  id : string;
  timestamp : Z;
  data : value;
  source : option string;
}.

(** [{ ...item, data: d }] *)
Definition with_data (item : t) (d : value) : t :=
  mk (id item) (timestamp item) d (source item).

(** The object as a value, properties in creation order; an absent
    [source] is no property. *)
Definition to_value (item : t) : value :=
  VObj ([("id", VStr (id item)); ("timestamp", VNum (timestamp item));
         ("data", data item)]
        ++ match source item with Some s => [("source", VStr s)] | None => [] end).

(** [item.source || fallback] *)
Definition source_or (item : t) (fallback : string) : string :=
  match source item with
  | Some s => if String.eqb s EmptyString then fallback else s
  | None => fallback
  end.

End DataItem.

(** [interface CheckoutResult { key; data }] *)
Record CheckoutResult : Type := mk_result {
  result_key : string;
  result_data : value;
}.

(** [type CheckoutFunction = (result) => CheckoutResult]: user code, which
    returns a result or throws. *)
Definition CheckoutFunction : Type := value → outcome CheckoutResult.

(** [v.name], for a [v] that is neither [undefined] nor [null]: an own
    property of an object, [undefined] on a primitive. *)
Definition get_prop (v : value) (name : string) : value :=
  match v with
  | VObj fields => default VUndefined (map_get fields name)
  | _ => VUndefined
  end.

Fixpoint string_entries (i : nat) (s : string) : list (string * value) :=
  match s with
  | EmptyString => []
  | String c s' => (pretty i, VStr (String c EmptyString)) :: string_entries (S i) s'
  end.

(** [Object.entries(v)], for a [v] that is neither [undefined] nor [null]:
    the properties of an object in enumeration order (the order of the
    field list), the indexed characters of a string, nothing for a number
    or a boolean. *)
Definition object_entries (v : value) : list (string * value) :=
  match v with
  | VObj fields => fields
  | VStr s => string_entries 0 s
  | _ => []
  end.

(** ** The routing layer ([dataAdapterLayer.ts]) *)

Module DataAdapterLayer.

(** A member of an adapter's [dataCallbacks]: the closure
    [(data) => { this.handleAdapterData(data) }] that [addAdapter] creates
    (each call creates a new closure, numbered here), or a callback of some
    other party. *)
Inductive data_callback : Type :=
| Route (closure : nat)
| External (cb : nat).

#[global] Instance data_callback_eq_dec : EqDecision data_callback.
Proof. solve_decision. Defined.

(** An adapter object, as far as the layer touches it: [name] and the
    [dataCallbacks] set of [BaseAdapter]. *)
Record Adapter : Type := mk_adapter {
  name : string;
  adapterCallbacks : list data_callback;
}.

(** The fields of the class ([options] reduced to [enableLogging], the only
    option the code reads), with the adapter objects the layer holds
    references to ([objects], indexed by reference) and the number of
    closures [addAdapter] has created. *)
Record t : Type := mk {
  adapters : jsmap nat;
  dataState : DataState.t;
  enableLogging : bool;
  checkoutFunctions : jsmap CheckoutFunction;
  dataCallbacks : list nat;
  objects : list Adapter;
  closures : nat;
}.

(** [new DataAdapterLayer(options)], with the adapter objects that exist. *)
Definition create (logging : bool) (objs : list Adapter) : t :=
  mk [] DataState.empty logging [] [] objs 0.

Definition with_dataState (w : t) (ds : DataState.t) : t :=
  mk (adapters w) ds (enableLogging w) (checkoutFunctions w) (dataCallbacks w)
     (objects w) (closures w).

(** Running a method of [this.dataState]. *)
Definition lift_store {A} (m : M DataState.t A) : M t A :=
  λ w tr,
    match m (dataState w) tr with
    | (o, ds, tr') => (o, with_dataState w ds, tr')
    end.

Definition adapter_name (w : t) (a : nat) : string :=
  default EmptyString (name <$> objects w !! a).

Definition adapter_callbacks (w : t) (a : nat) : list data_callback :=
  default [] (adapterCallbacks <$> objects w !! a).

Definition msg_exists (nm : string) : string :=
  "Adapter with name " +:+ dquote +:+ nm +:+ dquote +:+ " already exists".
Definition msg_added (nm : string) : string := "Added adapter: " +:+ nm.
Definition msg_data_callback : string := "Error in data callback:".
Definition msg_handling : string := "Error handling adapter data:".
Definition msg_adapter_callback (nm : string) : string :=
  "Error in data callback for adapter " +:+ dquote +:+ nm +:+ dquote +:+ ":".
Definition msg_connected (nm : string) : string := "Connected adapter: " +:+ nm.
Definition msg_disconnected (nm : string) : string := "Disconnected adapter: " +:+ nm.
Definition msg_connect_failed (nm : string) : string :=
  "Failed to connect adapter " +:+ dquote +:+ nm +:+ dquote +:+ ":".
Definition msg_disconnect_failed (nm : string) : string :=
  "Failed to disconnect adapter " +:+ dquote +:+ nm +:+ dquote +:+ ":".

(** [BaseAdapter.onData(callback)] on the adapter object [a]. *)
Definition onData (a : nat) (callback : data_callback) (w : t) : t :=
  mk (adapters w) (dataState w) (enableLogging w) (checkoutFunctions w)
     (dataCallbacks w)
     (alter (λ o, mk_adapter (name o)
                    (if decide (callback ∈ adapterCallbacks o)
                     then adapterCallbacks o
                     else adapterCallbacks o ++ [callback]))
            a (objects w))
     (closures w).

Definition addAdapter (a : nat) : M t unit :=
  let* w := get_state in
  if map_has (adapters w) (adapter_name w a)
  then throw (mk_error (msg_exists (adapter_name w a)))
  else
    modify (λ w, mk (map_set (adapters w) (adapter_name w a) a) (dataState w)
                    (enableLogging w) (checkoutFunctions w) (dataCallbacks w)
                    (objects w) (closures w)) ;;
    modify (λ w, onData a (Route (closures w))
                   (mk (adapters w) (dataState w) (enableLogging w)
                       (checkoutFunctions w) (dataCallbacks w) (objects w)
                       (S (closures w)))) ;;
    let* w := get_state in
    when (enableLogging w) (emit (ConsoleLog (msg_added (adapter_name w a)))).

Definition getAdapter (nm : string) : M t (option nat) :=
  let* w := get_state in ret (map_get (adapters w) nm).

Definition setCheckoutFunction (adapterName : string) (checkoutFn : CheckoutFunction) : M t unit :=
  modify (λ w, mk (adapters w) (dataState w) (enableLogging w)
                  (map_set (checkoutFunctions w) adapterName checkoutFn)
                  (dataCallbacks w) (objects w) (closures w)).

Definition removeCheckoutFunction (adapterName : string) : M t unit :=
  modify (λ w, mk (adapters w) (dataState w) (enableLogging w)
                  (map_delete (checkoutFunctions w) adapterName)
                  (dataCallbacks w) (objects w) (closures w)).

(** [onData(callback)] of the layer; the closure it returns is
    [offData]. *)
Definition onLayerData (callback : nat) : M t unit :=
  modify (λ w, mk (adapters w) (dataState w) (enableLogging w) (checkoutFunctions w)
                  (set_add (dataCallbacks w) callback) (objects w) (closures w)).

Definition offLayerData (callback : nat) : M t unit :=
  modify (λ w, mk (adapters w) (dataState w) (enableLogging w) (checkoutFunctions w)
                  (set_delete (dataCallbacks w) callback) (objects w) (closures w)).

Definition generateStateKey (item : DataItem.t) : string :=
  DataItem.source_or item "unknown" +:+ "_" +:+ DataItem.id item.

(** Calling a checkout function: its result, or its exception. *)
Definition call_checkout (fn : CheckoutFunction) (payload : value) : M t CheckoutResult :=
  λ w tr, (fn payload, w, tr).

(** [processedData] and [stateKey] as computed by the first part of
    [handleAdapterData]. *)
Definition checkout (item : DataItem.t) : M t (DataItem.t * string) :=
  let* w := get_state in
  let checkoutFn := map_get (checkoutFunctions w) (DataItem.source_or item EmptyString) in
  let processedData := item in
  let stateKey := generateStateKey item in
  match checkoutFn with
  | Some fn =>
      let* result := call_checkout fn (DataItem.data item) in
      ret (DataItem.with_data item (result_data result), result_key result)
  | None => ret (processedData, stateKey)
  end.

(** The entries [handleAdapterData] writes before the main entry:
    those of [processedData.data.stateUpdates] when
    [processedData.data && processedData.data.stateUpdates] is truthy. *)
Definition state_updates (processedData : DataItem.t) : list (string * value) :=
  if truthy (DataItem.data processedData)
     && truthy (get_prop (DataItem.data processedData) "stateUpdates")
  then object_entries (get_prop (DataItem.data processedData) "stateUpdates")
  else [].

(** What [checkout] computes in the layer [w]. *)
Definition checkout_result (w : t) (item : DataItem.t) : outcome (DataItem.t * string) :=
  match map_get (checkoutFunctions w) (DataItem.source_or item EmptyString) with
  | Some fn =>
      match fn (DataItem.data item) with
      | Normal r => Normal (DataItem.with_data item (result_data r), result_key r)
      | Thrown e => Thrown e
      end
  | None => Normal (item, generateStateKey item)
  end.

(** The default store key in the words of the specification:
    ["<source>_<envelopeId>"]. *)
Definition spec_default_key (source id : string) : string := source +:+ "_" +:+ id.

Section Methods.
Variable cb_throws : list event → option value.

(** The body of the [try] block of [handleAdapterData]. *)
Definition handle_body (item : DataItem.t) : M t unit :=
  let* ps := checkout item in
  let processedData := ps.1 in
  let stateKey := ps.2 in
  for_each (state_updates processedData)
    (λ kv, lift_store (DataState.set cb_throws kv.1 kv.2)) ;;
  lift_store (DataState.set cb_throws stateKey (DataItem.to_value processedData)) ;;
  let* w := get_state in
  for_each (dataCallbacks w)
    (λ cb, guarded cb_throws (DataCall cb (DataItem.to_value processedData))
             msg_data_callback).

Definition handleAdapterData (item : DataItem.t) : M t unit :=
  try_catch (handle_body item) (λ err, emit (ConsoleError msg_handling err)).

(** [BaseAdapter.emitData(item)] on the adapter object [a]. *)
Definition emitData (a : nat) (item : DataItem.t) : M t unit :=
  let* w := get_state in
  for_each (adapter_callbacks w a)
    (λ cb,
       try_catch
         match cb with
         | Route _ => handleAdapterData item
         | External n => call cb_throws (DataCall n (DataItem.to_value item))
         end
         (λ err, emit (ConsoleError (msg_adapter_callback (adapter_name w a)) err))).

End Methods.

(** The outcome of awaiting a promise that settles as [r]. *)
Definition outcome_of (r : settlement) : outcome unit :=
  match r with
  | Resolves => Normal tt
  | Rejects err => Thrown err
  end.

(** [await p], for a promise [p] that settles as [r]. *)
Definition await (r : settlement) : M t unit :=
  match r with
  | Resolves => ret tt
  | Rejects err => throw err
  end.

(** The arrow function of [connectAll], from [await adapter.connect()]
    on, once the promise it awaits has settled as [r]. *)
Definition connect_resume (a : nat) (r : settlement) : M t unit :=
  try_catch
    (await r ;;
     let* w := get_state in
     when (enableLogging w) (emit (ConsoleLog (msg_connected (adapter_name w a)))))
    (λ error,
       let* w := get_state in
       emit (ConsoleError (msg_connect_failed (adapter_name w a)) error) ;;
       throw error).

(** [connectAll()].  Mapping the arrow function over
    [this.adapters.values()] calls [connect()] on every adapter at once;
    [schedule] lists the promises that have settled since, in the order in
    which they settled.  The result is the state of the promise
    [connectAll()] returned. *)
Definition connectAll (schedule : list (nat * settlement)) : M t promise_state :=
  let* w := get_state in
  let targets := map_values (adapters w) in
  for_each targets (λ a, emit (AdapterConnect a)) ;;
  let* settled := map_m schedule (λ ar, attempt (connect_resume ar.1 ar.2)) in
  ret (promise_all (length targets) settled).

(** The arrow function of [disconnectAll], from
    [await adapter.disconnect()] on. *)
Definition disconnect_resume (a : nat) (r : settlement) : M t unit :=
  try_catch
    (await r ;;
     let* w := get_state in
     when (enableLogging w) (emit (ConsoleLog (msg_disconnected (adapter_name w a)))))
    (λ error,
       let* w := get_state in
       emit (ConsoleError (msg_disconnect_failed (adapter_name w a)) error)).

(** [disconnectAll()], in the same way. *)
Definition disconnectAll (schedule : list (nat * settlement)) : M t promise_state :=
  let* w := get_state in
  let targets := map_values (adapters w) in
  for_each targets (λ a, emit (AdapterDisconnect a)) ;;
  let* settled := map_m schedule (λ ar, attempt (disconnect_resume ar.1 ar.2)) in
  ret (promise_allSettled (length targets) settled).

(** What the arrow functions of [connectAll] and [disconnectAll] print
    when the promise of adapter [ar.1] settles as [ar.2]. *)
Definition connect_log (w : t) (ar : nat * settlement) : list event :=
  match ar.2 with
  | Resolves =>
      if enableLogging w then [ConsoleLog (msg_connected (adapter_name w ar.1))] else []
  | Rejects e => [ConsoleError (msg_connect_failed (adapter_name w ar.1)) e]
  end.

Definition disconnect_log (w : t) (ar : nat * settlement) : list event :=
  match ar.2 with
  | Resolves =>
      if enableLogging w then [ConsoleLog (msg_disconnected (adapter_name w ar.1))] else []
  | Rejects e => [ConsoleError (msg_disconnect_failed (adapter_name w ar.1)) e]
  end.

(** Every registered adapter carries a closure that routes its emissions
    to [handleAdapterData]: true of a new layer and kept by [addAdapter]
    ([wf_create], [addAdapter_wf]). *)
Definition wf (w : t) : Prop :=
  ∀ nm a, map_get (adapters w) nm = Some a → ∃ c, Route c ∈ adapter_callbacks w a.

(** Two adapter objects with the same name. *)
Definition twin_adapters : list Adapter :=
  [mk_adapter "sensor" []; mk_adapter "sensor" []].

(** A layer with two registered adapters, and a schedule in which the
    second adapter's promise rejects while the first is still pending. *)
Definition two_adapter_layer : t :=
  mk [("a", 0); ("b", 1)] DataState.empty true [] []
     [mk_adapter "a" [Route 0]; mk_adapter "b" [Route 1]] 2.

Definition b_rejects : list (nat * settlement) := [(1, Rejects (VStr "refused"))].

(** An oracle under which no callback throws, an envelope of an adapter
    whose name is the empty string, and a transform that always throws. *)
Definition never_throws : list event → option value := DataState.never_throws.

Definition nameless_item : DataItem.t := DataItem.mk "7" 0 VNull (Some EmptyString).

Definition failing_checkout : CheckoutFunction := λ _, Thrown (VStr "boom").

Definition sensor_item (i : string) : DataItem.t :=
  DataItem.mk i 0 (VObj [("temp", VNum 30)]) (Some "sensor").

Definition sensor_checkout : CheckoutFunction :=
  λ v, Normal (mk_result "sensor-S1"
                 (VObj [("temp", get_prop v "temp"); ("processed", VBool true);
                        ("stateUpdates", VObj [("last", VStr "S1")])])).

(** Layers in which a transform is registered for ["sensor"]. *)
Definition sensor_layer : t :=
  mk [] DataState.empty false [("sensor", sensor_checkout)] [] [] 0.

Definition failing_layer : t :=
  mk [] DataState.empty false [("sensor", failing_checkout)] [] [] 0.

End DataAdapterLayer.

(** ** Push adapters ([sseAdapter.ts], [websocketAdapter.ts])

    An adapter is driven by its caller ([connect()], [disconnect()]) and by
    the environment: handlers of the transport object fire, timers expire.
    Each such occurrence is an input that the adapter handles to completion
    before the next one; what the adapter does to the outside is recorded
    as outputs.  Inputs that cannot occur (a handler of a closed transport
    object, a timer that is not pending) are ignored. *)

Inductive adapter_output : Type :=
| Created (obj : nat)                (* new EventSource / new WebSocket / fetch *)
| Closed (obj : nat)                 (* close() / abort() / cancel() *)
| Scheduled (timer : nat) (delay : Z) (* setTimeout *)
| Cleared (timer : nat)              (* clearTimeout / clearInterval *)
| Emitted (data : value).            (* this.emitData(this.createDataItem(data)) *)

Definition is_scheduled (o : adapter_output) : bool :=
  match o with Scheduled _ _ => true | _ => false end.

Definition is_created (o : adapter_output) : bool :=
  match o with Created _ => true | _ => false end.

(** The number of timeouts scheduled in a list of outputs. *)
Definition scheduled (outs : list adapter_output) : nat :=
  length (filter (λ o, is_scheduled o = true) outs).

(** Running a handler after another. *)
Definition and_then {S} (r : S * list adapter_output) (f : S → S * list adapter_output)
    : S * list adapter_output :=
  let r' := f r.1 in (r'.1, r.2 ++ r'.2).

(** Handling a sequence of inputs. *)
Fixpoint run_inputs {S I} (step : I → S → S * list adapter_output)
    (ins : list I) (st : S) : S * list adapter_output :=
  match ins with
  | [] => (st, [])
  | i :: ins' => and_then (step i st) (run_inputs step ins')
  end.

(** [try { emit(JSON.parse(raw)) } catch { emit(raw) }] *)
Definition parse_or_raw (JSON_parse : string → option value) (raw : string) : value :=
  match JSON_parse raw with
  | Some v => v
  | None => VStr raw
  end.

Module SSEAdapter.

Record options : Type := mk_options {
  reconnectInterval : Z;
  maxReconnectAttempts : Z;
}.

(** The fields of the class, with the [EventSource] objects created so far
    ([true] while not closed) and the number of timers created so far. *)
Record t : Type := mk {
  connected : bool;
  eventSource : option nat;
  reconnectAttempts : Z;
  reconnectTimer : option nat;
  sources : list bool;
  timers : nat;
}.

(** [new SSEAdapter(name, url, options)] *)
Definition create : t := mk false None 0 None [] 0.

Inductive input : Type :=
| Connect                            (* connect() is called *)
| Disconnect                         (* disconnect() is called *)
| Open (src : nat)                   (* eventSource.onopen *)
| Message (src : nat) (raw : string) (* eventSource.onmessage *)
| Error (src : nat)                  (* eventSource.onerror *)
| TimerFires.                        (* the reconnect timeout expires *)

Definition source_open (st : t) (src : nat) : bool :=
  bool_decide (sources st !! src = Some true).

Definition connect (st : t) : t * list adapter_output :=
  if connected st then (st, [])
  else
    (mk (connected st) (Some (length (sources st))) (reconnectAttempts st)
        (reconnectTimer st) (sources st ++ [true]) (timers st),
     [Created (length (sources st))]).

Definition disconnect (st : t) : t * list adapter_output :=
  (mk false None (reconnectAttempts st) None
      (match eventSource st with
       | Some src => <[src := false]> (sources st)
       | None => sources st
       end)
      (timers st),
   match reconnectTimer st with Some tm => [Cleared tm] | None => [] end
   ++ match eventSource st with Some src => [Closed src] | None => [] end).

Section Handlers.
Variable opts : options.
Variable JSON_parse : string → option value.

Definition scheduleReconnect (st : t) : t * list adapter_output :=
  match reconnectTimer st with
  | Some _ => (st, [])
  | None =>
      (mk (connected st) (eventSource st) (reconnectAttempts st + 1)
          (Some (timers st)) (sources st) (S (timers st)),
       [Scheduled (timers st) (reconnectInterval opts)])
  end.

Definition onopen (st : t) : t * list adapter_output :=
  (mk true (eventSource st) 0 (reconnectTimer st) (sources st) (timers st), []).

Definition onmessage (raw : string) (st : t) : t * list adapter_output :=
  (st, [Emitted (parse_or_raw JSON_parse raw)]).

Definition onerror (st : t) : t * list adapter_output :=
  let st1 := mk false (eventSource st) (reconnectAttempts st) (reconnectTimer st)
                (sources st) (timers st) in
  if (reconnectAttempts st1 <? maxReconnectAttempts opts)%Z
  then scheduleReconnect st1
  else (st1, []).

(** The callback of the reconnect timeout. *)
Definition reconnect (st : t) : t * list adapter_output :=
  let st1 := mk (connected st) (eventSource st) (reconnectAttempts st) None
                (sources st) (timers st) in
  and_then (disconnect st1) connect.

Definition step (i : input) (st : t) : t * list adapter_output :=
  match i with
  | Connect => connect st
  | Disconnect => disconnect st
  | Open src => if source_open st src then onopen st else (st, [])
  | Message src raw => if source_open st src then onmessage raw st else (st, [])
  | Error src => if source_open st src then onerror st else (st, [])
  | TimerFires =>
      match reconnectTimer st with
      | Some _ => reconnect st
      | None => (st, [])
      end
  end.

Definition run : list input → t → t * list adapter_output := run_inputs step.

End Handlers.

(** Inputs under which the connection only ever fails: no [onopen]. *)
Definition is_open (i : input) : bool :=
  match i with Open _ => true | _ => false end.

Definition is_connect (i : input) : bool :=
  match i with Connect => true | _ => false end.

(** [n] rounds of: the current [EventSource] [src] fails, the reconnect
    timeout expires; [next] is the [EventSource] the reconnect creates. *)
Fixpoint failures (n : nat) (src next : nat) : list input :=
  match n with
  | 0 => []
  | S n' => Error src :: TimerFires :: failures n' next (S next)
  end.

(** The adapter has given up: it is disconnected, no reconnect is pending
    and the attempts have reached the ceiling. *)
Definition exhausted (opts : options) (st : t) : Prop :=
  connected st = false ∧ reconnectTimer st = None
  ∧ (maxReconnectAttempts opts ≤ reconnectAttempts st)%Z.

(** Outputs that neither schedule a reconnect nor open a connection. *)
Definition quiet (outs : list adapter_output) : Prop :=
  Forall (λ o, is_scheduled o = false ∧ is_created o = false) outs.

End SSEAdapter.

Module WebSocketAdapter.

Inductive ready_state : Type := CONNECTING | OPEN | CLOSING | CLOSED.

#[global] Instance ready_state_eq_dec : EqDecision ready_state.
Proof. solve_decision. Defined.

Record options : Type := mk_options {
  reconnectInterval : Z;
  maxReconnectAttempts : Z;
  pingInterval : Z;
  pongTimeout : Z;
}.

(** The fields of the class, with the [readyState] of the [WebSocket]
    objects created so far and the number of timers created so far.  The
    callbacks of the ping timers only send ["ping"] and close a socket, which
    shows up as a [Close] input; they are not inputs of their own. *)
Record t : Type := mk {
  connected : bool;
  ws : option nat;
  reconnectAttempts : Z;
  reconnectTimer : option nat;
  pingTimer : option nat;
  pongTimer : option nat;
  sockets : list ready_state;
  timers : nat;
}.

Definition create : t := mk false None 0 None None None [] 0.

Inductive input : Type :=
| Connect
| Disconnect
| Open (sock : nat)                    (* ws.onopen *)
| Message (sock : nat) (raw : string)  (* ws.onmessage *)
| Close (sock : nat) (wasClean : bool) (* ws.onclose *)
| Error (sock : nat)                   (* ws.onerror *)
| TimerFires.                          (* the reconnect timeout expires *)

Definition ready (st : t) (sock : nat) : option ready_state := sockets st !! sock.

Definition connect (st : t) : t * list adapter_output :=
  if connected st then (st, [])
  else
    (mk (connected st) (Some (length (sockets st))) (reconnectAttempts st)
        (reconnectTimer st) (pingTimer st) (pongTimer st)
        (sockets st ++ [CONNECTING]) (timers st),
     [Created (length (sockets st))]).

Definition stopPing (st : t) : t * list adapter_output :=
  (mk (connected st) (ws st) (reconnectAttempts st) (reconnectTimer st) None None
      (sockets st) (timers st),
   match pingTimer st with Some tm => [Cleared tm] | None => [] end
   ++ match pongTimer st with Some tm => [Cleared tm] | None => [] end).

Definition disconnect (st : t) : t * list adapter_output :=
  let st1 := mk (connected st) (ws st) (reconnectAttempts st) None (pingTimer st)
                (pongTimer st) (sockets st) (timers st) in
  and_then
    (and_then
       (st1, match reconnectTimer st with Some tm => [Cleared tm] | None => [] end)
       stopPing)
    (λ st2,
       match ws st2 with
       | Some sock =>
           if bool_decide (ready st2 sock = Some OPEN)
           then (mk false None (reconnectAttempts st2) (reconnectTimer st2)
                    (pingTimer st2) (pongTimer st2)
                    (<[sock := CLOSING]> (sockets st2)) (timers st2),
                 [Closed sock])
           else (mk false None (reconnectAttempts st2) (reconnectTimer st2)
                    (pingTimer st2) (pongTimer st2) (sockets st2) (timers st2), [])
       | None =>
           (mk false None (reconnectAttempts st2) (reconnectTimer st2)
               (pingTimer st2) (pongTimer st2) (sockets st2) (timers st2), [])
       end).

Section Handlers.
Variable opts : options.
Variable JSON_parse : string → option value.

Definition scheduleReconnect (st : t) : t * list adapter_output :=
  match reconnectTimer st with
  | Some _ => (st, [])
  | None =>
      (mk (connected st) (ws st) (reconnectAttempts st + 1) (Some (timers st))
          (pingTimer st) (pongTimer st) (sockets st) (S (timers st)),
       [Scheduled (timers st) (reconnectInterval opts)])
  end.

Definition startPing (st : t) : t * list adapter_output :=
  if (0 <? pingInterval opts)%Z
  then (mk (connected st) (ws st) (reconnectAttempts st) (reconnectTimer st)
           (Some (timers st)) (pongTimer st) (sockets st) (S (timers st)), [])
  else (st, []).

Definition onopen (sock : nat) (st : t) : t * list adapter_output :=
  startPing (mk true (ws st) 0 (reconnectTimer st) (pingTimer st) (pongTimer st)
                (<[sock := OPEN]> (sockets st)) (timers st)).

Definition handlePong (st : t) : t * list adapter_output :=
  (mk (connected st) (ws st) (reconnectAttempts st) (reconnectTimer st) (pingTimer st)
      None (sockets st) (timers st),
   match pongTimer st with Some tm => [Cleared tm] | None => [] end).

Definition onmessage (raw : string) (st : t) : t * list adapter_output :=
  if String.eqb raw "pong" then handlePong st
  else (st, [Emitted (parse_or_raw JSON_parse raw)]).

Definition onclose (sock : nat) (wasClean : bool) (st : t) : t * list adapter_output :=
  and_then
    (stopPing (mk false (ws st) (reconnectAttempts st) (reconnectTimer st) (pingTimer st)
                  (pongTimer st) (<[sock := CLOSED]> (sockets st)) (timers st)))
    (λ st1,
       if negb wasClean && (reconnectAttempts st1 <? maxReconnectAttempts opts)%Z
       then scheduleReconnect st1
       else (st1, [])).

Definition reconnect (st : t) : t * list adapter_output :=
  let st1 := mk (connected st) (ws st) (reconnectAttempts st) None (pingTimer st)
                (pongTimer st) (sockets st) (timers st) in
  and_then (disconnect st1) connect.

Definition step (i : input) (st : t) : t * list adapter_output :=
  match i with
  | Connect => connect st
  | Disconnect => disconnect st
  | Open sock =>
      if bool_decide (ready st sock = Some CONNECTING) then onopen sock st else (st, [])
  | Message sock raw =>
      if bool_decide (ready st sock = Some OPEN) then onmessage raw st else (st, [])
  | Close sock wasClean =>
      match ready st sock with
      | Some CLOSED | None => (st, [])
      | Some _ => onclose sock wasClean st
      end
  | Error sock => (st, [])
  | TimerFires =>
      match reconnectTimer st with
      | Some _ => reconnect st
      | None => (st, [])
      end
  end.

Definition run : list input → t → t * list adapter_output := run_inputs step.

End Handlers.

Definition is_open (i : input) : bool :=
  match i with Open _ => true | _ => false end.

Definition is_connect (i : input) : bool :=
  match i with Connect => true | _ => false end.

(** [n] rounds of: the current socket [sock] closes uncleanly, the
    reconnect timeout expires; [next] is the socket the reconnect creates. *)
Fixpoint failures (n : nat) (sock next : nat) : list input :=
  match n with
  | 0 => []
  | S n' => Close sock false :: TimerFires :: failures n' next (S next)
  end.

Definition exhausted (opts : options) (st : t) : Prop :=
  connected st = false ∧ reconnectTimer st = None
  ∧ (maxReconnectAttempts opts ≤ reconnectAttempts st)%Z.

Definition quiet (outs : list adapter_output) : Prop :=
  Forall (λ o, is_scheduled o = false ∧ is_created o = false) outs.

End WebSocketAdapter.

(** ** Pull adapters ([streamAdapter.ts], [restAdapter.ts])

    [startStream] and [fetchData] are [async]: an invocation runs up to an
    [await] and continues when the awaited promise settles.  The state
    keeps the invocations that are suspended ([tasks], indexed by the order
    in which they started, [None] once finished); the [AbortController] and
    the reader an invocation creates carry its index.  The inputs are the
    calls of the caller, the settling of the awaited promises and the
    expiry of timers.  Retry timeouts are not kept in any field of the
    class; [retries] lists the arguments of the pending ones, which expire
    in the order in which they were set. *)

(** Text is held as its UTF-8 encoding, one [ascii] per byte.
    [String.prototype.trim] strips the code points that ECMAScript calls
    WhiteSpace and LineTerminator: U+0009 to U+000D, U+0020, U+00A0,
    U+1680, U+2000 to U+200A, U+2028, U+2029, U+202F, U+205F, U+3000 and
    U+FEFF.  [white_space1], [white_space2] and [white_space3] recognise
    their encodings of one, two and three bytes. *)
Definition white_space1 (b1 : ascii) : bool :=
  match nat_of_ascii b1 with
  | 9 | 10 | 11 | 12 | 13 | 32 => true
  | _ => false
  end.

Definition white_space2 (b1 b2 : ascii) : bool :=
  Nat.eqb (nat_of_ascii b1) 194 && Nat.eqb (nat_of_ascii b2) 160.  (* U+00A0 *)

Definition white_space3 (b1 b2 b3 : ascii) : bool :=
  let n1 := nat_of_ascii b1 in
  let n2 := nat_of_ascii b2 in
  let n3 := nat_of_ascii b3 in
  Nat.eqb n1 225 && Nat.eqb n2 154 && Nat.eqb n3 128             (* U+1680 *)
  || Nat.eqb n1 226 && Nat.eqb n2 128
     && (Nat.leb 128 n3 && Nat.leb n3 138                         (* U+2000 to U+200A *)
         || Nat.eqb n3 168 || Nat.eqb n3 169                      (* U+2028, U+2029 *)
         || Nat.eqb n3 175)                                       (* U+202F *)
  || Nat.eqb n1 226 && Nat.eqb n2 129 && Nat.eqb n3 159          (* U+205F *)
  || Nat.eqb n1 227 && Nat.eqb n2 128 && Nat.eqb n3 128          (* U+3000 *)
  || Nat.eqb n1 239 && Nat.eqb n2 187 && Nat.eqb n3 191.         (* U+FEFF *)

(** [s.trimStart()], on the bytes. *)
Fixpoint trim_start (cs : list ascii) : list ascii :=
  match cs with
  | b1 :: r1 =>
      if white_space1 b1 then trim_start r1
      else
        match r1 with
        | b2 :: r2 =>
            if white_space2 b1 b2 then trim_start r2
            else
              match r2 with
              | b3 :: r3 => if white_space3 b1 b2 b3 then trim_start r3 else cs
              | [] => cs
              end
        | [] => cs
        end
  | [] => []
  end.

(** [s.trimEnd()], on the bytes in reverse order: in UTF-8 the last bytes
    of a text are the encoding of its last code point. *)
Fixpoint trim_end_rev (cs : list ascii) : list ascii :=
  match cs with
  | b1 :: r1 =>
      if white_space1 b1 then trim_end_rev r1
      else
        match r1 with
        | b2 :: r2 =>
            if white_space2 b2 b1 then trim_end_rev r2
            else
              match r2 with
              | b3 :: r3 => if white_space3 b3 b2 b1 then trim_end_rev r3 else cs
              | [] => cs
              end
        | [] => cs
        end
  | [] => []
  end.

(** [s.trim()] *)
Definition trim (s : string) : string :=
  String.string_of_list_ascii
    (List.rev (trim_end_rev (List.rev (trim_start (String.list_ascii_of_string s))))).

(** [s.split('\n')]: never empty. *)
Fixpoint split_lines (s : string) : list string :=
  match s with
  | EmptyString => [EmptyString]
  | String c s' =>
      if Ascii.eqb c "010"%char then EmptyString :: split_lines s'
      else match split_lines s' with
           | l :: ls => String c l :: ls
           | [] => [String c EmptyString]
           end
  end.

(** The complete lines of a buffer, and the incomplete last line
    ([lines.pop() || '']). *)
Definition complete_lines (buffer : string) : list string :=
  List.removelast (split_lines buffer).

Definition incomplete_line (buffer : string) : string :=
  List.last (split_lines buffer) EmptyString.

Module StreamAdapter.

Record options : Type := mk_options {
  timeout : Z;
  retryAttempts : Z;
  retryDelay : Z;
}.

Inductive phase : Type :=
| Fetching                 (* suspended at [await fetch(...)] *)
| Reading (buffer : string). (* suspended at [await this.reader.read()] *)

Record task : Type := mk_task {
  retryCount : Z;
  task_phase : phase;
}.

Record t : Type := mk {
  connected : bool;
  abortController : option nat;
  reader : option nat;
  tasks : list (option task);
  timeouts : list nat;
  retries : list Z;
}.

(** [new StreamAdapter(name, url, options)] *)
Definition create : t := mk false None None [] [] [].

Inductive input : Type :=
| Connect                          (* connect() is called *)
| Disconnect                       (* disconnect() is called *)
| FetchResolves (id : nat) (ok : bool) (* the response of request [id] arrives *)
| FetchFails (id : nat)            (* request [id] fails in the network *)
| Chunk (id : nat) (text : string) (* a read of stream [id] delivers a chunk *)
| Done (id : nat)                  (* a read of stream [id] reports the end *)
| ReadFails (id : nat)             (* a read of stream [id] fails in the network *)
| TimeoutFires (id : nat)          (* the timeout set for request [id] expires *)
| RetryFires.                      (* the oldest pending retry timeout expires *)

Definition task_of (st : t) (id : nat) : option task := mjoin (tasks st !! id).

(** [finally { this.reader = null; this.abortController = null }], which
    ends the invocation. *)
Definition finally (id : nat) (st : t) : t * list adapter_output :=
  (mk (connected st) None None (<[id := None]> (tasks st)) (timeouts st) (retries st), []).

Section Handlers.
Variable opts : options.
Variable JSON_parse : string → option value.

Definition processStreamLine (line : string) : list adapter_output :=
  [Emitted (parse_or_raw JSON_parse line)].

(** After the loop: [if (buffer.trim()) this.processStreamLine(buffer.trim())],
    then [finally]. *)
Definition flush (id : nat) (buffer : string) (st : t) : t * list adapter_output :=
  and_then
    (st, if String.eqb (trim buffer) EmptyString then [] else processStreamLine (trim buffer))
    (finally id).

(** The outer [catch] for an error that is not an [AbortError], then
    [finally]. *)
Definition on_failure (id : nat) (n : Z) (st : t) : t * list adapter_output :=
  and_then
    (if (n <? retryAttempts opts)%Z && connected st
     then (mk (connected st) (abortController st) (reader st) (tasks st) (timeouts st)
              (retries st ++ [(n + 1)%Z]),
           [Scheduled (length (retries st)) (retryDelay opts)])
     else (mk false (abortController st) (reader st) (tasks st) (timeouts st) (retries st),
           []))
    (finally id).

(** [controller.abort()]: the invocation that created the controller, if
    still suspended, sees an [AbortError]. *)
Definition abort (id : nat) (st : t) : t * list adapter_output :=
  and_then (st, [Closed id])
    (λ st,
       match task_of st id with
       | Some (mk_task _ Fetching) => finally id st
       | Some (mk_task _ (Reading buffer)) => flush id buffer st
       | None => (st, [])
       end).

(** [startStream(retryCount)], up to [await fetch(...)]. *)
Definition startStream (n : Z) (st : t) : t * list adapter_output :=
  (mk (connected st) (Some (length (tasks st))) (reader st)
      (tasks st ++ [Some (mk_task n Fetching)])
      (timeouts st ++ [length (tasks st)]) (retries st),
   [Created (length (tasks st))]).

Definition connect (st : t) : t * list adapter_output :=
  if connected st then (st, []) else startStream 0 st.

Definition disconnect (st : t) : t * list adapter_output :=
  and_then
    (and_then
       (mk false (abortController st) (reader st) (tasks st) (timeouts st) (retries st), [])
       (λ st,
          match reader st with
          | Some r =>
              and_then
                (and_then (st, [Closed r])
                   (λ st, match task_of st r with
                          | Some (mk_task _ (Reading buffer)) => flush r buffer st
                          | _ => (st, [])
                          end))
                (λ st, (mk (connected st) (abortController st) None (tasks st)
                           (timeouts st) (retries st), []))
          | None => (st, [])
          end))
    (λ st,
       match abortController st with
       | Some c =>
           and_then (abort c st)
             (λ st, (mk (connected st) None (reader st) (tasks st) (timeouts st)
                        (retries st), []))
       | None => (st, [])
       end).

(** The response arrives: [clearTimeout], the checks, and the first
    [await this.reader.read()]. *)
Definition on_response (id : nat) (n : Z) (ok : bool) (st : t) : t * list adapter_output :=
  let st1 := mk (connected st) (abortController st) (reader st) (tasks st)
                (filter (λ i, i ≠ id) (timeouts st)) (retries st) in
  if ok
  then (mk true (abortController st1) (Some id)
           (<[id := Some (mk_task n (Reading EmptyString))]> (tasks st1))
           (timeouts st1) (retries st1), [])
  else on_failure id n st1.

(** A chunk arrives: the body of the loop, and the loop condition. *)
Definition on_chunk (id : nat) (n : Z) (buffer text : string) (st : t)
    : t * list adapter_output :=
  let buffer' := buffer +:+ text in
  let emitted :=
    complete_lines buffer' ≫=
      (λ line, if String.eqb (trim line) EmptyString then []
               else processStreamLine (trim line)) in
  and_then (st, emitted)
    (λ st,
       if connected st
       then match reader st with
            | Some _ =>
                (mk (connected st) (abortController st) (reader st)
                    (<[id := Some (mk_task n (Reading (incomplete_line buffer')))]> (tasks st))
                    (timeouts st) (retries st), [])
            | None => on_failure id n st
            end
       else flush id (incomplete_line buffer') st).

Definition step (i : input) (st : t) : t * list adapter_output :=
  match i with
  | Connect => connect st
  | Disconnect => disconnect st
  | FetchResolves id ok =>
      match task_of st id with
      | Some (mk_task n Fetching) => on_response id n ok st
      | _ => (st, [])
      end
  | FetchFails id =>
      match task_of st id with
      | Some (mk_task n Fetching) => on_failure id n st
      | _ => (st, [])
      end
  | Chunk id text =>
      match task_of st id with
      | Some (mk_task n (Reading buffer)) => on_chunk id n buffer text st
      | _ => (st, [])
      end
  | Done id =>
      match task_of st id with
      | Some (mk_task n (Reading buffer)) => flush id buffer st
      | _ => (st, [])
      end
  | ReadFails id =>
      match task_of st id with
      | Some (mk_task n (Reading buffer)) => on_failure id n st
      | _ => (st, [])
      end
  | TimeoutFires id =>
      if bool_decide (id ∈ timeouts st)
      then
        and_then
          (mk (connected st) (abortController st) (reader st) (tasks st)
              (filter (λ i, i ≠ id) (timeouts st)) (retries st), [])
          (λ st, match abortController st with
                 | Some c => abort c st
                 | None => (st, [])
                 end)
      else (st, [])
  | RetryFires =>
      match retries st with
      | n :: rest =>
          startStream n
            (mk (connected st) (abortController st) (reader st) (tasks st)
                (timeouts st) rest)
      | [] => (st, [])
      end
  end.

Definition run : list input → t → t * list adapter_output := run_inputs step.

End Handlers.

(** The defaults of the constructor. *)
Definition default_options : options := mk_options 30000 3 2000.

(** The stream is established, a read fails and a retry is scheduled;
    [disconnect()] is called and returns; then the retry timeout expires,
    the new request succeeds and delivers a line. *)
Definition before_disconnect : list input :=
  [Connect; FetchResolves 0 true; ReadFails 0].

Definition after_disconnect : list input :=
  [RetryFires; FetchResolves 1 true; Chunk 1 ("x" +:+ String "010"%char EmptyString)].

End StreamAdapter.

Module RestAdapter.

Record options : Type := mk_options {
  pollInterval : Z;
  timeout : Z;
  retryAttempts : Z;
  retryDelay : Z;
}.

(** An invocation of [fetchData] is suspended at one of its two [await]s:
    at [await fetch(...)], or at the read of the body that the
    content-type of the response selects. *)
Inductive phase : Type :=
| Fetching       (* suspended at [await fetch(...)] *)
| ReadingJson    (* suspended at [await response.json()] *)
| ReadingText.   (* suspended at [await response.text()] *)

Record task : Type := mk_task {
  retryCount : Z;
  task_phase : phase;
}.

Record t : Type := mk {
  connected : bool;
  pollTimer : option nat;
  abortController : option nat;
  tasks : list (option task);
  timeouts : list nat;
  retries : list Z;
  timers : nat;
}.

Definition create : t := mk false None None [] [] [] 0.

Inductive input : Type :=
| Connect
| Disconnect
| PollTick                          (* the polling interval expires *)
| Fetch                             (* fetch() is called *)
| FetchResolves (id : nat) (ok : bool) (json : bool)
                                    (* the response of request [id] arrives;
                                       [json]: its content-type includes
                                       'application/json' *)
| FetchFails (id : nat)             (* request [id] fails in the network *)
| BodyArrives (id : nat) (raw : string)
                                    (* the body of response [id] has been read *)
| BodyFails (id : nat)              (* the read of the body fails in the network *)
| TimeoutFires (id : nat)
| RetryFires.

Definition task_of (st : t) (id : nat) : option task := mjoin (tasks st !! id).

(** [finally { this.abortController = null }], which ends the invocation. *)
Definition finally (id : nat) (st : t) : t * list adapter_output :=
  (mk (connected st) (pollTimer st) None (<[id := None]> (tasks st)) (timeouts st)
      (retries st) (timers st), []).

Section Handlers.
Variable opts : options.
Variable JSON_parse : string → option value.

(** [fetchData(retryCount)], up to [await fetch(...)]. *)
Definition fetchData (n : Z) (st : t) : t * list adapter_output :=
  if negb (connected st) then (st, [])
  else
    (mk (connected st) (pollTimer st) (Some (length (tasks st)))
        (tasks st ++ [Some (mk_task n Fetching)]) (timeouts st ++ [length (tasks st)])
        (retries st) (timers st),
     [Created (length (tasks st))]).

(** The [catch] for an error that is not an [AbortError], then [finally]. *)
Definition on_failure (id : nat) (n : Z) (st : t) : t * list adapter_output :=
  and_then
    (if (n <? retryAttempts opts)%Z
     then (mk (connected st) (pollTimer st) (abortController st) (tasks st) (timeouts st)
              (retries st ++ [(n + 1)%Z]) (timers st),
           [Scheduled (length (retries st)) (retryDelay opts)])
     else (st, []))
    (finally id).

(** [controller.abort()]: the invocation that created the controller, if
    still suspended at either [await], sees an [AbortError]. *)
Definition abort (id : nat) (st : t) : t * list adapter_output :=
  and_then (st, [Closed id])
    (λ st, match task_of st id with
           | Some _ => finally id st
           | None => (st, [])
           end).

Definition startPolling (st : t) : t * list adapter_output :=
  if (0 <? pollInterval opts)%Z
  then and_then (fetchData 0 st)
         (λ st, (mk (connected st) (Some (timers st)) (abortController st) (tasks st)
                    (timeouts st) (retries st) (S (timers st)), []))
  else (st, []).

Definition stopPolling (st : t) : t * list adapter_output :=
  (mk (connected st) None (abortController st) (tasks st) (timeouts st) (retries st)
      (timers st),
   match pollTimer st with Some tm => [Cleared tm] | None => [] end).

Definition connect (st : t) : t * list adapter_output :=
  if connected st then (st, [])
  else startPolling (mk true (pollTimer st) (abortController st) (tasks st) (timeouts st)
                        (retries st) (timers st)).

Definition disconnect (st : t) : t * list adapter_output :=
  and_then
    (stopPolling (mk false (pollTimer st) (abortController st) (tasks st) (timeouts st)
                     (retries st) (timers st)))
    (λ st,
       match abortController st with
       | Some c =>
           and_then (abort c st)
             (λ st, (mk (connected st) (pollTimer st) None (tasks st) (timeouts st)
                        (retries st) (timers st), []))
       | None => (st, [])
       end).

(** The response arrives: [clearTimeout], the check of [response.ok],
    and the [await] of the body, [response.json()] or [response.text()]
    by the content-type. *)
Definition on_response (id : nat) (n : Z) (ok json : bool) (st : t)
    : t * list adapter_output :=
  let st1 := mk (connected st) (pollTimer st) (abortController st) (tasks st)
                (filter (λ i, i ≠ id) (timeouts st)) (retries st) (timers st) in
  if ok
  then (mk (connected st1) (pollTimer st1) (abortController st1)
           (<[id := Some (mk_task n (if json then ReadingJson else ReadingText))]>
              (tasks st1))
           (timeouts st1) (retries st1) (timers st1), [])
  else on_failure id n st1.

(** The body has been read.  [response.json()] rejects when the body is
    not JSON, which the [catch] treats as any other failure;
    [response.text()] gives the body as it is.  Then
    [this.emitData(this.createDataItem(data))] and [finally]. *)
Definition on_body (id : nat) (n : Z) (ph : phase) (raw : string) (st : t)
    : t * list adapter_output :=
  match ph with
  | Fetching => (st, [])
  | ReadingJson =>
      match JSON_parse raw with
      | Some data => and_then (st, [Emitted data]) (finally id)
      | None => on_failure id n st
      end
  | ReadingText => and_then (st, [Emitted (VStr raw)]) (finally id)
  end.

Definition step (i : input) (st : t) : t * list adapter_output :=
  match i with
  | Connect => connect st
  | Disconnect => disconnect st
  | PollTick =>
      match pollTimer st with
      | Some _ => fetchData 0 st
      | None => (st, [])
      end
  | Fetch => fetchData 0 st
  | FetchResolves id ok json =>
      match task_of st id with
      | Some (mk_task n Fetching) => on_response id n ok json st
      | _ => (st, [])
      end
  | FetchFails id =>
      match task_of st id with
      | Some (mk_task n Fetching) => on_failure id n st
      | _ => (st, [])
      end
  | BodyArrives id raw =>
      match task_of st id with
      | Some (mk_task n ph) => on_body id n ph raw st
      | None => (st, [])
      end
  | BodyFails id =>
      match task_of st id with
      | Some (mk_task n Fetching) => (st, [])
      | Some (mk_task n _) => on_failure id n st
      | None => (st, [])
      end
  | TimeoutFires id =>
      if bool_decide (id ∈ timeouts st)
      then
        and_then
          (mk (connected st) (pollTimer st) (abortController st) (tasks st)
              (filter (λ i, i ≠ id) (timeouts st)) (retries st) (timers st), [])
          (λ st, match abortController st with
                 | Some c => abort c st
                 | None => (st, [])
                 end)
      else (st, [])
  | RetryFires =>
      match retries st with
      | n :: rest =>
          fetchData n
            (mk (connected st) (pollTimer st) (abortController st) (tasks st)
                (timeouts st) rest (timers st))
      | [] => (st, [])
      end
  end.

Definition run : list input → t → t * list adapter_output := run_inputs step.

End Handlers.

Definition default_options : options := mk_options 5000 10000 3 1000.

(** Two requests overlap (the second poll starts before the first response
    arrives); the first completes; [disconnect()] is called and returns;
    then the response of the second request arrives, and its body. *)
Definition overlapping_polls : list input :=
  [Connect; PollTick; FetchResolves 0 true false; BodyArrives 0 "first"; Disconnect].

Definition late_response : list input :=
  [FetchResolves 1 true false; BodyArrives 1 "late"].

(** A poll starts while the body of the first response is being read;
    [disconnect()] is called and returns; then that body arrives. *)
Definition poll_during_body_read : list input :=
  [Connect; FetchResolves 0 true true; PollTick; Disconnect].

End RestAdapter.

(** Adapters configured with [maxReconnectAttempts = 3], just connected,
    and a parser that accepts nothing. *)
Definition sse_three : SSEAdapter.options := SSEAdapter.mk_options 5000 3.

Definition sse_connected : SSEAdapter.t := SSEAdapter.mk true (Some 0) 0 None [true] 0.

Definition ws_three : WebSocketAdapter.options :=
  WebSocketAdapter.mk_options 5000 3 30000 5000.

Definition ws_connected : WebSocketAdapter.t :=
  WebSocketAdapter.mk true (Some 0) 0 None (Some 0) None [WebSocketAdapter.OPEN] 1.

Definition no_json : string → option value := λ _, None.

(** ** Sequences of calls to the store *)

Module DataStateOps.





End DataStateOps.

(** ** The other methods of the routing layer, and [BaseAdapter] *)

Module DataAdapterLayerOps.
Import DataAdapterLayer.

Definition msg_not_found (nm : string) : string :=
  "Adapter " +:+ dquote +:+ nm +:+ dquote +:+ " not found".
Definition msg_removed (nm : string) : string := "Removed adapter: " +:+ nm.

(** [removeAdapter(name)], run to its end: [isConnected] is what the
    adapter's [isConnected()] returns and [r] is how the promise of its
    [disconnect()] settles. *)
Definition removeAdapter (nm : string) (isConnected : bool) (r : settlement) : M t unit :=
  let* w := get_state in
  match map_get (adapters w) nm with
  | None => throw (mk_error (msg_not_found nm))
  | Some a =>
      when isConnected (emit (AdapterDisconnect a) ;; await r) ;;
      modify (λ w, mk (map_delete (adapters w) nm) (dataState w) (enableLogging w)
                      (checkoutFunctions w) (dataCallbacks w) (objects w) (closures w)) ;;
      modify (λ w, mk (adapters w) (dataState w) (enableLogging w)
                      (map_delete (checkoutFunctions w) nm) (dataCallbacks w)
                      (objects w) (closures w)) ;;
      let* w := get_state in
      when (enableLogging w) (emit (ConsoleLog (msg_removed nm)))
  end.

Definition getAllAdapters : M t (list nat) :=
  let* w := get_state in ret (map_values (adapters w)).

(** [connectAdapter(name)] and [disconnectAdapter(name)], run to their
    end, when the promise of the adapter's method settles as [r]. *)
Definition connectAdapter (nm : string) (r : settlement) : M t unit :=
  let* w := get_state in
  match map_get (adapters w) nm with
  | None => throw (mk_error (msg_not_found nm))
  | Some a =>
      emit (AdapterConnect a) ;;
      await r ;;
      let* w := get_state in
      when (enableLogging w) (emit (ConsoleLog (msg_connected nm)))
  end.

Definition disconnectAdapter (nm : string) (r : settlement) : M t unit :=
  let* w := get_state in
  match map_get (adapters w) nm with
  | None => throw (mk_error (msg_not_found nm))
  | Some a =>
      emit (AdapterDisconnect a) ;;
      await r ;;
      let* w := get_state in
      when (enableLogging w) (emit (ConsoleLog (msg_disconnected nm)))
  end.

(** [BaseAdapter.offData(callback)] on the adapter object [a]. *)
Definition offData (a : nat) (callback : data_callback) (w : t) : t :=
  mk (adapters w) (dataState w) (enableLogging w) (checkoutFunctions w)
     (dataCallbacks w)
     (alter (λ o, mk_adapter (name o) (filter (λ c, c ≠ callback) (adapterCallbacks o)))
            a (objects w))
     (closures w).

(** [BaseAdapter.generateId()]: [now] is the reading of [Date.now()] and
    [rand] the string [Math.random().toString(36).substr(2, 9)]. *)
Definition generateId (nm : string) (now : Z) (rand : string) : string :=
  nm +:+ "-" +:+ pretty now +:+ "-" +:+ rand.

(** [BaseAdapter.createDataItem(data, id)] of the adapter named [nm]; an
    omitted [id] is [None].  The clock is read for the generated id
    ([now_id]) and then for the timestamp ([now]). *)
Definition createDataItem (nm : string) (data : value) (id : option string)
    (now_id now : Z) (rand : string) : DataItem.t :=
  DataItem.mk
    (match id with
     | Some i => if String.eqb i EmptyString then generateId nm now_id rand else i
     | None => generateId nm now_id rand
     end)
    now data (Some nm).

(** The invocations of data callbacks in a trace. *)
Definition is_data_call (e : event) : bool :=
  match e with DataCall _ _ => true | _ => false end.

Definition data_calls (tr : list event) : list event :=
  filter (λ e, is_data_call e = true) tr.

(** What one emission of an adapter makes of each member of its
    [dataCallbacks]: a routing closure runs [handleAdapterData], which
    calls every data callback of the layer with the processed envelope,
    or none when the transform throws; another callback is called with
    the envelope itself. *)
Definition deliveries (w : t) (item : DataItem.t) (cb : data_callback) : list event :=
  match cb with
  | Route _ =>
      match checkout_result w item with
      | Normal pk => (λ c, DataCall c (DataItem.to_value pk.1)) <$> dataCallbacks w
      | Thrown _ => []
      end
  | External n => [DataCall n (DataItem.to_value item)]
  end.

(** Whether a name contains the separator of the default store key. *)
Fixpoint has_underscore (s : string) : bool :=
  match s with
  | EmptyString => false
  | String c s' => if Ascii.eqb c "_"%char then true else has_underscore s'
  end.

(** Every routing closure on an adapter object was created by
    [addAdapter]. *)
Definition closures_bounded (w : t) : Prop :=
  ∀ a c, Route c ∈ adapter_callbacks w a → c < closures w.

(** A layer with one data callback, and an adapter that is registered
    in it together with a transform. *)
Definition one_adapter_layer : t :=
  mk [("a", 0)] DataState.empty true [("a", sensor_checkout)] [5]
     [mk_adapter "a" [Route 0]] 1.

End DataAdapterLayerOps.

(** ** States of the push adapters *)

Module SSEAdapterOps.
Import SSEAdapter.

(** Every [EventSource] that is still open is the one the adapter holds
    in [eventSource]. *)
Definition tidy (st : t) : Prop :=
  ∀ src, sources st !! src = Some true → eventSource st = Some src.

(** Disconnected, with nothing open and nothing pending. *)
Definition idle (st : t) : Prop :=
  connected st = false ∧ eventSource st = None ∧ reconnectTimer st = None
  ∧ Forall (λ b, b = false) (sources st).

(** [connect()] has been called and the connection has not opened yet. *)
Definition sse_connecting : t := mk false (Some 0) 0 None [true] 0.

End SSEAdapterOps.

Module WebSocketAdapterOps.
Import WebSocketAdapter.

(** The adapter after [connect()], [onopen], [disconnect()], [connect()]
    and the [onopen] of the second socket, while the first socket is
    still closing. *)
Definition ws_reconnected : t :=
  mk true (Some 1) 0 None (Some 1) None [CLOSING; OPEN] 2.

End WebSocketAdapterOps.

(** ** States of the pull adapters *)

Module StreamAdapterOps.
Import StreamAdapter.

(** What the reading loop makes of one line. *)
Definition line_outputs (JSON_parse : string → option value) (line : string)
    : list adapter_output :=
  if String.eqb (trim line) EmptyString then []
  else processStreamLine JSON_parse (trim line).

(** The stream is established: request 0 has been answered and the
    adapter waits for its first chunk. *)
Definition stream_reading : t :=
  mk true (Some 0) (Some 0) [Some (mk_task 0 (Reading EmptyString))] [] [].

(** A newline, and the no-break space U+00A0 in UTF-8. *)
Definition newline : string := String "010"%char EmptyString.

Definition nbsp : string := String "194"%char (String "160"%char EmptyString).

(** The stream is established and its buffer holds an incomplete line
    that ends in a no-break space. *)
Definition stream_reading_tail : t :=
  mk true (Some 0) (Some 0) [Some (mk_task 0 (Reading ("tail" +:+ nbsp)))] [] [].

End StreamAdapterOps.

Module RestAdapterOps.
Import RestAdapter.

(** Every request in flight, waiting for its response or for its body, is
    the one whose controller the adapter holds: requests do not
    overlap. *)
Definition tidy (st : t) : Prop :=
  ∀ id tk, task_of st id = Some tk → abortController st = Some id.

(** Disconnected, with no request in flight and no polling timer. *)
Definition idle (st : t) : Prop :=
  connected st = false ∧ pollTimer st = None ∧ abortController st = None
  ∧ ∀ id, task_of st id = None.

(** Inputs that may issue a request. *)
Definition starts_request (i : input) : bool :=
  match i with
  | Connect | PollTick | Fetch | RetryFires => true
  | _ => false
  end.

(** The first request has failed in the network and the next poll has
    issued a second request. *)
Definition rest_second_request : t :=
  mk true (Some 0) (Some 1) [None; Some (mk_task 0 Fetching)] [0; 1] [1%Z] 1.

(** The response of the only request has arrived and its body is being
    read as JSON. *)
Definition rest_reading_body : t :=
  mk true (Some 0) (Some 0) [Some (mk_task 0 ReadingJson)] [] [] 1.

End RestAdapterOps.

(** ** The mock adapter ([adapters/mockAdapter.ts]) *)

Module MockAdapter.

(** [dataGenerator] is user code: its [k]-th call returns a value or
    throws; an absent generator is [None]. *)
Record options : Type := mk_options {
  interval : Z;
  maxItems : Z;
  autoStart : bool;
  dataGenerator : option (nat → outcome value);
}.

(** The argument of [updateOptions]: the properties it holds. *)
Record patch : Type := mk_patch {
  p_interval : option Z;
  p_maxItems : option Z;
  p_autoStart : option bool;
  p_dataGenerator : option (option (nat → outcome value));
}.

(** [{ ...o, ...p }] *)
Definition merge (o : options) (p : patch) : options :=
  mk_options (default (interval o) (p_interval p)) (default (maxItems o) (p_maxItems p))
             (default (autoStart o) (p_autoStart p))
             (default (dataGenerator o) (p_dataGenerator p)).

(** The fields of the class, with the number of timers created and the
    number of data items drawn so far. *)
Record t : Type := mk {
  connected : bool;
  timer : option nat;
  totalItemCount : Z;
  opts : options;
  timers : nat;
  draws : nat;
}.

(** [new MockAdapter(name, options)], the defaults already merged into
    [options]. *)
Definition create (o : options) : t := mk false None 0 o 0 0.

Inductive input : Type :=
| Connect
| Disconnect
| StartGenerating
| StopGenerating
| GenerateOne
| ResetCount
| UpdateOptions (p : patch)
| Tick.                      (* the interval expires *)

(** [this.options.maxItems || 1], as the number of rounds of
    [for (let i = 0; i < itemsToGenerate; i++)]. *)
Definition itemsToGenerate (o : options) : nat :=
  Z.to_nat (if (maxItems o =? 0)%Z then 1 else maxItems o).

Definition is_nullish (v : value) : bool :=
  match v with VUndefined | VNull => true | _ => false end.

Section Handlers.
(** [defaultDataGenerator()] draws random numbers; its [k]-th result is
    [defaultDataGenerator k]. *)
Variable defaultDataGenerator : nat → value.

(** [this.options.dataGenerator?.() ?? this.defaultDataGenerator()] *)
Definition draw (st : t) : outcome value :=
  match dataGenerator (opts st) with
  | Some g =>
      match g (draws st) with
      | Normal v => Normal (if is_nullish v then defaultDataGenerator (draws st) else v)
      | Thrown e => Thrown e
      end
  | None => Normal (defaultDataGenerator (draws st))
  end.

(** The loop of the interval callback and of [generateOne], inside its
    [try]: an exception of the generator ends the loop. *)
Fixpoint generate (n : nat) (st : t) : t * list adapter_output :=
  match n with
  | 0 => (st, [])
  | S n' =>
      match draw st with
      | Normal data =>
          and_then
            (mk (connected st) (timer st) (totalItemCount st + 1) (opts st) (timers st)
                (S (draws st)),
             [Emitted data])
            (generate n')
      | Thrown _ =>
          (mk (connected st) (timer st) (totalItemCount st) (opts st) (timers st)
              (S (draws st)), [])
      end
  end.

Definition startGenerating (st : t) : t * list adapter_output :=
  if negb (connected st) || bool_decide (timer st ≠ None) then (st, [])
  else
    (mk (connected st) (Some (timers st)) (totalItemCount st) (opts st) (S (timers st))
        (draws st),
     [Scheduled (timers st) (interval (opts st))]).

Definition stopGenerating (st : t) : t * list adapter_output :=
  match timer st with
  | Some tm =>
      (mk (connected st) None (totalItemCount st) (opts st) (timers st) (draws st),
       [Cleared tm])
  | None => (st, [])
  end.

Definition connect (st : t) : t * list adapter_output :=
  if connected st then (st, [])
  else
    let st1 := mk true (timer st) 0 (opts st) (timers st) (draws st) in
    if autoStart (opts st1) then startGenerating st1 else (st1, []).

Definition disconnect (st : t) : t * list adapter_output :=
  stopGenerating (mk false (timer st) (totalItemCount st) (opts st) (timers st) (draws st)).

Definition generateOne (st : t) : t * list adapter_output :=
  if negb (connected st) then (st, [])
  else generate (itemsToGenerate (opts st)) st.

Definition resetCount (st : t) : t * list adapter_output :=
  (mk (connected st) (timer st) 0 (opts st) (timers st) (draws st), []).

Definition updateOptions (p : patch) (st : t) : t * list adapter_output :=
  let wasGenerating := bool_decide (timer st ≠ None) in
  and_then
    (and_then (if wasGenerating then stopGenerating st else (st, []))
       (λ st, (mk (connected st) (timer st) (totalItemCount st) (merge (opts st) p)
                  (timers st) (draws st), [])))
    (λ st, if wasGenerating && connected st then startGenerating st else (st, [])).

Definition step (i : input) (st : t) : t * list adapter_output :=
  match i with
  | Connect => connect st
  | Disconnect => disconnect st
  | StartGenerating => startGenerating st
  | StopGenerating => stopGenerating st
  | GenerateOne => generateOne st
  | ResetCount => resetCount st
  | UpdateOptions p => updateOptions p st
  | Tick =>
      match timer st with
      | Some _ => generate (itemsToGenerate (opts st)) st
      | None => (st, [])
      end
  end.

Definition run : list input → t → t * list adapter_output := run_inputs step.

End Handlers.

Definition is_emitted (o : adapter_output) : bool :=
  match o with Emitted _ => true | _ => false end.

Definition is_cleared (o : adapter_output) : bool :=
  match o with Cleared _ => true | _ => false end.

(** The number of items emitted, and of timers cleared, in a list of
    outputs. *)
Definition emitted (outs : list adapter_output) : nat :=
  length (filter (λ o, is_emitted o = true) outs).

Definition cleared (outs : list adapter_output) : nat :=
  length (filter (λ o, is_cleared o = true) outs).

(** Whether an interval timer is running. *)
Definition generating (st : t) : nat :=
  match timer st with Some _ => 1 | None => 0 end.

(** Inputs that set the counter back. *)
Definition resets_count (i : input) : bool :=
  match i with Connect | ResetCount => true | _ => false end.

(** The default interval, batch size and start mode, with no generator
    of the user: the data then comes from [defaultDataGenerator]. *)
Definition plain_options : options := mk_options 2000 1 true None.

Definition no_data : nat → value := λ _, VNull.

End MockAdapter.

(** ** The consumer ([consumer.ts]) *)

Module Consumer.

(** The options the code reads; [errorRetryAttempts] and
    [errorRetryDelay] are stored and never used. *)
Record options : Type := mk_options {
  enableLogging : bool;
  batchSize : Z;
  batchTimeout : Z;
}.

(** The argument of [updateOptions]: the properties it holds. *)
Record patch : Type := mk_patch {
  p_enableLogging : option bool;
  p_batchSize : option Z;
  p_batchTimeout : option Z;
}.

(** [{ ...o, ...p }] *)
Definition merge (o : options) (p : patch) : options :=
  mk_options (default (enableLogging o) (p_enableLogging p))
             (default (batchSize o) (p_batchSize p))
             (default (batchTimeout o) (p_batchTimeout p)).

(** What a processing callback is called with: one envelope, or a batch
    of them. *)
Inductive delivery : Type :=
| One (item : DataItem.t)
| Batch (items : list DataItem.t).

Inductive event : Type :=
| Delivered (cb : nat) (d : delivery)  (* a processing callback is called *)
| ErrorCalled (cb : nat) (err : value) (* an error callback is called *)
| TimerSet (tm : nat) (delay : Z)      (* setTimeout *)
| TimerCleared (tm : nat)              (* clearTimeout *)
| Unsubscribed                         (* this.unsubscribeDataReceived() *)
| Logged (msg : string) (err : value). (* console.error *)

(** The fields of the class; [subscribed] tells whether
    [unsubscribeDataReceived] is set, [timers] counts the timers
    created. *)
Record t : Type := mk {
  opts : options;
  dataQueue : list DataItem.t;
  batchTimer : option nat;
  processingCallbacks : list nat;
  errorCallbacks : list nat;
  subscribed : bool;
  timers : nat;
}.

(** [new Consumer(listener, options)], the defaults already merged into
    [options]. *)
Definition create (o : options) : t := mk o [] None [] [] true 0.

Inductive input : Type :=
| Consume (item : DataItem.t)
| Flush
| TimerFires                   (* the batch timeout expires *)
| UpdateOptions (p : patch)
| Destroy
| OnData (cb : nat)
| OffData (cb : nat)           (* the closure [onData] returned *)
| OnErrorCallback (cb : nat)
| OffErrorCallback (cb : nat). (* the closure [onErrorCallback] returned *)

Section Methods.
(** The callbacks are user code: after the events in a trace, the call
    recorded last returns ([None]) or throws.  They do not call back into
    the consumer. *)
Variable cb_throws : list event → option value.

(** One round of the loop of [onError]. *)
Definition call_error (err : value) (tr : list event) (cb : nat) : list event :=
  let tr1 := tr ++ [ErrorCalled cb err] in
  match cb_throws tr1 with
  | None => tr1
  | Some e => tr1 ++ [Logged "Error in error callback:" e]
  end.

Definition onError (err : value) (st : t) (tr : list event) : list event :=
  foldl (call_error err)
    (if enableLogging (opts st) then tr ++ [Logged "Consumer error:" err] else tr)
    (errorCallbacks st).

(** One round of the loop of [processData]. *)
Definition call_processing (d : delivery) (st : t) (tr : list event) (cb : nat)
    : list event :=
  let tr1 := tr ++ [Delivered cb d] in
  match cb_throws tr1 with
  | None => tr1
  | Some e => onError e st (tr1 ++ [Logged "Error in processing callback:" e])
  end.

(** [processData(data)]: it catches what the callbacks throw, so the
    [catch] blocks around its calls are never entered. *)
Definition processData (d : delivery) (st : t) (tr : list event) : list event :=
  foldl (call_processing d st) tr (processingCallbacks st).

Definition clear_timer (st : t) (tr : list event) : t * list event :=
  match batchTimer st with
  | Some tm =>
      (mk (opts st) (dataQueue st) None (processingCallbacks st) (errorCallbacks st)
          (subscribed st) (timers st),
       tr ++ [TimerCleared tm])
  | None => (st, tr)
  end.

Definition processBatch (st : t) (tr : list event) : t * list event :=
  let st1 := (clear_timer st tr).1 in
  let tr1 := (clear_timer st tr).2 in
  match dataQueue st1 with
  | [] => (st1, tr1)
  | batch =>
      let st2 := mk (opts st1) [] (batchTimer st1) (processingCallbacks st1)
                    (errorCallbacks st1) (subscribed st1) (timers st1) in
      (st2, processData (Batch batch) st2 tr1)
  end.

Definition addToBatch (data : DataItem.t) (st : t) (tr : list event) : t * list event :=
  let st1 := mk (opts st) (dataQueue st ++ [data]) (batchTimer st)
                (processingCallbacks st) (errorCallbacks st) (subscribed st)
                (timers st) in
  if (batchSize (opts st1) <=? Z.of_nat (length (dataQueue st1)))%Z
  then processBatch st1 tr
  else
    match batchTimer st1 with
    | None =>
        (mk (opts st1) (dataQueue st1) (Some (timers st1)) (processingCallbacks st1)
            (errorCallbacks st1) (subscribed st1) (S (timers st1)),
         tr ++ [TimerSet (timers st1) (batchTimeout (opts st1))])
    | Some _ => (st1, tr)
    end.

Definition consume (data : DataItem.t) (st : t) (tr : list event) : t * list event :=
  if (1 <? batchSize (opts st))%Z
  then addToBatch data st tr
  else (st, processData (One data) st tr).

Definition flush (st : t) (tr : list event) : t * list event :=
  if (0 <? length (dataQueue st))%nat then processBatch st tr else (st, tr).

Definition updateOptions (p : patch) (st : t) (tr : list event) : t * list event :=
  let st1 := mk (merge (opts st) p) (dataQueue st) (batchTimer st)
                (processingCallbacks st) (errorCallbacks st) (subscribed st)
                (timers st) in
  if bool_decide (p_batchSize p = Some 1%Z) && (0 <? length (dataQueue st1))%nat
  then flush st1 tr
  else (st1, tr).

Definition destroy (st : t) (tr : list event) : t * list event :=
  let st1 := (clear_timer st tr).1 in
  let tr1 := (clear_timer st tr).2 in
  let st2 := mk (opts st1) (dataQueue st1) (batchTimer st1) (processingCallbacks st1)
                (errorCallbacks st1) false (timers st1) in
  let tr2 := if subscribed st1 then tr1 ++ [Unsubscribed] else tr1 in
  let st3 := (flush st2 tr2).1 in
  let tr3 := (flush st2 tr2).2 in
  (mk (opts st3) [] (batchTimer st3) [] [] (subscribed st3) (timers st3), tr3).

Definition step (i : input) (st : t) (tr : list event) : t * list event :=
  match i with
  | Consume item => consume item st tr
  | Flush => flush st tr
  | TimerFires =>
      match batchTimer st with
      | Some _ => processBatch st tr
      | None => (st, tr)
      end
  | UpdateOptions p => updateOptions p st tr
  | Destroy => destroy st tr
  | OnData cb =>
      (mk (opts st) (dataQueue st) (batchTimer st) (set_add (processingCallbacks st) cb)
          (errorCallbacks st) (subscribed st) (timers st), tr)
  | OffData cb =>
      (mk (opts st) (dataQueue st) (batchTimer st)
          (set_delete (processingCallbacks st) cb) (errorCallbacks st) (subscribed st)
          (timers st), tr)
  | OnErrorCallback cb =>
      (mk (opts st) (dataQueue st) (batchTimer st) (processingCallbacks st)
          (set_add (errorCallbacks st) cb) (subscribed st) (timers st), tr)
  | OffErrorCallback cb =>
      (mk (opts st) (dataQueue st) (batchTimer st) (processingCallbacks st)
          (set_delete (errorCallbacks st) cb) (subscribed st) (timers st), tr)
  end.

Fixpoint run (ins : list input) (st : t) (tr : list event) : t * list event :=
  match ins with
  | [] => (st, tr)
  | i :: ins' => run ins' (step i st tr).1 (step i st tr).2
  end.

End Methods.

(** [getQueueStatus()]: queue length, batch size, and the numbers of
    processing and error callbacks. *)
Definition getQueueStatus (st : t) : nat * Z * nat * nat :=
  (length (dataQueue st), batchSize (opts st), length (processingCallbacks st),
   length (errorCallbacks st)).

Definition items_of (d : delivery) : list DataItem.t :=
  match d with
  | One item => [item]
  | Batch items => items
  end.

(** The envelopes the processing callback [cb] was handed in a trace, in
    order. *)
Definition delivered (cb : nat) (tr : list event) : list DataItem.t :=
  tr ≫= (λ e, match e with
              | Delivered c d => if decide (c = cb) then items_of d else []
              | _ => []
              end).

(** The envelopes passed to [consume] by a sequence of inputs. *)
Definition consumed (ins : list input) : list DataItem.t :=
  ins ≫= (λ i, match i with Consume item => [item] | _ => [] end).

(** Inputs that leave the callbacks alone and keep the batch size at
    least [1]. *)
Definition steady (i : input) : bool :=
  match i with
  | Consume _ | Flush | TimerFires => true
  | UpdateOptions p =>
      match p_batchSize p with
      | None => true
      | Some n => (1 <=? n)%Z
      end
  | _ => false
  end.

(** The state a step keeps for the callback [cb]: it is registered, no
    callback is registered twice, and nothing is queued unless batching
    is on. *)
Definition ready (cb : nat) (st : t) : Prop :=
  NoDup (processingCallbacks st) ∧ cb ∈ processingCallbacks st
  ∧ ((batchSize (opts st) ≤ 1)%Z → dataQueue st = []).

(** A timeout is pending exactly while envelopes are queued. *)
Definition timer_tracks_queue (st : t) : Prop :=
  dataQueue st = [] ↔ batchTimer st = None.

Definition batches_of (n : Z) : options := mk_options false n 1000.

Definition always_throws : list event → option value := λ _, Some VNull.

Definition item (i : string) : DataItem.t := DataItem.mk i 0 VNull (Some "a").

End Consumer.

(** ** The wrapper ([simpleWrapper.ts]) *)

Module SimpleDataSystem.
Import DataAdapterLayer DataAdapterLayerOps.

Inductive adapter_type : Type := SSE | WebSocket | Rest | Mock.

Definition type_name (ty : adapter_type) : string :=
  match ty with
  | SSE => "sse"
  | WebSocket => "websocket"
  | Rest => "rest"
  | Mock => "mock"
  end.

(** [s.includes(sub)] *)
Fixpoint includes (s sub : string) : bool :=
  if String.prefix sub s then true
  else match s with
       | EmptyString => false
       | String _ s' => includes s' sub
       end.

(** The type [connect] chooses when none is given. *)
Definition detect (url : string) : adapter_type :=
  if includes url "ws://" || includes url "wss://" then WebSocket
  else if includes url "/events" || includes url "stream" then SSE
  else Rest.

Definition resolve (url : string) (type : option adapter_type) : adapter_type :=
  match type with
  | Some ty => ty
  | None => detect url
  end.

Definition adapterName (ty : adapter_type) : string := "auto-" +:+ type_name ty.

(** The fields of the class: the layer of [this.system] and
    [isInitialized]. *)
Record t : Type := mk {
  system : DataAdapterLayer.t;
  isInitialized : bool;
}.

(** Running a method of [this.system.dataAdapterLayer]. *)
Definition lift_layer {A} (m : M DataAdapterLayer.t A) : M t A :=
  λ s tr,
    match m (system s) tr with
    | (o, w, tr') => (o, mk w (isInitialized s), tr')
    end.

(** [new SSEAdapter(name, ...)] and the like: a new adapter object, with
    no data callbacks yet. *)
Definition new_adapter (nm : string) : M t nat :=
  λ s tr,
    let w := system s in
    (Normal (length (objects w)),
     mk (DataAdapterLayer.mk (adapters w) (dataState w) (enableLogging w)
           (checkoutFunctions w) (dataCallbacks w) (objects w ++ [mk_adapter nm []])
           (closures w))
        (isInitialized s),
     tr).

(** [connect(url, type)], run to its end, when the promise of the new
    adapter's [connect()] settles as [r]. *)
Definition connect (url : string) (type : option adapter_type) (r : settlement)
    : M t unit :=
  let ty := resolve url type in
  let* adapter := new_adapter (adapterName ty) in
  lift_layer (addAdapter adapter) ;;
  lift_layer (connectAdapter (adapterName ty) r) ;;
  modify (λ s, mk (system s) true).

(** [disconnect()]: [isInitialized] is reset once the promise of
    [disconnectAll()] is fulfilled. *)
Definition disconnect (schedule : list (nat * settlement)) : M t promise_state :=
  let* st := lift_layer (disconnectAll schedule) in
  match st with
  | Fulfilled => modify (λ s, mk (system s) false) ;; ret st
  | _ => ret st
  end.

Definition is_adapter_connect (e : event) : bool :=
  match e with AdapterConnect _ => true | _ => false end.

(** The calls of [connect()] on adapters in a trace. *)
Definition adapter_connects (tr : list event) : list event :=
  filter (λ e, is_adapter_connect e = true) tr.

(** A new system: the layer [DataSystemFactory.create()] builds, with
    logging on and the two callbacks of its [Listener] registered in the
    store and in the layer. *)
Definition new_system : t :=
  mk (DataAdapterLayer.mk [] (DataState.mk [] [] [] [0]) true [] [0] [] 0) false.

End SimpleDataSystem.

(** * Properties *)

(** ** Facts about maps and sets *)

Section JsMapFacts.
Context {V : Type}.
Implicit Types (m : jsmap V) (k : string) (v : V).

Lemma map_get_set_eq m k v : map_get (map_set m k v) k = Some v.
Proof.
  induction m as [|[k' v'] m IH]; simpl.
  - by rewrite decide_True.
  - destruct (decide (k' = k)) as [->|Hne]; simpl.
    + by rewrite decide_True.
    + by rewrite decide_False.
Qed.

Lemma map_get_set_ne m k k' v : k ≠ k' → map_get (map_set m k v) k' = map_get m k'.
Proof.
  intros Hne. induction m as [|[k0 v0] m IH]; simpl.
  - by rewrite decide_False.
  - destruct (decide (k0 = k)) as [->|Hk]; simpl.
    + by rewrite !decide_False.
    + destruct (decide (k0 = k')); [done | apply IH].
Qed.

Lemma map_get_delete_eq m k : map_get (map_delete m k) k = None.
Proof.
  induction m as [|[k' v'] m IH]; simpl; [done|].
  destruct (decide (k' = k)) as [->|Hne]; simpl; [done|].
  by rewrite decide_False.
Qed.

Lemma map_get_delete_ne m k k' : k ≠ k' → map_get (map_delete m k) k' = map_get m k'.
Proof.
  intros Hne. induction m as [|[k0 v0] m IH]; simpl; [done|].
  destruct (decide (k0 = k)) as [->|Hk]; simpl.
  - by rewrite decide_False.
  - destruct (decide (k0 = k')); [done | apply IH].
Qed.

Lemma map_delete_absent m k : map_get m k = None → map_delete m k = m.
Proof.
  induction m as [|[k' v'] m IH]; simpl; [done|].
  destruct (decide (k' = k)); [done|]. intros H. by rewrite IH.
Qed.

Lemma map_delete_idemp m k : map_delete (map_delete m k) k = map_delete m k.
Proof. apply map_delete_absent, map_get_delete_eq. Qed.

Lemma map_keys_get m k : k ∈ map_keys m ↔ is_Some (map_get m k).
Proof.
  unfold map_keys. induction m as [|[k' v'] m IH]; simpl.
  - split; [by intros ?%elem_of_nil | by intros [? ?]].
  - rewrite elem_of_cons. destruct (decide (k' = k)) as [->|Hne].
    + split; eauto.
    + rewrite <- IH. split; [intros [?|?]; [congruence|done] | by right].
Qed.

Lemma map_keys_set_present m k v :
  is_Some (map_get m k) → map_keys (map_set m k v) = map_keys m.
Proof.
  unfold map_keys. induction m as [|[k' v'] m IH]; simpl.
  - by intros [? ?].
  - destruct (decide (k' = k)) as [->|Hne]; simpl; [done|].
    intros H. f_equal. by apply IH.
Qed.

Lemma map_keys_set_absent m k v :
  map_get m k = None → map_keys (map_set m k v) = map_keys m ++ [k].
Proof.
  unfold map_keys. induction m as [|[k' v'] m IH]; simpl; [done|].
  destruct (decide (k' = k)) as [->|Hne]; simpl; [done|].
  intros H. f_equal. by apply IH.
Qed.

End JsMapFacts.

Lemma set_add_NoDup l cb : NoDup l → NoDup (set_add l cb).
Proof.
  intros H. unfold set_add. case_decide; [done|].
  apply NoDup_app. split_and!; [done | | apply NoDup_singleton].
  intros x Hx ->%list_elem_of_singleton. done.
Qed.

Lemma set_add_elem l cb : cb ∈ set_add l cb.
Proof. unfold set_add. case_decide; [done|]. apply elem_of_app. right. by left. Qed.

Lemma set_delete_NoDup l cb : NoDup l → NoDup (set_delete l cb).
Proof. apply NoDup_filter. Qed.

Lemma set_delete_not_elem l cb : cb ∉ set_delete l cb.
Proof. unfold set_delete. rewrite list_elem_of_filter. by intros [? _]. Qed.

Lemma set_delete_absent l cb : cb ∉ l → set_delete l cb = l.
Proof.
  unfold set_delete. induction l as [|c l IH]; [done|].
  rewrite not_elem_of_cons. intros [Hne Hl].
  rewrite filter_cons_True; [|done]. by rewrite IH.
Qed.

Lemma set_delete_idemp l cb : set_delete (set_delete l cb) cb = set_delete l cb.
Proof. apply set_delete_absent, set_delete_not_elem. Qed.

(** ** Facts about the monad *)

Lemma for_each_app {S A} (l1 l2 : list A) (f : A → M S unit) s tr :
  for_each (l1 ++ l2) f s tr = (for_each l1 f ;; for_each l2 f) s tr.
Proof.
  revert s tr. induction l1 as [|x l1 IH]; intros s tr; simpl; [done|].
  unfold bind. destruct (f x s tr) as [[[u|e] s1] tr1]; [|done].
  rewrite IH. done.
Qed.

Lemma for_each_snoc {S A} (l : list A) (x : A) (f : A → M S unit) s tr :
  for_each (l ++ [x]) f s tr = (for_each l f ;; f x) s tr.
Proof.
  rewrite for_each_app. unfold bind. simpl.
  destruct (for_each l f s tr) as [[[u|e] s1] tr1]; [|done].
  unfold bind, ret. by destruct (f x s1 tr1) as [[[[]|e] s2] tr2].
Qed.

(** ** Facts about callback invocation *)

Section CallbackFacts.
Variable cb_throws : list event → option value.

Lemma calls_app tr1 tr2 : calls (tr1 ++ tr2) = calls tr1 ++ calls tr2.
Proof. apply filter_app. Qed.

Lemma guarded_spec {S} (e : event) msg (s : S) tr :
  is_call e = true →
  ∃ evs, guarded cb_throws e msg s tr = (Normal tt, s, tr ++ evs) ∧ calls evs = [e].
Proof.
  intros He. unfold guarded, try_catch, call, emit.
  destruct (cb_throws (tr ++ [e])) as [err|].
  - exists [e; ConsoleError msg err]. split.
    + by rewrite <- app_assoc.
    + unfold calls. rewrite filter_cons_True by done.
      by rewrite filter_cons_False by (simpl; congruence).
  - exists [e]. split; [done|].
    unfold calls. by rewrite filter_cons_True by done.
Qed.

Lemma for_each_guarded_spec {S A} (l : list A) (f : A → event) (msg : A → string)
    (s : S) tr :
  (∀ x, is_call (f x) = true) →
  ∃ evs, for_each l (λ x, guarded cb_throws (f x) (msg x)) s tr = (Normal tt, s, tr ++ evs)
         ∧ calls evs = f <$> l.
Proof.
  intros Hf. revert tr. induction l as [|x l IH]; intros tr.
  - exists []. by rewrite app_nil_r.
  - destruct (guarded_spec (f x) (msg x) s tr (Hf x)) as (e1 & H1 & C1).
    destruct (IH (tr ++ e1)) as (e2 & H2 & C2).
    exists (e1 ++ e2). split.
    + simpl. unfold bind. rewrite H1, H2. by rewrite app_assoc.
    + rewrite calls_app, C1, C2. done.
Qed.

End CallbackFacts.

(** ** The observable store *)

Module DataStateFacts.
Import DataState.

Section Specs.
Variable cb_throws : list event → option value.

Lemma set_spec key v s tr :
  ∃ evs,
    set cb_throws key v s tr
    = (Normal tt,
       mk (map_set (data s) key v) (subscribers s) (sets s) (globalSubscribers s),
       tr ++ evs)
    ∧ calls evs = ((λ cb, KeyCall cb v) <$> key_subscribers s key)
                  ++ ((λ cb, GlobalCall cb key v) <$> globalSubscribers s).
Proof.
  unfold set, bind, modify, get_state, key_subscribers. simpl.
  destruct (map_get (subscribers s) key) as [r|].
  - edestruct (for_each_guarded_spec (S:=t) cb_throws (set_contents
        (mk (map_set (data s) key v) (subscribers s) (sets s) (globalSubscribers s)) r)
      (λ cb, KeyCall cb v) (λ _, msg_subscriber key)) as (e1 & H1 & C1); [done|].
    rewrite H1.
    edestruct (for_each_guarded_spec (S:=t) cb_throws (globalSubscribers s)
      (λ cb, GlobalCall cb key v) (λ _, msg_global)) as (e2 & H2 & C2); [done|].
    rewrite H2. exists (e1 ++ e2). split; [by rewrite app_assoc|].
    by rewrite calls_app, C1, C2.
  - unfold ret.
    edestruct (for_each_guarded_spec (S:=t) cb_throws (globalSubscribers s)
      (λ cb, GlobalCall cb key v) (λ _, msg_global)) as (e2 & H2 & C2); [done|].
    rewrite H2. by exists e2.
Qed.

Lemma delete_spec key s tr :
  ∃ evs,
    delete cb_throws key s tr
    = (Normal tt,
       mk (map_delete (data s) key) (map_delete (subscribers s) key) (sets s)
          (globalSubscribers s),
       tr ++ evs)
    ∧ calls evs = (λ cb, GlobalCall cb key VUndefined) <$> globalSubscribers s.
Proof.
  unfold delete, bind, modify, get_state. simpl.
  edestruct (for_each_guarded_spec (S:=t) cb_throws (globalSubscribers s)
    (λ cb, GlobalCall cb key VUndefined) (λ _, msg_global)) as (e2 & H2 & C2); [done|].
  rewrite H2. by exists e2.
Qed.

Lemma subscribe_spec key callback s tr :
  ∃ evs,
    subscribe cb_throws key callback s tr
    = (Normal (mk_handle key (subscribe_set key s) callback),
       subscribe_state key callback s, tr ++ evs)
    ∧ calls evs = if is_defined (lookup s key)
                  then [KeyCall callback (lookup s key)] else [].
Proof.
  unfold subscribe, subscribe_set, subscribe_state, bind, modify, get_state,
    put_state, when, map_has, ret. simpl.
  destruct (map_get (subscribers s) key) as [r|] eqn:Hr; simpl.
  - rewrite Hr. simpl. unfold lookup at 1 2. simpl. fold (lookup s key).
    destruct (is_defined (lookup s key)).
    + edestruct (guarded_spec (S:=t) cb_throws (KeyCall callback (lookup s key))
        (msg_initial key)) as (e & -> & C); [done|]. by exists e.
    + exists []. by rewrite app_nil_r.
  - rewrite map_get_set_eq. simpl. unfold lookup at 1 2. simpl. fold (lookup s key).
    replace (alter (λ l, set_add l callback) (length (sets s)) (sets s ++ [[]]))
      with (sets s ++ [[callback]]).
    2:{ rewrite alter_app_r_alt by done. by rewrite Nat.sub_diag. }
    destruct (is_defined (lookup s key)).
    + edestruct (guarded_spec (S:=t) cb_throws (KeyCall callback (lookup s key))
        (msg_initial key)) as (e & -> & C); [done|]. by exists e.
    + exists []. by rewrite app_nil_r.
Qed.

Lemma subscribe_no_replay key callback s tr :
  is_defined (lookup s key) = false →
  subscribe cb_throws key callback s tr
  = (Normal (mk_handle key (subscribe_set key s) callback),
     subscribe_state key callback s, tr).
Proof.
  intros Hu.
  unfold subscribe, subscribe_set, subscribe_state, bind, modify, get_state,
    put_state, when, map_has, ret. simpl.
  destruct (map_get (subscribers s) key) as [r|] eqn:Hr; simpl.
  - rewrite Hr. simpl. unfold lookup at 1. simpl. fold (lookup s key).
    by rewrite Hu.
  - rewrite map_get_set_eq. simpl. unfold lookup at 1. simpl. fold (lookup s key).
    rewrite Hu. rewrite alter_app_r_alt by done. by rewrite Nat.sub_diag.
Qed.

Lemma unsubscribe_spec h s tr :
  unsubscribe h s tr = (Normal tt, unsubscribe_state h s, tr).
Proof.
  unfold unsubscribe, unsubscribe_state, bind, modify, get_state, when, ret,
    set_contents.
  simpl. by case_bool_decide.
Qed.

Lemma clear_spec s tr :
  ∃ evs,
    clear cb_throws s tr
    = (Normal tt, mk [] [] (sets s) (globalSubscribers s), tr ++ evs)
    ∧ calls evs = map_keys (data s) ≫=
                    (λ key, (λ cb, GlobalCall cb key VUndefined) <$> globalSubscribers s).
Proof.
  unfold clear, bind, modify, get_state. simpl.
  generalize (map_keys (data s)) as ks. intros ks. revert tr.
  induction ks as [|k ks IH]; intros tr.
  - exists []. by rewrite app_nil_r.
  - cbn [for_each]. unfold bind at 1.
    edestruct (for_each_guarded_spec (S:=t) cb_throws (globalSubscribers s)
      (λ cb, GlobalCall cb k VUndefined) (λ _, msg_global)) as (e1 & H1 & C1); [done|].
    rewrite H1. destruct (IH (tr ++ e1)) as (e2 & H2 & C2).
    rewrite H2. exists (e1 ++ e2). split; [by rewrite app_assoc|].
    by rewrite calls_app, C1, C2.
Qed.

Lemma subscribeAll_spec callback s tr :
  ∃ evs,
    subscribeAll cb_throws callback s tr
    = (Normal callback,
       mk (data s) (subscribers s) (sets s) (set_add (globalSubscribers s) callback),
       tr ++ evs)
    ∧ calls evs = (λ kv, GlobalCall callback kv.1 kv.2) <$> data s.
Proof.
  unfold subscribeAll, bind, modify, get_state, ret. simpl.
  edestruct (for_each_guarded_spec (S:=t) cb_throws (data s)
    (λ kv, GlobalCall callback kv.1 kv.2) (λ _, msg_initial_global))
    as (e1 & H1 & C1); [done|].
  rewrite H1. by exists e1.
Qed.

End Specs.

(** *** Well-formedness is an invariant of the store *)

Lemma wf_empty : wf empty.
Proof.
  split; simpl.
  - intros r l. by rewrite lookup_nil.
  - constructor.
  - done.
Qed.



Lemma map_get_delete_Some {V} (m : jsmap V) k k' r :
  map_get (map_delete m k) k' = Some r → map_get m k' = Some r.
Proof.
  destruct (decide (k = k')) as [->|Hne].
  - by rewrite map_get_delete_eq.
  - by rewrite map_get_delete_ne.
Qed.



Lemma subscribe_state_wf key callback s : wf s → wf (subscribe_state key callback s).
Proof.
  intros [H1 H2 H3]. unfold subscribe_state.
  destruct (map_get (subscribers s) key) as [r|] eqn:Hr; split; simpl; try done.
  - intros r' l. rewrite list_lookup_alter. case_decide as Hd.
    + subst r'. destruct (sets s !! r) as [l0|] eqn:Hl; simpl; [|done].
      intros [= <-]. apply set_add_NoDup. eauto.
    + eauto.
  - intros k r' Hk. rewrite length_alter. eauto.
  - intros r' l Hl. apply lookup_app_Some in Hl as [Hl|[_ Hl]]; [eauto|].
    apply list_lookup_singleton_Some in Hl as [_ <-]. apply NoDup_singleton.
  - intros k r' Hk. rewrite length_app. simpl.
    destruct (decide (key = k)) as [->|Hne].
    + rewrite map_get_set_eq in Hk. injection Hk as <-. lia.
    + rewrite map_get_set_ne in Hk by done. apply H3 in Hk. lia.
Qed.

Lemma subscribe_wf cb_throws key callback s tr h s' tr' :
  wf s → subscribe cb_throws key callback s tr = (h, s', tr') → wf s'.
Proof.
  intros Hwf H. destruct (subscribe_spec cb_throws key callback s tr) as (evs & E & _).
  rewrite E in H. injection H as _ <- _. by apply subscribe_state_wf.
Qed.

Lemma unsubscribe_state_wf h s : wf s → wf (unsubscribe_state h s).
Proof.
  intros [H1 H2 H3].
  assert (∀ r l, alter (λ l, set_delete l (h_cb h)) (h_set h) (sets s) !! r = Some l
                 → NoDup l) as Hs.
  { intros r l. rewrite list_lookup_alter. case_decide as Hd; [|eauto].
    subst r. destruct (sets s !! h_set h) as [l0|] eqn:Hl; simpl; [|done].
    intros [= <-]. apply set_delete_NoDup. eauto. }
  unfold unsubscribe_state. simpl. case_bool_decide; split; simpl; try done.
  - intros k r Hk%map_get_delete_Some. rewrite length_alter. eauto.
  - intros k r Hk. rewrite length_alter. eauto.
Qed.

Lemma unsubscribe_wf h s tr o s' tr' :
  wf s → unsubscribe h s tr = (o, s', tr') → wf s'.
Proof.
  intros Hwf. rewrite unsubscribe_spec. intros [= _ <- _].
  by apply unsubscribe_state_wf.
Qed.



(** *** What a per-key callback observes *)






Lemma key_subscribers_NoDup s key : wf s → NoDup (key_subscribers s key).
Proof.
  intros [H1 _ _]. unfold key_subscribers, set_contents.
  destruct (map_get (subscribers s) key) as [r|]; [|constructor].
  destruct (sets s !! r) as [l|] eqn:Hl; simpl; [eauto|constructor].
Qed.

Lemma key_call_in_calls cb v evs : KeyCall cb v ∈ evs → KeyCall cb v ∈ calls evs.
Proof. intros H. unfold calls. by apply list_elem_of_filter. Qed.

Lemma global_call_in_calls cb k v evs : GlobalCall cb k v ∈ calls evs → GlobalCall cb k v ∈ evs.
Proof. unfold calls. by intros [_ ?]%list_elem_of_filter. Qed.

(** *** The claims about the store *)


(** C3.  [delete(key)] returns normally, removes the entry of [key] and the
    subscriber set registered for [key], and the callbacks it invokes are
    exactly the global subscribers with [(key, undefined)], in subscription
    order: no per-key callback is invoked. *)
Theorem delete_notifies_globals_only cb_throws key s tr :
  ∃ s' evs,
    delete cb_throws key s tr = (Normal tt, s', tr ++ evs)
    ∧ map_get (data s') key = None
    ∧ (key ∉ map_keys (data s'))
    ∧ map_get (subscribers s') key = None
    ∧ key_subscribers s' key = []
    ∧ calls evs = (λ cb, GlobalCall cb key VUndefined) <$> globalSubscribers s
    ∧ (∀ cb v, KeyCall cb v ∉ evs).
Proof.
  destruct (delete_spec cb_throws key s tr) as (evs & E & C).
  eexists _, evs. split; [exact E|]. simpl. split_and!.
  - apply map_get_delete_eq.
  - rewrite map_keys_get, map_get_delete_eq. by intros [? ?].
  - apply map_get_delete_eq.
  - unfold key_subscribers. simpl. by rewrite map_get_delete_eq.
  - done.
  - intros cb v Hin%key_call_in_calls. rewrite C in Hin.
    apply list_elem_of_fmap in Hin as (c & Hc & _). done.
Qed.

Lemma set_contents_unsubscribe h s :
  set_contents (unsubscribe_state h s) (h_set h) = set_delete (set_contents s (h_set h)) (h_cb h).
Proof.
  unfold set_contents.
  assert (sets (unsubscribe_state h s)
          = alter (λ l, set_delete l (h_cb h)) (h_set h) (sets s)) as ->.
  { unfold unsubscribe_state. simpl. by case_bool_decide. }
  rewrite list_lookup_alter_eq. by destruct (sets s !! h_set h).
Qed.

Lemma subscribers_unsubscribe h s :
  subscribers (unsubscribe_state h s)
  = if bool_decide (set_contents (unsubscribe_state h s) (h_set h) = [])
    then map_delete (subscribers s) (h_key h) else subscribers s.
Proof.
  rewrite set_contents_unsubscribe.
  unfold unsubscribe_state, set_contents. simpl.
  rewrite list_lookup_alter_eq.
  destruct (sets s !! h_set h) as [l|]; simpl.
  - destruct (set_delete l (h_cb h)); simpl; by repeat case_bool_decide.
  - by repeat case_bool_decide.
Qed.

Lemma unsubscribe_state_idemp h s :
  unsubscribe_state h (unsubscribe_state h s) = unsubscribe_state h s.
Proof.
  assert (∀ l : list (list nat),
    alter (λ l, set_delete l (h_cb h)) (h_set h)
      (alter (λ l, set_delete l (h_cb h)) (h_set h) l)
    = alter (λ l, set_delete l (h_cb h)) (h_set h) l) as Halt.
  { intros l. rewrite list_alter_alter_eq. apply list_alter_ext; [|done].
    intros x _. apply set_delete_idemp. }
  unfold unsubscribe_state. simpl.
  destruct (bool_decide (length (default []
    (alter (λ l, set_delete l (h_cb h)) (h_set h) (sets s) !! h_set h)) = 0)) eqn:Hc;
    simpl; rewrite Halt, Hc; [|done].
  by rewrite map_delete_idemp.
Qed.

Lemma set_contents_subscribe key callback s :
  wf s →
  set_contents (subscribe_state key callback s) (subscribe_set key s)
  = set_add (key_subscribers s key) callback
  ∧ map_get (subscribers (subscribe_state key callback s)) key = Some (subscribe_set key s).
Proof.
  intros [H1 H2 H3].
  unfold subscribe_state, subscribe_set, key_subscribers, set_contents.
  destruct (map_get (subscribers s) key) as [r|] eqn:Hr; simpl.
  - split; [|done]. rewrite list_lookup_alter_eq.
    destruct (lookup_lt_is_Some_2 (sets s) r (H3 _ _ Hr)) as [l ->]. done.
  - rewrite map_get_set_eq. split; [|done].
    by rewrite lookup_app_r, Nat.sub_diag.
Qed.

(** What [subscribe] and its closure do, call by call.
    [subscribe(key, callback)] returns normally with a cancellation
    closure [h].  In a well-formed store the callback is then registered for
    [key], after the callbacks registered earlier.  The only callback
    invocation during the call is the replay: one call with the current
    value when [this.data.get(key)] is not [undefined], none otherwise.
    Calling [h], in any later store, returns normally and removes the
    callback from the [Set] it was registered in (so it is no longer a
    subscriber of [key] when that [Set] is still the one registered for
    [key]), leaving the other members alone; calling [h] once more in
    the store this gives changes nothing; and when the [Set] has become
    empty the entry of [key] in [subscribers] is removed, whichever [Set]
    that entry holds by then. *)
Theorem subscribe_replays_and_cancels cb_throws key callback s tr :
  ∃ h s' evs,
    subscribe cb_throws key callback s tr = (Normal h, s', tr ++ evs)
    ∧ h_key h = key ∧ h_cb h = callback
    ∧ data s' = data s
    ∧ (wf s →
       map_get (subscribers s') key = Some (h_set h)
       ∧ key_subscribers s' key = set_add (key_subscribers s key) callback
       ∧ callback ∈ key_subscribers s' key)
    ∧ calls evs = (if is_defined (lookup s key)
                   then [KeyCall callback (lookup s key)] else [])
    ∧ (∀ s0 tr0, ∃ s1,
         unsubscribe h s0 tr0 = (Normal tt, s1, tr0)
         ∧ (callback ∉ set_contents s1 (h_set h))
         ∧ (∀ cb, cb ≠ callback →
                  cb ∈ set_contents s1 (h_set h) ↔ cb ∈ set_contents s0 (h_set h))
         ∧ (map_get (subscribers s0) key = Some (h_set h) →
            callback ∉ key_subscribers s1 key)
         ∧ unsubscribe h s1 tr0 = (Normal tt, s1, tr0)
         ∧ (set_contents s1 (h_set h) = [] → map_get (subscribers s1) key = None)).
Proof.
  destruct (subscribe_spec cb_throws key callback s tr) as (evs & E & C).
  eexists _, _, evs. split; [exact E|]. simpl. split_and!; try done.
  - unfold subscribe_state. by destruct (map_get (subscribers s) key).
  - intros Hwf. destruct (set_contents_subscribe key callback s Hwf) as [Hc Hm].
    assert (key_subscribers (subscribe_state key callback s) key
            = set_add (key_subscribers s key) callback) as Hk.
    { unfold key_subscribers at 1. by rewrite Hm. }
    split_and!; [done..|]. rewrite Hk. apply set_add_elem.
  - intros s0 tr0. set (h := mk_handle key (subscribe_set key s) callback).
    exists (unsubscribe_state h s0). split_and!.
    + apply unsubscribe_spec.
    + rewrite (set_contents_unsubscribe h). apply set_delete_not_elem.
    + intros cb Hcb. rewrite (set_contents_unsubscribe h). simpl.
      unfold set_delete. rewrite list_elem_of_filter. by split; [intros [_ ?]|].
    + intros Hlive. unfold key_subscribers.
      rewrite (subscribers_unsubscribe h). simpl.
      case_bool_decide as Hempty.
      * rewrite map_get_delete_eq. apply not_elem_of_nil.
      * rewrite Hlive. rewrite (set_contents_unsubscribe h). apply set_delete_not_elem.
    + rewrite unsubscribe_spec. by rewrite unsubscribe_state_idemp.
    + intros Hempty. rewrite (subscribers_unsubscribe h). simpl.
      rewrite bool_decide_true by done. apply map_get_delete_eq.
Qed.

(** C10.  After [set(key, undefined)] the key is listed by [keys()] and
    every global subscriber has been called with [(key, undefined)]; yet
    [get(key)] returns [undefined] and [subscribe(key, cb)] performs no
    callback invocation at all, exactly as for a key with no entry. *)
Theorem undefined_value_looks_absent cb_throws key callback s tr :
  ∃ s1 evs,
    set cb_throws key VUndefined s tr = (Normal tt, s1, tr ++ evs)
    ∧ (∀ tr1, ∃ ks, keys s1 tr1 = (Normal ks, s1, tr1) ∧ key ∈ ks)
    ∧ (∀ g, g ∈ globalSubscribers s → GlobalCall g key VUndefined ∈ evs)
    ∧ (∀ tr1, get key s1 tr1 = (Normal VUndefined, s1, tr1))
    ∧ (∀ tr1, ∃ h s2, subscribe cb_throws key callback s1 tr1 = (Normal h, s2, tr1))
    ∧ (∀ s0 tr1,
         map_get (data s0) key = None →
         (∃ ks, keys s0 tr1 = (Normal ks, s0, tr1) ∧ (key ∉ ks))
         ∧ get key s0 tr1 = (Normal VUndefined, s0, tr1)
         ∧ ∃ h s2, subscribe cb_throws key callback s0 tr1 = (Normal h, s2, tr1)).
Proof.
  destruct (set_spec cb_throws key VUndefined s tr) as (evs & E & C).
  set (s1 := mk (map_set (data s) key VUndefined) (subscribers s) (sets s)
                (globalSubscribers s)) in *.
  assert (lookup s1 key = VUndefined) as Hl.
  { unfold lookup. simpl. by rewrite map_get_set_eq. }
  exists s1, evs. split_and!; try done.
  - intros tr1. eexists. split; [done|]. simpl.
    apply map_keys_get. rewrite map_get_set_eq. eauto.
  - intros g Hg. apply global_call_in_calls. rewrite C.
    apply elem_of_app. right. apply list_elem_of_fmap. eauto.
  - intros tr1. unfold get, bind, get_state, ret. by rewrite Hl.
  - intros tr1. eexists _, _. apply subscribe_no_replay. by rewrite Hl.
  - intros s0 tr1 Hnone.
    assert (lookup s0 key = VUndefined) as Hl0 by (unfold lookup; by rewrite Hnone).
    split_and!.
    + eexists. split; [done|]. rewrite map_keys_get, Hnone. by intros [? ?].
    + unfold get, bind, get_state, ret. by rewrite Hl0.
    + eexists _, _. apply subscribe_no_replay. by rewrite Hl0.
Qed.

(** [demo_store] is the store after these calls on a new store. *)
Lemma demo_store_reachable :
  (set never_throws "k" (VNum 0) ;;
   (let* _ := subscribe never_throws "k" 7 in
    let* _ := subscribe never_throws "k" 8 in
    let* _ := subscribeAll never_throws 9 in ret tt)) empty []
  = (Normal tt, demo_store,
     [KeyCall 7 (VNum 0); KeyCall 8 (VNum 0); GlobalCall 9 "k" (VNum 0)]).
Proof. reflexivity. Qed.

(** The closure returned by [subscribe] keeps the [Set] it was created
    with.  After [delete(key)] has dropped that [Set] and a later
    [subscribe] has registered a new one, calling the old closure finds its
    own [Set] empty and deletes the entry of [key], that is the new [Set]:
    callback [2] is no longer notified although its own closure was never
    called. *)
Lemma stale_closure_drops_new_set :
  ∃ s tr,
    (let* h1 := subscribe never_throws "k" 1 in
     delete never_throws "k" ;;
     let* h2 := subscribe never_throws "k" 2 in
     unsubscribe h1 ;;
     set never_throws "k" (VNum 5)) empty [] = (Normal tt, s, tr)
    ∧ key_subscribers s "k" = []
    ∧ tr = [].
Proof. eexists _, _. split; [reflexivity|]. done. Qed.

(** C2.  The closure returned by [subscribe] is not idempotent.  On a new
    store: [subscribe("k", 1)] gives the closure [h1]; [h1()] cancels
    callback [1] and, its [Set] being empty, removes the entry of ["k"];
    [subscribe("k", 2)] registers callback [2] in a new [Set].  A
    [set("k", 5)] now calls callback [2].  But when [h1()] is called a
    second time first, it finds its own [Set] empty and deletes the entry
    of ["k"], which is the [Set] of callback [2]: the store changes,
    callback [2] is no longer a subscriber although its own closure was
    never called, and [set("k", 5)] calls nothing. *)
Theorem repeated_cancel_drops_later_subscriber :
  ∃ h1 h2 s1 s2 s3 s4,
    subscribe never_throws "k" 1 empty [] = (Normal h1, s1, [])
    ∧ unsubscribe h1 s1 [] = (Normal tt, s2, [])
    ∧ subscribe never_throws "k" 2 s2 [] = (Normal h2, s3, [])
    ∧ h1 ≠ h2
    ∧ key_subscribers s3 "k" = [2]
    ∧ (set never_throws "k" (VNum 5) s3 []).2 = [KeyCall 2 (VNum 5)]
    ∧ unsubscribe h1 s3 [] = (Normal tt, s4, [])
    ∧ s4 ≠ s3
    ∧ map_get (subscribers s4) "k" = None
    ∧ key_subscribers s4 "k" = []
    ∧ set_contents s4 (h_set h2) = [2]
    ∧ (set never_throws "k" (VNum 5) s4 []).2 = [].
Proof.
  exists (mk_handle "k" 0 1), (mk_handle "k" 1 2),
    (mk [] [("k", 0)] [[1]] []), (mk [] [] [[]] []),
    (mk [] [("k", 1)] [[]; [2]] []), (mk [] [] [[]; [2]] []).
  split_and!; try (vm_compute; reflexivity); by intros [=].
Qed.

Lemma demo_store_wf : wf demo_store.
Proof.
  split; simpl.
  - intros [|r] l; simpl; [|by rewrite lookup_nil].
    intros [= <-]. apply NoDup_cons. split; [|apply NoDup_singleton].
    by intros [=]%list_elem_of_singleton.
  - apply NoDup_singleton.
  - intros k r. case_decide; [|done]. intros [= <-]. lia.
Qed.


Lemma subscribe_replays_and_cancels_witness :
  wf empty
  ∧ ∃ h s' s1,
      subscribe always_throws "k" 1 empty [] = (Normal h, s', [])
      ∧ 1 ∈ key_subscribers s' "k"
      ∧ unsubscribe h s' [] = (Normal tt, s1, [])
      ∧ (1 ∉ key_subscribers s1 "k")
      ∧ map_get (subscribers s1) "k" = None.
Proof.
  split; [exact wf_empty|].
  destruct (subscribe_replays_and_cancels always_throws "k" 1 empty [])
    as (h & s' & evs & E & Hk & Hc & Hd & Hreg & Hcalls & Hun).
  destruct (Hreg wf_empty) as (Hm & Hks & Hin).
  destruct (Hun s' []) as (s1 & U & Hnot & Hothers & Hlive & Hidem & Hempty).
  assert (evs = [] ∧ h = mk_handle "k" 0 1 ∧ s' = mk [] [("k", 0)] [[1]] []) as (-> & -> & ->).
  { vm_compute in E. by injection E as <- <- <-. }
  assert (s1 = mk [] [] [[]] []) as ->.
  { vm_compute in U. by injection U as <-. }
  exists (mk_handle "k" 0 1), (mk [] [("k", 0)] [[1]] []), (mk [] [] [[]] []).
  split_and!; [exact E | exact Hin | exact U | exact (Hlive Hm) | exact (Hempty eq_refl)].
Defined.

Lemma undefined_value_looks_absent_witness :
  map_get (data empty) "k" = None
  ∧ get "k" empty [] = (Normal VUndefined, empty, [])
  ∧ ∃ h s2, subscribe always_throws "k" 1 empty [] = (Normal h, s2, []).
Proof.
  split; [reflexivity|].
  destruct (undefined_value_looks_absent always_throws "k" 1 empty [])
    as (s1 & evs & _ & _ & _ & _ & _ & Habsent).
  destruct (Habsent empty [] eq_refl) as (_ & Hget & Hsub).
  split; [exact Hget | exact Hsub].
Defined.

End DataStateFacts.

(** ** The routing layer *)

Module DataAdapterLayerFacts.
Import DataAdapterLayer.

Lemma with_dataState_id w : with_dataState w (dataState w) = w.
Proof. by destruct w. Qed.

Lemma with_dataState_twice w ds ds' :
  with_dataState (with_dataState w ds) ds' = with_dataState w ds'.
Proof. done. Qed.

Section Specs.
Variable cb_throws : list event → option value.

Lemma write_all_spec (entries : list (string * value)) (ds : DataState.t) tr :
  ∃ evs,
    for_each entries (λ kv, DataState.set cb_throws kv.1 kv.2) ds tr
    = (Normal tt, foldl DataState.write ds entries, tr ++ evs)
    ∧ calls evs = entries ≫= DataState.notifications ds.
Proof.
  revert ds tr. induction entries as [|[k v] entries IH]; intros ds tr.
  - exists []. by rewrite app_nil_r.
  - destruct (DataStateFacts.set_spec cb_throws k v ds tr) as (e1 & E1 & C1).
    destruct (IH (DataState.write ds (k, v)) (tr ++ e1)) as (e2 & E2 & C2).
    exists (e1 ++ e2). cbn [for_each]. unfold bind at 1. simpl. rewrite E1.
    split; [rewrite app_assoc; exact E2|].
    by rewrite calls_app, C1, C2.
Qed.

Lemma lift_for_each {A} (l : list A) (f : A → M DataState.t unit) w tr :
  for_each l (λ x, lift_store (f x)) w tr = lift_store (for_each l f) w tr.
Proof.
  revert w tr. induction l as [|x l IH]; intros w tr.
  - unfold lift_store. simpl. unfold ret. by rewrite with_dataState_id.
  - cbn [for_each]. unfold bind, lift_store at 1 3.
    destruct (f x (dataState w) tr) as [[[[]|e] ds] tr1]; [|done].
    rewrite IH. unfold lift_store. simpl.
    by destruct (for_each l f ds tr1) as [[o ds'] tr2].
Qed.

Lemma checkout_spec item w tr :
  checkout item w tr = (checkout_result w item, w, tr).
Proof.
  unfold checkout, checkout_result, bind, get_state, call_checkout, ret.
  destruct (map_get (checkoutFunctions w) _) as [fn|]; [|done].
  by destruct (fn (DataItem.data item)).
Qed.

(** The store effect of handling an emission is that of independent
    [set] calls: one per side-channel entry, then the main entry. *)
Lemma handleAdapterData_normal item w tr p k :
  checkout_result w item = Normal (p, k) →
  ∃ ds evs1 evs2,
    handleAdapterData cb_throws item w tr
    = (Normal tt, with_dataState w ds, tr ++ evs1 ++ evs2)
    ∧ (for_each (state_updates p) (λ kv, DataState.set cb_throws kv.1 kv.2) ;;
       DataState.set cb_throws k (DataItem.to_value p)) (dataState w) tr
      = (Normal tt, ds, tr ++ evs1)
    ∧ ds = foldl DataState.write (dataState w) (state_updates p ++ [(k, DataItem.to_value p)])
    ∧ calls evs1 = (state_updates p ++ [(k, DataItem.to_value p)])
                     ≫= DataState.notifications (dataState w)
    ∧ calls evs2 = (λ cb, DataCall cb (DataItem.to_value p)) <$> dataCallbacks w.
Proof.
  intros Hc.
  destruct (write_all_spec (state_updates p ++ [(k, DataItem.to_value p)]) (dataState w) tr)
    as (evs1 & E1 & C1).
  set (ds := foldl DataState.write (dataState w) (state_updates p ++ [(k, DataItem.to_value p)])) in *.
  assert ((for_each (state_updates p) (λ kv, DataState.set cb_throws kv.1 kv.2) ;;
           DataState.set cb_throws k (DataItem.to_value p)) (dataState w) tr
          = (Normal tt, ds, tr ++ evs1)) as E1'.
  { rewrite <- E1. symmetry.
    apply (for_each_snoc (state_updates p) (k, DataItem.to_value p)
             (λ kv, DataState.set cb_throws kv.1 kv.2)). }
  edestruct (for_each_guarded_spec (S:=t) cb_throws (dataCallbacks w)
    (λ cb, DataCall cb (DataItem.to_value p)) (λ _, msg_data_callback)
    (with_dataState w ds) (tr ++ evs1)) as (evs2 & E2 & C2); [done|].
  exists ds, evs1, evs2. split_and!; try done.
  unfold handleAdapterData, try_catch, handle_body.
  unfold bind at 1. rewrite checkout_spec, Hc. simpl.
  unfold bind at 1. rewrite lift_for_each.
  unfold bind at 1 in E1'. unfold lift_store at 1.
  destruct (for_each (state_updates p) _ (dataState w) tr) as [[[[]|?] d1] tr1]; [|done].
  unfold bind at 1. unfold lift_store at 1. simpl. rewrite E1'.
  unfold bind, get_state.
  change (dataCallbacks (with_dataState (with_dataState w d1) ds)) with (dataCallbacks w).
  change (with_dataState (with_dataState w d1) ds) with (with_dataState w ds).
  rewrite E2. by rewrite app_assoc.
Qed.

Lemma handleAdapterData_thrown item w tr e :
  checkout_result w item = Thrown e →
  handleAdapterData cb_throws item w tr
  = (Normal tt, w, tr ++ [ConsoleError msg_handling e]).
Proof.
  intros Hc. unfold handleAdapterData, try_catch, handle_body.
  unfold bind at 1. by rewrite checkout_spec, Hc.
Qed.


Lemma lookup_after_writes ds entries k v :
  DataState.lookup (foldl DataState.write ds (entries ++ [(k, v)])) k = v.
Proof.
  rewrite foldl_app. simpl. unfold DataState.lookup, DataState.write. simpl.
  by rewrite map_get_set_eq.
Qed.

(** The loop of [emitData], over any list of callbacks. *)
Lemma emit_loop (l : list data_callback) (msg : string) item w tr :
  ∃ ds evs,
    for_each l
      (λ cb, try_catch
               match cb with
               | Route _ => handleAdapterData cb_throws item
               | External n => call cb_throws (DataCall n (DataItem.to_value item))
               end
               (λ err, emit (ConsoleError msg err))) w tr
    = (Normal tt, with_dataState w ds, tr ++ evs)
    ∧ (∀ p k, checkout_result w item = Normal (p, k) →
              (∃ c, Route c ∈ l) ∨ DataState.lookup (dataState w) k = DataItem.to_value p →
              DataState.lookup ds k = DataItem.to_value p).
Proof.
  revert w tr. induction l as [|cb l IH]; intros w tr.
  - exists (dataState w), []. rewrite with_dataState_id, app_nil_r. split; [done|].
    intros p k _ [[c Hc%elem_of_nil]|H]; done.
  - cbn [for_each]. unfold bind. unfold try_catch at 1. destruct cb as [c|n].
    + destruct (checkout_result w item) as [[p k]|e] eqn:Hc.
      * destruct (handleAdapterData_normal item w tr p k Hc)
          as (ds1 & e1 & e2 & E & _ & Hds & _).
        rewrite E.
        destruct (IH (with_dataState w ds1) (tr ++ e1 ++ e2)) as (ds2 & e3 & E3 & H3).
        rewrite E3. exists ds2, ((e1 ++ e2) ++ e3).
        split; [by rewrite with_dataState_twice, !app_assoc|].
        intros p' k' [= <- <-] _. apply (H3 p k); [exact Hc|]. right.
        simpl. rewrite Hds. apply lookup_after_writes.
      * rewrite (handleAdapterData_thrown item w tr e Hc).
        destruct (IH w (tr ++ [ConsoleError msg_handling e])) as (ds2 & e3 & E3 & H3).
        rewrite E3. exists ds2, ([ConsoleError msg_handling e] ++ e3).
        split; [by rewrite !app_assoc|]. by intros p' k' [=].
    + unfold call at 1.
      destruct (cb_throws (tr ++ [DataCall n (DataItem.to_value item)])) as [err|].
      * unfold emit at 1. destruct (IH w ((tr ++ [DataCall n (DataItem.to_value item)]) ++ [ConsoleError msg err]))
          as (ds2 & e3 & E3 & H3).
        rewrite E3. eexists ds2, ([_; _] ++ e3).
        split; [by rewrite <- !app_assoc|].
        intros p k Hc [[c Hin]|H]; apply H3; try done; [|by right].
        apply elem_of_cons in Hin as [?|Hin]; [done|]. left. eauto.
      * destruct (IH w (tr ++ [DataCall n (DataItem.to_value item)])) as (ds2 & e3 & E3 & H3).
        rewrite E3. eexists ds2, ([_] ++ e3).
        split; [by rewrite <- !app_assoc|].
        intros p k Hc [[c Hin]|H]; apply H3; try done; [|by right].
        apply elem_of_cons in Hin as [?|Hin]; [done|]. left. eauto.
Qed.

Lemma emitData_spec a item w tr :
  ∃ ds evs,
    emitData cb_throws a item w tr = (Normal tt, with_dataState w ds, tr ++ evs)
    ∧ (∀ p k, checkout_result w item = Normal (p, k) →
              (∃ c, Route c ∈ adapter_callbacks w a) →
              DataState.lookup ds k = DataItem.to_value p).
Proof.
  unfold emitData, bind, get_state.
  destruct (emit_loop (adapter_callbacks w a) (msg_adapter_callback (adapter_name w a))
              item w tr) as (ds & evs & E & H).
  exists ds, evs. split; [done|]. intros p k Hc Hr. apply (H p k Hc). by left.
Qed.

End Specs.

(** *** The claims about envelope handling *)

(** C4, as the code has it.  A transform registered under the envelope's
    source replaces the payload and gives the store key.  Without one the
    payload is kept and the key is ["<source>_<id>"], where a missing or
    empty source reads ["unknown"] (and the transform is looked up under
    the empty string).  Then the store is written by independent [set]
    calls, each with its own notifications: one per entry of the payload's
    [stateUpdates], in order, and last the main entry under the computed
    key; then the data callbacks are called with the processed envelope. *)
Theorem handleAdapterData_key_and_fanout cb_throws item w tr :
  (∀ fn r,
     map_get (checkoutFunctions w) (DataItem.source_or item EmptyString) = Some fn →
     fn (DataItem.data item) = Normal r →
     checkout_result w item
     = Normal (DataItem.with_data item (result_data r), result_key r))
  ∧ (map_get (checkoutFunctions w) (DataItem.source_or item EmptyString) = None →
     checkout_result w item = Normal (item, generateStateKey item))
  ∧ (∀ src, DataItem.source item = Some src → src ≠ EmptyString →
            DataItem.source_or item EmptyString = src
            ∧ generateStateKey item = spec_default_key src (DataItem.id item))
  ∧ (DataItem.source item = None ∨ DataItem.source item = Some EmptyString →
     DataItem.source_or item EmptyString = EmptyString
     ∧ generateStateKey item = spec_default_key "unknown" (DataItem.id item))
  ∧ (∀ p k,
       checkout_result w item = Normal (p, k) →
       ∃ ds evs1 evs2,
         handleAdapterData cb_throws item w tr
         = (Normal tt, with_dataState w ds, tr ++ evs1 ++ evs2)
         ∧ (for_each (state_updates p) (λ kv, DataState.set cb_throws kv.1 kv.2) ;;
            DataState.set cb_throws k (DataItem.to_value p)) (dataState w) tr
           = (Normal tt, ds, tr ++ evs1)
         ∧ calls evs1 = (state_updates p ++ [(k, DataItem.to_value p)])
                          ≫= DataState.notifications (dataState w)
         ∧ calls evs2 = (λ cb, DataCall cb (DataItem.to_value p)) <$> dataCallbacks w
         ∧ DataState.lookup ds k = DataItem.to_value p
         ∧ (∀ fields m,
              DataItem.data p = VObj fields →
              map_get fields "stateUpdates" = Some (VObj m) →
              state_updates p = m)).
Proof.
  split_and!.
  - intros fn r Hfn Hr. unfold checkout_result. by rewrite Hfn, Hr.
  - intros Hnone. unfold checkout_result. by rewrite Hnone.
  - intros src Hsrc Hne. unfold generateStateKey, DataItem.source_or. rewrite Hsrc.
    destruct (String.eqb_spec src EmptyString); done.
  - intros [Hsrc|Hsrc]; unfold generateStateKey, DataItem.source_or; by rewrite Hsrc.
  - intros p k Hc.
    destruct (handleAdapterData_normal cb_throws item w tr p k Hc)
      as (ds & e1 & e2 & E & Hseq & Hds & C1 & C2).
    exists ds, e1, e2. split_and!; try done.
    + rewrite Hds. apply lookup_after_writes.
    + intros fields m Hd Hm. unfold state_updates. rewrite Hd. simpl. by rewrite Hm.
Qed.

(** The layers used below are what the methods produce from a new layer. *)
Lemma sensor_layer_reachable :
  setCheckoutFunction "sensor" sensor_checkout (create false []) []
  = (Normal tt, sensor_layer, []).
Proof. reflexivity. Qed.

Lemma failing_layer_reachable :
  setCheckoutFunction "sensor" failing_checkout (create false []) []
  = (Normal tt, failing_layer, []).
Proof. reflexivity. Qed.

Lemma two_adapter_layer_reachable :
  (addAdapter 0 ;; addAdapter 1) (create true [mk_adapter "a" []; mk_adapter "b" []]) []
  = (Normal tt, two_adapter_layer,
     [ConsoleLog "Added adapter: a"; ConsoleLog "Added adapter: b"]).
Proof. reflexivity. Qed.

Lemma handleAdapterData_key_and_fanout_witness :
  checkout_result sensor_layer (sensor_item "e1")
  = Normal (DataItem.with_data (sensor_item "e1")
              (VObj [("temp", VNum 30); ("processed", VBool true);
                     ("stateUpdates", VObj [("last", VStr "S1")])]),
            "sensor-S1")
  ∧ ∃ ds evs,
      handleAdapterData never_throws (sensor_item "e1") sensor_layer []
      = (Normal tt, with_dataState sensor_layer ds, evs)
      ∧ DataState.lookup ds "last" = VStr "S1"
      ∧ get_prop (get_prop (DataState.lookup ds "sensor-S1") "data") "temp" = VNum 30.
Proof.
  split; [reflexivity|].
  destruct (handleAdapterData_key_and_fanout never_throws (sensor_item "e1") sensor_layer [])
    as (_ & _ & _ & _ & H).
  destruct (H _ _ eq_refl) as (ds & evs1 & evs2 & E & _ & _ & _ & Hl & _).
  exists ds, (evs1 ++ evs2). split; [exact E|].
  assert (ds = DataState.mk
                 [("last", VStr "S1");
                  ("sensor-S1", DataItem.to_value (DataItem.with_data (sensor_item "e1")
                     (VObj [("temp", VNum 30); ("processed", VBool true);
                            ("stateUpdates", VObj [("last", VStr "S1")])])))]
                 [] [] []) as ->.
  { vm_compute in E. by injection E as <- _. }
  split; reflexivity.
Defined.

(** C4 as stated fails: without a transform, the key of an envelope whose
    source is the empty string is ["unknown_7"], not ["_7"] as
    ["<source>_<envelopeId>"] reads, and nothing is stored under ["_7"]. *)
Lemma default_key_counterexample :
  DataItem.source nameless_item = Some EmptyString
  ∧ map_get (checkoutFunctions (create false []))
      (DataItem.source_or nameless_item EmptyString) = None
  ∧ generateStateKey nameless_item ≠ spec_default_key EmptyString (DataItem.id nameless_item)
  ∧ ∃ w' tr',
      handleAdapterData never_throws nameless_item (create false []) [] = (Normal tt, w', tr')
      ∧ map_get (DataState.data (dataState w'))
          (spec_default_key EmptyString (DataItem.id nameless_item)) = None
      ∧ map_get (DataState.data (dataState w')) "unknown_7"
        = Some (DataItem.to_value nameless_item).
Proof.
  split; [done|]. split; [done|]. split; [by vm_compute|].
  eexists _, _. split; [vm_compute; reflexivity|]. by vm_compute.
Qed.



(** *** Registering adapters *)

Lemma adapter_name_onData w a cb b : adapter_name (onData a cb w) b = adapter_name w b.
Proof.
  unfold adapter_name, onData. simpl. rewrite list_lookup_alter.
  case_decide; [subst|done]. by destruct (objects w !! b).
Qed.

Lemma adapter_callbacks_onData_mono w a cb b x :
  x ∈ adapter_callbacks w b → x ∈ adapter_callbacks (onData a cb w) b.
Proof.
  unfold adapter_callbacks, onData. simpl. rewrite list_lookup_alter.
  case_decide; [subst|done]. destruct (objects w !! b) as [o|]; simpl; [|done].
  case_decide; [done|]. intros ?. apply elem_of_app. by left.
Qed.

Lemma adapter_callbacks_onData_new w a cb :
  a < length (objects w) → cb ∈ adapter_callbacks (onData a cb w) a.
Proof.
  intros [o Ho]%lookup_lt_is_Some_2.
  unfold adapter_callbacks, onData. simpl. rewrite list_lookup_alter_eq, Ho. simpl.
  case_decide; [done|]. apply elem_of_app. right. by left.
Qed.

Lemma map_has_true {V} (m : jsmap V) k : map_has m k = true ↔ is_Some (map_get m k).
Proof.
  unfold map_has. destruct (map_get m k) as [v|]; split; intros H; done.
Qed.

Lemma addAdapter_fresh a w tr :
  map_has (adapters w) (adapter_name w a) = false →
  addAdapter a w tr
  = (Normal tt,
     onData a (Route (closures w))
       (mk (map_set (adapters w) (adapter_name w a) a) (dataState w) (enableLogging w)
           (checkoutFunctions w) (dataCallbacks w) (objects w) (S (closures w))),
     tr ++ if enableLogging w then [ConsoleLog (msg_added (adapter_name w a))] else []).
Proof.
  intros Hfree. unfold addAdapter, bind, get_state. rewrite Hfree.
  unfold modify, when. simpl.
  destruct (enableLogging w); simpl.
  - unfold emit. by rewrite adapter_name_onData.
  - unfold ret. by rewrite app_nil_r.
Qed.

Lemma addAdapter_duplicate a w tr :
  map_has (adapters w) (adapter_name w a) = true →
  addAdapter a w tr = (Thrown (mk_error (msg_exists (adapter_name w a))), w, tr).
Proof. intros Hdup. unfold addAdapter, bind, get_state. by rewrite Hdup. Qed.

Lemma wf_create logging objs : wf (create logging objs).
Proof. intros nm a. done. Qed.

Lemma addAdapter_wf a w tr o w' tr' :
  wf w → a < length (objects w) → addAdapter a w tr = (o, w', tr') → wf w'.
Proof.
  intros Hwf Ha. destruct (map_has (adapters w) (adapter_name w a)) eqn:Hhas.
  - rewrite addAdapter_duplicate by done. by intros [= _ <- _].
  - rewrite addAdapter_fresh by done. intros [= _ <- _].
    intros nm b. simpl. destruct (decide (adapter_name w a = nm)) as [<-|Hne].
    + rewrite map_get_set_eq. intros [= <-]. exists (closures w).
      by apply (adapter_callbacks_onData_new
                  (mk _ (dataState w) (enableLogging w) (checkoutFunctions w)
                      (dataCallbacks w) (objects w) (S (closures w)))).
    + rewrite map_get_set_ne by done. intros [c Hc]%Hwf. exists c.
      by apply (adapter_callbacks_onData_mono
                  (mk _ (dataState w) (enableLogging w) (checkoutFunctions w)
                      (dataCallbacks w) (objects w) (S (closures w)))).
Qed.

(** C6.  [addAdapter] with an adapter whose name is already registered
    throws, and leaves the layer and the trace exactly as they were.  The
    adapter first registered under that name is therefore still registered,
    still carries its routing closure, and its emissions are still routed:
    an envelope it emits ends up stored under its key. *)
Theorem addAdapter_rejects_duplicate cb_throws a w tr :
  map_has (adapters w) (adapter_name w a) = true →
  ∃ e w' tr',
    addAdapter a w tr = (Thrown e, w', tr')
    ∧ e = mk_error (msg_exists (adapter_name w a))
    ∧ w' = w ∧ tr' = tr
    ∧ ∃ a0,
        map_get (adapters w') (adapter_name w a) = Some a0
        ∧ (∀ tr1, getAdapter (adapter_name w a) w' tr1 = (Normal (Some a0), w', tr1))
        ∧ (wf w → ∃ c, Route c ∈ adapter_callbacks w' a0)
        ∧ (wf w → ∀ item p k,
             checkout_result w' item = Normal (p, k) →
             ∃ ds evs,
               emitData cb_throws a0 item w' tr'
               = (Normal tt, with_dataState w' ds, tr' ++ evs)
               ∧ DataState.lookup ds k = DataItem.to_value p).
Proof.
  intros Hdup. destruct (proj1 (map_has_true _ _) Hdup) as [a0 Ha0].
  eexists _, w, tr. split; [by apply addAdapter_duplicate|].
  split_and!; try done. exists a0. split_and!; try done.
  - intros tr1. unfold getAdapter, bind, get_state, ret. by rewrite Ha0.
  - intros Hwf. eauto.
  - intros Hwf item p k Hc.
    destruct (emitData_spec cb_throws a0 item w tr) as (ds & evs & E & H).
    exists ds, evs. split; [done|]. apply (H p k Hc). eauto.
Qed.

Lemma addAdapter_rejects_duplicate_witness :
  ∃ w1 tr1,
    addAdapter 0 (create false twin_adapters) [] = (Normal tt, w1, tr1)
    ∧ map_has (adapters w1) (adapter_name w1 1) = true
    ∧ (∃ e, addAdapter 1 w1 tr1 = (Thrown e, w1, tr1))
    ∧ map_get (adapters w1) "sensor" = Some 0
    ∧ ∃ ds evs,
        emitData never_throws 0 (sensor_item "e1") w1 tr1
        = (Normal tt, with_dataState w1 ds, evs)
        ∧ DataState.lookup ds "sensor_e1" = DataItem.to_value (sensor_item "e1").
Proof.
  destruct (addAdapter 0 (create false twin_adapters) []) as [[o w1] tr1] eqn:E1.
  assert (wf w1) as Hwf.
  { apply (addAdapter_wf 0 (create false twin_adapters) [] o w1 tr1);
      [apply wf_create | simpl; lia | exact E1]. }
  vm_compute in E1. injection E1 as <- <- <-.
  eexists _, _. split; [reflexivity|]. split; [reflexivity|].
  match goal with |- context [addAdapter 1 ?w _] =>
    destruct (addAdapter_rejects_duplicate never_throws 1 w [] eq_refl)
      as (e & w' & tr' & E & _ & -> & -> & a0 & Ha0 & _ & _ & Hroute)
  end.
  split; [by exists e|].
  injection Ha0 as <-. split; [reflexivity|].
  destruct (Hroute Hwf (sensor_item "e1") (sensor_item "e1") "sensor_e1" eq_refl)
    as (ds & evs & E2 & Hl).
  exists ds, ([] ++ evs). split; [exact E2 | exact Hl].
Defined.

(** *** Connecting and disconnecting all adapters *)

Lemma emit_all {S A} (l : list A) (f : A → event) (s : S) tr :
  for_each l (λ a, emit (f a)) s tr = (Normal tt, s, tr ++ (f <$> l)).
Proof.
  revert tr. induction l as [|a l IH]; intros tr; simpl.
  - unfold ret. by rewrite app_nil_r.
  - unfold bind, emit at 1. rewrite IH. by rewrite <- app_assoc.
Qed.

Lemma connect_resume_spec a r w tr :
  connect_resume a r w tr = (outcome_of r, w, tr ++ connect_log w (a, r)).
Proof.
  unfold connect_resume, try_catch, bind, await, get_state, connect_log, when.
  destruct r as [|e]; simpl.
  - destruct (enableLogging w); [done|]. unfold ret. by rewrite app_nil_r.
  - done.
Qed.

Lemma disconnect_resume_spec a r w tr :
  disconnect_resume a r w tr = (Normal tt, w, tr ++ disconnect_log w (a, r)).
Proof.
  unfold disconnect_resume, try_catch, bind, await, get_state, disconnect_log, when.
  destruct r as [|e]; simpl.
  - destruct (enableLogging w); [done|]. unfold ret. by rewrite app_nil_r.
  - done.
Qed.

Lemma connect_settle_all schedule w tr :
  map_m schedule (λ ar, attempt (connect_resume ar.1 ar.2)) w tr
  = (Normal ((λ ar, outcome_of ar.2) <$> schedule), w, tr ++ (schedule ≫= connect_log w)).
Proof.
  revert tr. induction schedule as [|[a r] sch IH]; intros tr; simpl.
  - unfold ret. by rewrite app_nil_r.
  - unfold bind, attempt at 1. rewrite connect_resume_spec, IH.
    unfold ret. by rewrite <- app_assoc.
Qed.

Lemma disconnect_settle_all schedule w tr :
  map_m schedule (λ ar, attempt (disconnect_resume ar.1 ar.2)) w tr
  = (Normal ((λ _, Normal tt) <$> schedule), w, tr ++ (schedule ≫= disconnect_log w)).
Proof.
  revert tr. induction schedule as [|[a r] sch IH]; intros tr; simpl.
  - unfold ret. by rewrite app_nil_r.
  - unfold bind, attempt at 1. rewrite disconnect_resume_spec, IH.
    unfold ret. by rewrite <- app_assoc.
Qed.

Lemma connectAll_spec schedule w tr :
  connectAll schedule w tr
  = (Normal (promise_all (length (map_values (adapters w)))
               ((λ ar, outcome_of ar.2) <$> schedule)),
     w,
     tr ++ (AdapterConnect <$> map_values (adapters w)) ++ (schedule ≫= connect_log w)).
Proof.
  unfold connectAll, bind, get_state. rewrite emit_all, connect_settle_all.
  unfold ret. by rewrite <- app_assoc.
Qed.

Lemma disconnectAll_spec schedule w tr :
  disconnectAll schedule w tr
  = (Normal (promise_allSettled (length (map_values (adapters w)))
               ((λ _, Normal tt) <$> schedule)),
     w,
     tr ++ (AdapterDisconnect <$> map_values (adapters w))
        ++ (schedule ≫= disconnect_log w)).
Proof.
  unfold disconnectAll, bind, get_state. rewrite emit_all, disconnect_settle_all.
  unfold ret. by rewrite <- app_assoc.
Qed.

Lemma first_rejection_prefix (pre post : list (nat * settlement)) a e :
  Forall (λ ar, ar.2 = Resolves) pre →
  first_rejection ((λ ar, outcome_of ar.2) <$> (pre ++ (a, Rejects e) :: post)) = Some e.
Proof.
  induction 1 as [|[b r] pre Hr _ IH]; simpl; [done|].
  simpl in Hr. by rewrite Hr.
Qed.

Lemma first_rejection_exists (schedule : list (nat * settlement)) a e :
  (a, Rejects e) ∈ schedule →
  ∃ e', first_rejection ((λ ar, outcome_of ar.2) <$> schedule) = Some e'.
Proof.
  induction schedule as [|[b r] sch IH]; [by intros ?%elem_of_nil|].
  rewrite elem_of_cons. simpl. destruct r as [|e0]; simpl; [|eauto].
  intros [?|?]; [done|]. by apply IH.
Qed.

Lemma first_rejection_none (schedule : list (nat * settlement)) :
  Forall (λ ar, ar.2 = Resolves) schedule →
  first_rejection ((λ ar, outcome_of ar.2) <$> schedule) = None.
Proof.
  induction 1 as [|[b r] sch Hr _ IH]; simpl; [done|].
  simpl in Hr. by rewrite Hr.
Qed.

Lemma no_disconnect_in_connect_log w schedule a :
  AdapterDisconnect a ∉ schedule ≫= connect_log w.
Proof.
  intros (ar & Hin & _)%list_elem_of_bind. unfold connect_log in Hin.
  destruct (ar.2); [destruct (enableLogging w)|].
  - by apply list_elem_of_singleton in Hin.
  - by apply elem_of_nil in Hin.
  - by apply list_elem_of_singleton in Hin.
Qed.

(** C9.  [connectAll()] calls [connect()] on every registered adapter
    before any of the promises settles.  Whatever part of the promises has
    settled ([schedule]), the promise of [connectAll()] is rejected as soon
    as one of them has rejected, with the first rejection, also while
    others are pending; [connectAll()] calls no [disconnect()] and leaves
    the layer as it is.  [disconnectAll()] calls [disconnect()] on every
    registered adapter; its promise is never rejected, is fulfilled once
    every promise has settled, and every failure is logged for its
    adapter. *)
Theorem connectAll_fails_fast_disconnectAll_never_fails schedule w tr :
  (∃ st evs,
     connectAll schedule w tr
     = (Normal st, w, tr ++ (AdapterConnect <$> map_values (adapters w)) ++ evs)
     ∧ (∀ a, AdapterConnect a ∉ evs)
     ∧ (∀ a, AdapterDisconnect a ∉ (AdapterConnect <$> map_values (adapters w)) ++ evs)
     ∧ (∀ a e, (a, Rejects e) ∈ schedule → ∃ e', st = Rejected e')
     ∧ (∀ pre a e post,
          schedule = pre ++ (a, Rejects e) :: post →
          Forall (λ ar, ar.2 = Resolves) pre →
          st = Rejected e
          ∧ ConsoleError (msg_connect_failed (adapter_name w a)) e ∈ evs)
     ∧ (Forall (λ ar, ar.2 = Resolves) schedule →
        st = if decide (length (map_values (adapters w)) ≤ length schedule)%nat
             then Fulfilled else Pending))
  ∧ (∃ st evs,
       disconnectAll schedule w tr
       = (Normal st, w, tr ++ (AdapterDisconnect <$> map_values (adapters w)) ++ evs)
       ∧ (∀ a, AdapterDisconnect a ∉ evs)
       ∧ (∀ e, st ≠ Rejected e)
       ∧ ((length (map_values (adapters w)) ≤ length schedule)%nat → st = Fulfilled)
       ∧ (∀ a e, (a, Rejects e) ∈ schedule →
                 ConsoleError (msg_disconnect_failed (adapter_name w a)) e ∈ evs)).
Proof.
  split.
  - eexists _, _. split; [apply connectAll_spec|]. split_and!.
    + intros a (ar & Hin & _)%list_elem_of_bind. unfold connect_log in Hin.
      destruct (ar.2); [destruct (enableLogging w)|].
      * by apply list_elem_of_singleton in Hin.
      * by apply elem_of_nil in Hin.
      * by apply list_elem_of_singleton in Hin.
    + intros a [Hin|Hin]%elem_of_app.
      * by apply list_elem_of_fmap in Hin as (? & ? & ?).
      * by apply no_disconnect_in_connect_log in Hin.
    + intros a e Hin. unfold promise_all.
      destruct (first_rejection_exists schedule a e Hin) as [e' ->]. eauto.
    + intros pre a e post -> Hpre. split.
      * unfold promise_all. by rewrite first_rejection_prefix.
      * apply list_elem_of_bind. exists (a, Rejects e). split.
        -- unfold connect_log. simpl. by left.
        -- apply elem_of_app. right. by left.
    + intros Hall. unfold promise_all. rewrite first_rejection_none by done.
      by rewrite length_fmap.
  - eexists _, _. split; [apply disconnectAll_spec|]. split_and!.
    + intros a (ar & Hin & _)%list_elem_of_bind. unfold disconnect_log in Hin.
      destruct (ar.2); [destruct (enableLogging w)|].
      * by apply list_elem_of_singleton in Hin.
      * by apply elem_of_nil in Hin.
      * by apply list_elem_of_singleton in Hin.
    + intros e. unfold promise_allSettled. by case_decide.
    + intros Hlen. unfold promise_allSettled. rewrite length_fmap. by rewrite decide_True.
    + intros a e Hin. apply list_elem_of_bind. exists (a, Rejects e). split; [|done].
      unfold disconnect_log. simpl. by left.
Qed.

Lemma connectAll_fails_fast_disconnectAll_never_fails_witness :
  (1, Rejects (VStr "refused")) ∈ b_rejects
  ∧ (length b_rejects < length (map_values (adapters two_adapter_layer)))%nat
  ∧ (∃ tr', connectAll b_rejects two_adapter_layer []
            = (Normal (Rejected (VStr "refused")), two_adapter_layer, tr'))
  ∧ (∃ tr', disconnectAll (b_rejects ++ [(0, Resolves)]) two_adapter_layer []
            = (Normal Fulfilled, two_adapter_layer, tr')).
Proof.
  split; [by left|]. split; [simpl; lia|].
  destruct (connectAll_fails_fast_disconnectAll_never_fails b_rejects two_adapter_layer [])
    as [(st & evs & E & _ & _ & _ & Hfirst & _) _].
  destruct (Hfirst [] 1 (VStr "refused") [] eq_refl ltac:(constructor)) as [-> _].
  destruct (connectAll_fails_fast_disconnectAll_never_fails
              (b_rejects ++ [(0, Resolves)]) two_adapter_layer [])
    as [_ (st & evs' & E' & _ & _ & Hfull & _)].
  rewrite Hfull in E' by (simpl; lia).
  split; eexists; [exact E | exact E'].
Defined.

End DataAdapterLayerFacts.

(** ** Reconnection of the push adapters *)

Lemma scheduled_app o1 o2 : scheduled (o1 ++ o2) = scheduled o1 + scheduled o2.
Proof. unfold scheduled. by rewrite filter_app, length_app. Qed.

Lemma scheduled_nil : scheduled [] = 0.
Proof. done. Qed.

Lemma scheduled_cons o outs :
  scheduled (o :: outs) = (if is_scheduled o then 1 else 0) + scheduled outs.
Proof.
  unfold scheduled. destruct (is_scheduled o) eqn:Ho.
  - by rewrite filter_cons_True.
  - rewrite filter_cons_False; [done|]. by rewrite Ho.
Qed.

(** Counting the scheduled timeouts in an explicit list of outputs. *)
Ltac count_scheduled :=
  rewrite ?scheduled_app, ?scheduled_cons, ?scheduled_nil; simpl;
  split_and?; (lia || done).

Lemma run_inputs_cons {S I} (step : I → S → S * list adapter_output) i ins st :
  run_inputs step (i :: ins) st
  = ((run_inputs step ins (step i st).1).1,
     (step i st).2 ++ (run_inputs step ins (step i st).1).2).
Proof. done. Qed.

Module SSEAdapterFacts.
Import SSEAdapter.

Section Reconnect.
Variable opts : options.
Variable JSON_parse : string → option value.

Local Abbreviation N := (maxReconnectAttempts opts).
Local Abbreviation step := (step opts JSON_parse).
Local Abbreviation run := (run opts JSON_parse).

(** One input schedules at most one reconnect, only below the ceiling,
    and counts it. *)
Lemma sse_step_attempts i st :
  is_open i = false →
  (reconnectAttempts (step i st).1
   = reconnectAttempts st + Z.of_nat (scheduled (step i st).2))%Z
  ∧ (scheduled (step i st).2 ≤ 1)%nat
  ∧ (scheduled (step i st).2 = 1%nat → (reconnectAttempts st < N)%Z).
Proof.
  intros Hi. destruct i as [| |src|src raw|src|]; try done; simpl.
  - unfold connect. destruct (connected st); simpl; count_scheduled.
  - unfold disconnect. destruct (reconnectTimer st), (eventSource st); simpl;
      count_scheduled.
  - destruct (source_open st src); simpl; count_scheduled.
  - destruct (source_open st src); simpl; [|count_scheduled].
    unfold onerror. simpl. destruct (Z.ltb_spec (reconnectAttempts st) N); simpl.
    + unfold scheduleReconnect. simpl.
      destruct (reconnectTimer st); simpl; count_scheduled.
    + count_scheduled.
  - destruct (reconnectTimer st) as [tm|] eqn:Htm; simpl; [|count_scheduled].
    unfold reconnect, and_then, disconnect, connect. simpl.
    destruct (eventSource st); simpl; count_scheduled.
Qed.

Lemma sse_run_attempts ins st :
  forallb (λ i, negb (is_open i)) ins = true →
  (reconnectAttempts (run ins st).1
   = reconnectAttempts st + Z.of_nat (scheduled (run ins st).2))%Z
  ∧ (Z.of_nat (scheduled (run ins st).2) ≤ Z.max 0 (N - reconnectAttempts st))%Z.
Proof.
  revert st. induction ins as [|i ins IH]; intros st Hins.
  - unfold SSEAdapter.run. simpl. rewrite scheduled_nil. lia.
  - simpl in Hins. apply andb_true_iff in Hins as [Hi Hins].
    apply negb_true_iff in Hi.
    unfold SSEAdapter.run. rewrite run_inputs_cons. cbn [fst snd].
    rewrite scheduled_app.
    destruct (sse_step_attempts i st Hi) as (H1 & H2 & H3).
    destruct (IH (step i st).1 Hins) as (H4 & H5).
    unfold SSEAdapter.run in H4, H5. lia.
Qed.

Lemma sse_step_delay i st tm d :
  Scheduled tm d ∈ (step i st).2 → d = reconnectInterval opts.
Proof.
  assert (Forall (λ o, ∀ tm d, o = Scheduled tm d → d = reconnectInterval opts)
                 (step i st).2) as Hall.
  { destruct i as [| |src|src raw|src|]; simpl.
    - unfold connect. destruct (connected st); simpl; by repeat constructor.
    - unfold disconnect. simpl. destruct (reconnectTimer st), (eventSource st); simpl;
        by repeat constructor.
    - destruct (source_open st src); simpl; by repeat constructor.
    - destruct (source_open st src); simpl; by repeat constructor.
    - destruct (source_open st src); simpl; [|by repeat constructor].
      unfold onerror. simpl. destruct (Z.ltb_spec (reconnectAttempts st) N); simpl;
        [|by repeat constructor].
      unfold scheduleReconnect. simpl. destruct (reconnectTimer st); simpl;
        [by repeat constructor|].
      constructor; [|constructor]. by intros ?? [= _ <-].
    - destruct (reconnectTimer st) as [tm'|]; simpl; [|by repeat constructor].
      unfold reconnect, and_then, disconnect, connect. simpl.
      destruct (eventSource st); simpl; by repeat constructor. }
  intros Hin. rewrite Forall_forall in Hall. by eapply Hall.
Qed.

Lemma sse_run_delay ins st tm d :
  Scheduled tm d ∈ (run ins st).2 → d = reconnectInterval opts.
Proof.
  revert st. induction ins as [|i ins IH]; intros st.
  - by intros ?%elem_of_nil.
  - unfold SSEAdapter.run. rewrite run_inputs_cons. cbn [fst snd].
    intros [H|H]%elem_of_app; [by eapply sse_step_delay | by eapply IH].
Qed.

Lemma sse_step_exhausted i st :
  is_open i = false → is_connect i = false → exhausted opts st →
  exhausted opts (step i st).1 ∧ quiet (step i st).2.
Proof.
  intros Hi Hc (Hconn & Htm & Hmax). unfold exhausted, quiet.
  destruct i as [| |src|src raw|src|]; try done; simpl.
  - unfold disconnect. rewrite Htm. simpl.
    destruct (eventSource st); simpl; split_and!; by repeat constructor.
  - destruct (source_open st src); simpl; split_and!; by repeat constructor.
  - destruct (source_open st src); simpl; [|split_and!; by repeat constructor].
    unfold onerror. simpl. destruct (Z.ltb_spec (reconnectAttempts st) N); [lia|].
    simpl. split_and!; by repeat constructor.
  - rewrite Htm. simpl. split_and!; by repeat constructor.
Qed.

Lemma sse_run_exhausted ins st :
  forallb (λ i, negb (is_open i) && negb (is_connect i)) ins = true →
  exhausted opts st →
  exhausted opts (run ins st).1 ∧ quiet (run ins st).2.
Proof.
  revert st. induction ins as [|i ins IH]; intros st Hins Hex.
  - split; [done|constructor].
  - simpl in Hins. apply andb_true_iff in Hins as [Hi Hins].
    apply andb_true_iff in Hi as [Ho Hc].
    apply negb_true_iff in Ho. apply negb_true_iff in Hc.
    unfold SSEAdapter.run. rewrite run_inputs_cons. cbn [fst snd].
    destruct (sse_step_exhausted i st Ho Hc Hex) as [Hex1 Hq1].
    destruct (IH (step i st).1 Hins Hex1) as [Hex2 Hq2].
    split; [done|]. by apply Forall_app.
Qed.

Lemma sse_quiet_scheduled outs : quiet outs → scheduled outs = 0.
Proof.
  induction 1 as [|o outs [Ho _] _ IH]; [done|].
  by rewrite scheduled_cons, Ho, IH.
Qed.

(** One round of failure below the ceiling: the error schedules a
    reconnect, the timeout closes the [EventSource] and opens a new one. *)
Lemma sse_failure_round rest st src :
  eventSource st = Some src →
  sources st !! src = Some true →
  reconnectTimer st = None →
  (reconnectAttempts st < N)%Z →
  run (Error src :: TimerFires :: rest) st
  = ((run rest (mk false (Some (length (sources st))) (reconnectAttempts st + 1) None
                   (<[src := false]> (sources st) ++ [true]) (S (timers st)))).1,
     [Scheduled (timers st) (reconnectInterval opts); Closed src;
      Created (length (sources st))]
     ++ (run rest (mk false (Some (length (sources st))) (reconnectAttempts st + 1) None
                      (<[src := false]> (sources st) ++ [true]) (S (timers st)))).2).
Proof.
  intros Hsrc Hopen Htm Hlt.
  assert (step (Error src) st
          = (mk false (Some src) (reconnectAttempts st + 1) (Some (timers st))
                (sources st) (S (timers st)),
             [Scheduled (timers st) (reconnectInterval opts)])) as E1.
  { simpl. unfold source_open. rewrite bool_decide_true by done.
    unfold onerror. simpl. destruct (Z.ltb_spec (reconnectAttempts st) N); [|lia].
    unfold scheduleReconnect. simpl. by rewrite Htm, Hsrc. }
  unfold SSEAdapter.run. rewrite run_inputs_cons, E1. cbn [fst snd].
  rewrite run_inputs_cons. simpl. unfold reconnect, and_then, disconnect, connect.
  simpl. by rewrite length_insert.
Qed.

(** A connection that fails [n] times in a row, below the ceiling: every
    failure schedules one reconnect, and the adapter ends up disconnected
    with no reconnect pending. *)
Lemma sse_failures_run n st src :
  eventSource st = Some src →
  sources st !! src = Some true →
  reconnectTimer st = None →
  (reconnectAttempts st + Z.of_nat n ≤ N)%Z →
  scheduled (run (failures n src (length (sources st))) st).2 = n
  ∧ (reconnectAttempts (run (failures n src (length (sources st))) st).1
     = reconnectAttempts st + Z.of_nat n)%Z
  ∧ reconnectTimer (run (failures n src (length (sources st))) st).1 = None
  ∧ (n ≠ 0 → connected (run (failures n src (length (sources st))) st).1 = false).
Proof.
  revert st src. induction n as [|n IH]; intros st src Hsrc Hopen Htm Hle.
  - unfold SSEAdapter.run. simpl. rewrite scheduled_nil. split_and!; (lia || done).
  - cbn [failures]. rewrite sse_failure_round by (done || lia). cbn [fst snd].
    set (st2 := mk false (Some (length (sources st))) (reconnectAttempts st + 1) None
                   (<[src := false]> (sources st) ++ [true]) (S (timers st))).
    assert (length (sources st2) = S (length (sources st))) as Hlen.
    { simpl. rewrite length_app, length_insert. simpl. lia. }
    destruct (IH st2 (length (sources st))) as (H1 & H2 & H3 & H4).
    { done. }
    { simpl. rewrite lookup_app_r by (rewrite length_insert; lia).
      by rewrite length_insert, Nat.sub_diag. }
    { done. }
    { simpl. lia. }
    rewrite Hlen in H1, H2, H3, H4.
    rewrite scheduled_app, !scheduled_cons, scheduled_nil, H1, H2, H3. simpl.
    split_and!; try (lia || done).
    intros _. destruct n as [|n']; [done|]. by apply H4.
Qed.

End Reconnect.

(** [sse_connected] is the adapter after [connect()] and [onopen]. *)
Lemma sse_connected_reachable parse :
  (run sse_three parse [Connect; Open 0] create).1 = sse_connected.
Proof. reflexivity. Qed.

End SSEAdapterFacts.

Module WebSocketAdapterFacts.
Import WebSocketAdapter.

Section Reconnect.
Variable opts : options.
Variable JSON_parse : string → option value.

Local Abbreviation N := (maxReconnectAttempts opts).
Local Abbreviation step := (step opts JSON_parse).
Local Abbreviation run := (run opts JSON_parse).

Ltac unfold_handlers :=
  unfold reconnect, onclose, onopen, onmessage, handlePong, startPing, scheduleReconnect,
    disconnect, stopPing, connect, and_then, ready; simpl.

Lemma ws_step_attempts i st :
  is_open i = false →
  (reconnectAttempts (step i st).1
   = reconnectAttempts st + Z.of_nat (scheduled (step i st).2))%Z
  ∧ (scheduled (step i st).2 ≤ 1)%nat
  ∧ (scheduled (step i st).2 = 1%nat → (reconnectAttempts st < N)%Z).
Proof.
  intros Hi. destruct i as [| |sock|sock raw|sock wasClean|sock|]; try done; simpl.
  - unfold_handlers. repeat case_match; simpl; count_scheduled.
  - unfold_handlers. repeat case_match; simpl; count_scheduled.
  - unfold_handlers. repeat case_match; simpl; count_scheduled.
  - unfold ready. destruct (sockets st !! sock) as [[]|]; simpl; try count_scheduled;
      unfold_handlers; destruct wasClean; simpl;
      destruct (Z.ltb_spec (reconnectAttempts st) N); simpl;
      repeat case_match; simpl; count_scheduled.
  - count_scheduled.
  - unfold_handlers. repeat case_match; simpl; count_scheduled.
Qed.

Lemma ws_run_attempts ins st :
  forallb (λ i, negb (is_open i)) ins = true →
  (reconnectAttempts (run ins st).1
   = reconnectAttempts st + Z.of_nat (scheduled (run ins st).2))%Z
  ∧ (Z.of_nat (scheduled (run ins st).2) ≤ Z.max 0 (N - reconnectAttempts st))%Z.
Proof.
  revert st. induction ins as [|i ins IH]; intros st Hins.
  - unfold WebSocketAdapter.run. simpl. rewrite scheduled_nil. lia.
  - simpl in Hins. apply andb_true_iff in Hins as [Hi Hins].
    apply negb_true_iff in Hi.
    unfold WebSocketAdapter.run. rewrite run_inputs_cons. cbn [fst snd].
    rewrite scheduled_app.
    destruct (ws_step_attempts i st Hi) as (H1 & H2 & H3).
    destruct (IH (step i st).1 Hins) as (H4 & H5).
    unfold WebSocketAdapter.run in H4, H5. lia.
Qed.

Lemma ws_step_delay i st tm d :
  Scheduled tm d ∈ (step i st).2 → d = reconnectInterval opts.
Proof.
  assert (Forall (λ o, ∀ tm d, o = Scheduled tm d → d = reconnectInterval opts)
                 (step i st).2) as Hall.
  { destruct i as [| |sock|sock raw|sock wasClean|sock|]; simpl.
    - unfold_handlers. repeat case_match; simpl; by repeat constructor.
    - unfold_handlers. repeat case_match; simpl; by repeat constructor.
    - unfold_handlers. repeat case_match; simpl; by repeat constructor.
    - unfold_handlers. repeat case_match; simpl; by repeat constructor.
    - unfold ready. destruct (sockets st !! sock) as [[]|]; simpl;
        try (by repeat constructor);
        unfold_handlers; repeat case_match; simpl;
        repeat (constructor; [by (intros ?? [= _ <-] || done)|]); constructor.
    - constructor.
    - unfold_handlers. repeat case_match; simpl; by repeat constructor. }
  intros Hin. rewrite Forall_forall in Hall. by eapply Hall.
Qed.

Lemma ws_run_delay ins st tm d :
  Scheduled tm d ∈ (run ins st).2 → d = reconnectInterval opts.
Proof.
  revert st. induction ins as [|i ins IH]; intros st.
  - by intros ?%elem_of_nil.
  - unfold WebSocketAdapter.run. rewrite run_inputs_cons. cbn [fst snd].
    intros [H|H]%elem_of_app; [by eapply ws_step_delay | by eapply IH].
Qed.

Lemma ws_step_exhausted i st :
  is_open i = false → is_connect i = false → exhausted opts st →
  exhausted opts (step i st).1 ∧ quiet (step i st).2.
Proof.
  intros Hi Hc (Hconn & Htm & Hmax). unfold exhausted, quiet.
  destruct i as [| |sock|sock raw|sock wasClean|sock|]; try done; simpl.
  - unfold_handlers. rewrite Htm. simpl.
    repeat case_match; simpl; split_and!; first [done | lia | by repeat constructor].
  - unfold_handlers. repeat case_match; simpl; split_and!; first [done | lia | by repeat constructor].
  - unfold ready. destruct (sockets st !! sock) as [[]|]; simpl;
      try (split_and!; first [done | lia | by repeat constructor]);
      unfold_handlers; destruct (Z.ltb_spec (reconnectAttempts st) N); try lia;
      rewrite andb_false_r; simpl;
      repeat case_match; simpl; split_and!; first [done | lia | by repeat constructor].
  - rewrite Htm. simpl. split_and!; first [done | lia | by repeat constructor].
Qed.

Lemma ws_run_exhausted ins st :
  forallb (λ i, negb (is_open i) && negb (is_connect i)) ins = true →
  exhausted opts st →
  exhausted opts (run ins st).1 ∧ quiet (run ins st).2.
Proof.
  revert st. induction ins as [|i ins IH]; intros st Hins Hex.
  - split; [done|constructor].
  - simpl in Hins. apply andb_true_iff in Hins as [Hi Hins].
    apply andb_true_iff in Hi as [Ho Hc].
    apply negb_true_iff in Ho. apply negb_true_iff in Hc.
    unfold WebSocketAdapter.run. rewrite run_inputs_cons. cbn [fst snd].
    destruct (ws_step_exhausted i st Ho Hc Hex) as [Hex1 Hq1].
    destruct (IH (step i st).1 Hins Hex1) as [Hex2 Hq2].
    split; [done|]. by apply Forall_app.
Qed.

Lemma ws_quiet_scheduled outs : quiet outs → scheduled outs = 0.
Proof.
  induction 1 as [|o outs [Ho _] _ IH]; [done|].
  by rewrite scheduled_cons, Ho, IH.
Qed.

(** One round of failure below the ceiling: the unclean close schedules a
    reconnect, the timeout opens a new socket. *)
Lemma ws_failure_round rest st sock :
  ws st = Some sock →
  (ready st sock = Some CONNECTING ∨ ready st sock = Some OPEN) →
  reconnectTimer st = None →
  (reconnectAttempts st < N)%Z →
  run (Close sock false :: TimerFires :: rest) st
  = ((run rest (mk false (Some (length (sockets st))) (reconnectAttempts st + 1) None
                   None None (<[sock := CLOSED]> (sockets st) ++ [CONNECTING])
                   (S (timers st)))).1,
     (match pingTimer st with Some tm => [Cleared tm] | None => [] end
      ++ match pongTimer st with Some tm => [Cleared tm] | None => [] end)
     ++ [Scheduled (timers st) (reconnectInterval opts);
         Created (length (sockets st))]
     ++ (run rest (mk false (Some (length (sockets st))) (reconnectAttempts st + 1) None
                      None None (<[sock := CLOSED]> (sockets st) ++ [CONNECTING])
                      (S (timers st)))).2).
Proof.
  intros Hws Hready Htm Hlt.
  assert (sock < length (sockets st)) as Hlen.
  { apply lookup_lt_is_Some. unfold ready in Hready. destruct Hready as [-> | ->]; eauto. }
  assert (step (Close sock false) st
          = (mk false (Some sock) (reconnectAttempts st + 1) (Some (timers st)) None None
                (<[sock := CLOSED]> (sockets st)) (S (timers st)),
             (match pingTimer st with Some tm => [Cleared tm] | None => [] end
              ++ match pongTimer st with Some tm => [Cleared tm] | None => [] end)
             ++ [Scheduled (timers st) (reconnectInterval opts)])) as E1.
  { simpl. unfold_handlers.
    destruct (Z.ltb_spec (reconnectAttempts st) N); [|lia].
    rewrite Htm, Hws. simpl.
    unfold ready in Hready. by destruct Hready as [-> | ->]. }
  unfold WebSocketAdapter.run. rewrite run_inputs_cons, E1. cbn [fst snd].
  rewrite run_inputs_cons. simpl. unfold_handlers.
  rewrite list_lookup_insert_eq by done.
  rewrite bool_decide_false by done. simpl.
  rewrite length_insert. by rewrite <- !app_assoc.
Qed.

Lemma ws_failures_run n st sock :
  ws st = Some sock →
  (ready st sock = Some CONNECTING ∨ ready st sock = Some OPEN) →
  reconnectTimer st = None →
  (reconnectAttempts st + Z.of_nat n ≤ N)%Z →
  scheduled (run (failures n sock (length (sockets st))) st).2 = n
  ∧ (reconnectAttempts (run (failures n sock (length (sockets st))) st).1
     = reconnectAttempts st + Z.of_nat n)%Z
  ∧ reconnectTimer (run (failures n sock (length (sockets st))) st).1 = None
  ∧ (n ≠ 0 → connected (run (failures n sock (length (sockets st))) st).1 = false).
Proof.
  revert st sock. induction n as [|n IH]; intros st sock Hws Hready Htm Hle.
  - unfold WebSocketAdapter.run. simpl. rewrite scheduled_nil. split_and!; (lia || done).
  - cbn [failures]. rewrite ws_failure_round by (done || lia). cbn [fst snd].
    set (st2 := mk false (Some (length (sockets st))) (reconnectAttempts st + 1) None
                   None None (<[sock := CLOSED]> (sockets st) ++ [CONNECTING])
                   (S (timers st))).
    assert (length (sockets st2) = S (length (sockets st))) as Hlen.
    { simpl. rewrite length_app, length_insert. simpl. lia. }
    destruct (IH st2 (length (sockets st))) as (H1 & H2 & H3 & H4).
    { done. }
    { left. unfold ready. simpl. rewrite lookup_app_r by (rewrite length_insert; lia).
      by rewrite length_insert, Nat.sub_diag. }
    { done. }
    { simpl. lia. }
    rewrite Hlen in H1, H2, H3, H4.
    rewrite !scheduled_app, !scheduled_cons, scheduled_nil, H1, H2, H3. simpl.
    split_and!; try (lia || done).
    + destruct (pingTimer st), (pongTimer st); simpl; count_scheduled.
    + intros _. destruct n as [|n']; [done|]. by apply H4.
Qed.

End Reconnect.

(** [ws_connected] is the adapter after [connect()] and [onopen]. *)
Lemma ws_connected_reachable parse :
  (run ws_three parse [Connect; Open 0] create).1 = ws_connected.
Proof. reflexivity. Qed.

(** [disconnect()] closes the socket only when it is [OPEN]: a socket that
    is still connecting is left alone, and when it opens afterwards the
    adapter is connected again. *)
Lemma ws_opens_after_disconnect opts parse :
  connected (run opts parse [Connect; Disconnect] create).1 = false
  ∧ connected (run opts parse [Connect; Disconnect; Open 0] create).1 = true.
Proof.
  split; [done|]. unfold run. simpl. unfold and_then, onopen, startPing. simpl.
  by destruct (0 <? pingInterval opts)%Z.
Qed.

End WebSocketAdapterFacts.

(** The ceiling of the reconnects, while no connection opens.  For both
    push adapters, with [N = maxReconnectAttempts]: as long as no
    [onopen] arrives, any sequence of errors, closes, expiring timers and
    calls schedules at most [N] reconnects (counted from the attempts
    already made); every reconnect is scheduled with the delay
    [reconnectInterval]; a connection that fails [N] times in a row
    schedules exactly [N] reconnects and leaves the adapter disconnected
    with nothing pending; from then on, still with no [onopen], nothing
    schedules a reconnect or opens a connection until [connect()] is
    called; and a [connect()] that opens makes the adapter connected with
    the attempts back at zero.  An [onopen] that reaches an adapter which
    has given up is outside these statements. *)
Theorem reconnect_attempts_bounded :
  (∀ opts parse,
     (∀ ins st,
        forallb (λ i, negb (SSEAdapter.is_open i)) ins = true →
        (Z.of_nat (scheduled (SSEAdapter.run opts parse ins st).2)
         ≤ Z.max 0 (SSEAdapter.maxReconnectAttempts opts - SSEAdapter.reconnectAttempts st))%Z)
     ∧ (∀ ins st tm d,
          Scheduled tm d ∈ (SSEAdapter.run opts parse ins st).2 →
          d = SSEAdapter.reconnectInterval opts)
     ∧ (∀ n st src,
          SSEAdapter.eventSource st = Some src →
          SSEAdapter.sources st !! src = Some true →
          SSEAdapter.reconnectTimer st = None →
          SSEAdapter.reconnectAttempts st = 0%Z →
          SSEAdapter.maxReconnectAttempts opts = Z.of_nat (S n) →
          scheduled (SSEAdapter.run opts parse
                       (SSEAdapter.failures (S n) src (length (SSEAdapter.sources st))) st).2
          = S n
          ∧ SSEAdapter.exhausted opts
              (SSEAdapter.run opts parse
                 (SSEAdapter.failures (S n) src (length (SSEAdapter.sources st))) st).1)
     ∧ (∀ ins st,
          SSEAdapter.exhausted opts st →
          forallb (λ i, negb (SSEAdapter.is_open i) && negb (SSEAdapter.is_connect i)) ins
          = true →
          SSEAdapter.connected (SSEAdapter.run opts parse ins st).1 = false
          ∧ scheduled (SSEAdapter.run opts parse ins st).2 = 0
          ∧ SSEAdapter.quiet (SSEAdapter.run opts parse ins st).2)
     ∧ (∀ st,
          SSEAdapter.connected st = false →
          SSEAdapter.connected
            (SSEAdapter.run opts parse
               [SSEAdapter.Connect; SSEAdapter.Open (length (SSEAdapter.sources st))] st).1
          = true
          ∧ SSEAdapter.reconnectAttempts
              (SSEAdapter.run opts parse
                 [SSEAdapter.Connect; SSEAdapter.Open (length (SSEAdapter.sources st))] st).1
            = 0%Z))
  ∧ (∀ opts parse,
       (∀ ins st,
          forallb (λ i, negb (WebSocketAdapter.is_open i)) ins = true →
          (Z.of_nat (scheduled (WebSocketAdapter.run opts parse ins st).2)
           ≤ Z.max 0 (WebSocketAdapter.maxReconnectAttempts opts
                      - WebSocketAdapter.reconnectAttempts st))%Z)
       ∧ (∀ ins st tm d,
            Scheduled tm d ∈ (WebSocketAdapter.run opts parse ins st).2 →
            d = WebSocketAdapter.reconnectInterval opts)
       ∧ (∀ n st sock,
            WebSocketAdapter.ws st = Some sock →
            WebSocketAdapter.ready st sock = Some WebSocketAdapter.OPEN →
            WebSocketAdapter.reconnectTimer st = None →
            WebSocketAdapter.reconnectAttempts st = 0%Z →
            WebSocketAdapter.maxReconnectAttempts opts = Z.of_nat (S n) →
            scheduled (WebSocketAdapter.run opts parse
                         (WebSocketAdapter.failures (S n) sock
                            (length (WebSocketAdapter.sockets st))) st).2
            = S n
            ∧ WebSocketAdapter.exhausted opts
                (WebSocketAdapter.run opts parse
                   (WebSocketAdapter.failures (S n) sock
                      (length (WebSocketAdapter.sockets st))) st).1)
       ∧ (∀ ins st,
            WebSocketAdapter.exhausted opts st →
            forallb (λ i, negb (WebSocketAdapter.is_open i)
                          && negb (WebSocketAdapter.is_connect i)) ins = true →
            WebSocketAdapter.connected (WebSocketAdapter.run opts parse ins st).1 = false
            ∧ scheduled (WebSocketAdapter.run opts parse ins st).2 = 0
            ∧ WebSocketAdapter.quiet (WebSocketAdapter.run opts parse ins st).2)
       ∧ (∀ st,
            WebSocketAdapter.connected st = false →
            WebSocketAdapter.connected
              (WebSocketAdapter.run opts parse
                 [WebSocketAdapter.Connect;
                  WebSocketAdapter.Open (length (WebSocketAdapter.sockets st))] st).1
            = true
            ∧ WebSocketAdapter.reconnectAttempts
                (WebSocketAdapter.run opts parse
                   [WebSocketAdapter.Connect;
                    WebSocketAdapter.Open (length (WebSocketAdapter.sockets st))] st).1
              = 0%Z)).
Proof.
  split; intros opts parse; split_and!.
  - intros ins st Hins. by apply SSEAdapterFacts.sse_run_attempts.
  - intros ins st tm d. apply SSEAdapterFacts.sse_run_delay.
  - intros n st src Hsrc Hopen Htm Hzero HN.
    destruct (SSEAdapterFacts.sse_failures_run opts parse (S n) st src Hsrc Hopen Htm)
      as (H1 & H2 & H3 & H4); [lia|].
    split; [done|]. unfold SSEAdapter.exhausted. split_and!; [by apply H4 | done | lia].
  - intros ins st Hex Hins.
    destruct (SSEAdapterFacts.sse_run_exhausted opts parse ins st Hins Hex) as [(Hc & _) Hq].
    split_and!; [done | by apply SSEAdapterFacts.sse_quiet_scheduled | done].
  - intros st Hc. unfold SSEAdapter.run. simpl.
    unfold SSEAdapter.connect, and_then. rewrite Hc. simpl.
    unfold SSEAdapter.source_open. simpl.
    rewrite bool_decide_true; [done|]. by rewrite lookup_app_r, Nat.sub_diag.
  - intros ins st Hins. by apply WebSocketAdapterFacts.ws_run_attempts.
  - intros ins st tm d. apply WebSocketAdapterFacts.ws_run_delay.
  - intros n st sock Hws Hready Htm Hzero HN.
    destruct (WebSocketAdapterFacts.ws_failures_run opts parse (S n) st sock Hws)
      as (H1 & H2 & H3 & H4); [by right | done | lia|].
    split; [done|]. unfold WebSocketAdapter.exhausted.
    split_and!; [by apply H4 | done | lia].
  - intros ins st Hex Hins.
    destruct (WebSocketAdapterFacts.ws_run_exhausted opts parse ins st Hins Hex)
      as [(Hc & _) Hq].
    split_and!; [done | by apply WebSocketAdapterFacts.ws_quiet_scheduled | done].
  - intros st Hc. unfold WebSocketAdapter.run. simpl.
    unfold WebSocketAdapter.connect, and_then. rewrite Hc. simpl.
    unfold WebSocketAdapter.ready. simpl.
    rewrite bool_decide_true by (by rewrite lookup_app_r, Nat.sub_diag).
    unfold WebSocketAdapter.onopen, WebSocketAdapter.startPing. simpl.
    by destruct (0 <? WebSocketAdapter.pingInterval opts)%Z.
Qed.

(** C7.  An SSEAdapter that has given up is not closed.  With
    [maxReconnectAttempts = 3]: the connection fails and three reconnects
    are scheduled and made; the [EventSource] of the third fails too, and
    [onerror] schedules nothing: the adapter has given up, disconnected.
    But [onerror] does not close that [EventSource], and when it opens by
    itself, [onopen] sets [connected = true] and the attempts to zero
    although [connect()] was not called; the next error then schedules a
    fourth reconnect.  A WebSocketAdapter in the same position holds a
    socket that is closed, and stays as it is. *)
Theorem sse_reopens_after_giving_up parse :
  let gave_up :=
    SSEAdapter.run sse_three parse
      (SSEAdapter.failures 3 0 1 ++ [SSEAdapter.Error 3]) sse_connected in
  let ws_gave_up :=
    WebSocketAdapter.run ws_three parse
      (WebSocketAdapter.failures 3 0 1 ++ [WebSocketAdapter.Close 3 false]) ws_connected in
  SSEAdapter.maxReconnectAttempts sse_three = 3%Z
  ∧ scheduled gave_up.2 = 3
  ∧ SSEAdapter.exhausted sse_three gave_up.1
  ∧ SSEAdapter.eventSource gave_up.1 = Some 3
  ∧ SSEAdapter.source_open gave_up.1 3 = true
  ∧ SSEAdapter.connected (SSEAdapter.run sse_three parse [SSEAdapter.Open 3] gave_up.1).1
    = true
  ∧ SSEAdapter.reconnectAttempts
      (SSEAdapter.run sse_three parse [SSEAdapter.Open 3] gave_up.1).1 = 0%Z
  ∧ (SSEAdapter.run sse_three parse [SSEAdapter.Open 3; SSEAdapter.Error 3] gave_up.1).2
    = [Scheduled 3 5000]
  ∧ scheduled
      (SSEAdapter.run sse_three parse
         (SSEAdapter.failures 3 0 1
          ++ [SSEAdapter.Error 3; SSEAdapter.Open 3; SSEAdapter.Error 3]) sse_connected).2
    = 4
  ∧ scheduled ws_gave_up.2 = 3
  ∧ WebSocketAdapter.exhausted ws_three ws_gave_up.1
  ∧ WebSocketAdapter.ready ws_gave_up.1 3 = Some WebSocketAdapter.CLOSED
  ∧ WebSocketAdapter.run ws_three parse
      [WebSocketAdapter.Open 3; WebSocketAdapter.Close 3 false; WebSocketAdapter.Error 3]
      ws_gave_up.1
    = (ws_gave_up.1, []).
Proof.
  cbv zeta. split_and!; try (vm_compute; reflexivity).
  - split_and!; [reflexivity..|]. by vm_compute.
  - split_and!; [reflexivity..|]. by vm_compute.
Qed.

Lemma reconnect_attempts_bounded_witness :
  (scheduled (SSEAdapter.run sse_three no_json (SSEAdapter.failures 3 0 1) sse_connected).2 = 3
   ∧ SSEAdapter.exhausted sse_three
       (SSEAdapter.run sse_three no_json (SSEAdapter.failures 3 0 1) sse_connected).1
   ∧ scheduled
       (SSEAdapter.run sse_three no_json [SSEAdapter.Error 3; SSEAdapter.TimerFires]
          (SSEAdapter.run sse_three no_json (SSEAdapter.failures 3 0 1) sse_connected).1).2
     = 0)
  ∧ (scheduled (WebSocketAdapter.run ws_three no_json (WebSocketAdapter.failures 3 0 1)
                  ws_connected).2 = 3
     ∧ WebSocketAdapter.exhausted ws_three
         (WebSocketAdapter.run ws_three no_json (WebSocketAdapter.failures 3 0 1)
            ws_connected).1
     ∧ scheduled
         (WebSocketAdapter.run ws_three no_json
            [WebSocketAdapter.Close 3 false; WebSocketAdapter.TimerFires]
            (WebSocketAdapter.run ws_three no_json (WebSocketAdapter.failures 3 0 1)
               ws_connected).1).2
       = 0).
Proof.
  destruct reconnect_attempts_bounded as [Hsse Hws].
  destruct (Hsse sse_three no_json) as (_ & _ & Hexact & Hafter & _).
  destruct (Hws ws_three no_json) as (_ & _ & Hexact' & Hafter' & _).
  destruct (Hexact 2 sse_connected 0 eq_refl eq_refl eq_refl eq_refl eq_refl) as [H1 H2].
  destruct (Hexact' 2 ws_connected 0 eq_refl eq_refl eq_refl eq_refl eq_refl) as [H1' H2'].
  split.
  - split; [exact H1|]. split; [exact H2|].
    exact (proj1 (proj2 (Hafter [SSEAdapter.Error 3; SSEAdapter.TimerFires] _ H2 eq_refl))).
  - split; [exact H1'|]. split; [exact H2'|].
    exact (proj1 (proj2 (Hafter' [WebSocketAdapter.Close 3 false; WebSocketAdapter.TimerFires]
                           _ H2' eq_refl))).
Defined.

(** ** Disconnecting the pull adapters *)

Module RestAdapterFacts.
Import RestAdapter.

(** In [RestAdapter], a retry timeout that expires while the adapter is
    disconnected does nothing: [fetchData] returns at its first line. *)
Lemma retry_while_disconnected opts parse st :
  connected st = false →
  (step opts parse RetryFires st).2 = []
  ∧ connected (step opts parse RetryFires st).1 = false
  ∧ tasks (step opts parse RetryFires st).1 = tasks st.
Proof.
  intros Hc. simpl. destruct (retries st) as [|n rest]; [done|].
  unfold fetchData. simpl. by rewrite Hc.
Qed.

(** A request whose controller was overwritten by a later request, and
    then cleared by the [finally] of an earlier one, is not aborted by
    [disconnect()]: its response is emitted afterwards. *)
Lemma late_response_is_emitted parse :
  connected (run default_options parse overlapping_polls create).1 = false
  ∧ (run default_options parse late_response
       (run default_options parse overlapping_polls create).1).2
    = [Emitted (VStr "late")].
Proof. done. Qed.

(** The same happens to a request whose body is being read when the next
    poll starts: [disconnect()] aborts the request of the poll, and the
    body that arrives afterwards is emitted. *)
Lemma body_read_survives_disconnect parse raw data :
  parse raw = Some data →
  connected (run default_options parse poll_during_body_read create).1 = false
  ∧ (run default_options parse poll_during_body_read create).2
    = [Created 0; Created 1; Cleared 0; Closed 1]
  ∧ (step default_options parse (BodyArrives 0 raw)
       (run default_options parse poll_during_body_read create).1).2
    = [Emitted data].
Proof.
  intros Hp. split_and!; [done..|].
  simpl. unfold on_body, and_then. by rewrite Hp.
Qed.

(** A body announced as JSON that does not parse is not emitted: the
    request is retried, as after a failure in the network; a body of
    another content-type is emitted as the text it is, unparsed. *)
Lemma unparsable_body_is_retried opts parse id n raw st :
  task_of st id = Some (mk_task n ReadingJson) →
  parse raw = None →
  step opts parse (BodyArrives id raw) st = on_failure opts id n st.
Proof. intros Ht Hp. simpl. rewrite Ht. unfold on_body. by rewrite Hp. Qed.

Lemma text_body_is_emitted_raw opts parse id n raw st :
  task_of st id = Some (mk_task n ReadingText) →
  (step opts parse (BodyArrives id raw) st).2 = [Emitted (VStr raw)].
Proof. intros Ht. simpl. by rewrite Ht. Qed.

End RestAdapterFacts.

Module StreamAdapterFacts.
Import StreamAdapter.

(** [disconnect()] leaves the pending retry timeouts alone. *)
Lemma disconnect_keeps_retries opts parse st :
  retries (step opts parse Disconnect st).1 = retries st
  ∧ connected (step opts parse Disconnect st).1 = false.
Proof.
  simpl. unfold disconnect, and_then, abort, flush, finally, task_of. simpl.
  destruct (reader st) as [r|]; simpl.
  - destruct (mjoin (tasks st !! r)) as [[n [|buf]]|]; simpl;
      destruct (abortController st) as [c|]; simpl;
      repeat case_match; simpl; done.
  - destruct (abortController st) as [c|]; simpl; [|done].
    repeat case_match; simpl; done.
Qed.

(** An expiring retry timeout issues a request whether the adapter is
    connected or not. *)
Lemma retry_ignores_connected opts parse st n rest :
  retries st = n :: rest →
  (step opts parse RetryFires st).2 = [Created (length (tasks st))].
Proof. intros Hr. simpl. by rewrite Hr. Qed.

(** C8, at the failing input.  The stream is established, a read fails
    and a retry is scheduled; [disconnect()] is called and returns: the
    adapter is disconnected, nothing is in flight, and the retry is still
    pending.  Without any call of [connect()], the retry then issues a new
    request, whose response makes the adapter connected again and whose
    first line is emitted. *)
Theorem stream_retry_survives_disconnect parse :
  connected (run default_options parse (before_disconnect ++ [Disconnect]) create).1 = false
  ∧ abortController (run default_options parse (before_disconnect ++ [Disconnect]) create).1
    = None
  ∧ reader (run default_options parse (before_disconnect ++ [Disconnect]) create).1 = None
  ∧ retries (run default_options parse (before_disconnect ++ [Disconnect]) create).1
    = [1%Z]
  ∧ (Connect ∉ after_disconnect)
  ∧ connected
      (run default_options parse after_disconnect
         (run default_options parse (before_disconnect ++ [Disconnect]) create).1).1
    = true
  ∧ (run default_options parse after_disconnect
       (run default_options parse (before_disconnect ++ [Disconnect]) create).1).2
    = [Created 1; Emitted (parse_or_raw parse "x")].
Proof.
  split_and!; try done.
  unfold after_disconnect. rewrite !elem_of_cons, elem_of_nil.
  by intros [?|[?|[?|?]]].
Qed.

End StreamAdapterFacts.

(** * Further properties of the code *)

(** ** The store: the other methods, and how the methods compose *)

Module DataStateMore.
Import DataState DataStateFacts DataStateOps.

(** X1.  [clear()] returns normally, empties the data and drops every per-key
    subscription, keeps the global subscribers, and calls them once per
    key that was present, in insertion order of the keys, with
    [(key, undefined)]; it calls no per-key callback.  On a store without
    entries it calls nothing. *)
Theorem clear_notifies_each_key cb_throws s tr :
  ∃ s' evs,
    clear cb_throws s tr = (Normal tt, s', tr ++ evs)
    ∧ data s' = [] ∧ subscribers s' = []
    ∧ globalSubscribers s' = globalSubscribers s
    ∧ (∀ k, lookup s' k = VUndefined ∧ key_subscribers s' k = [])
    ∧ calls evs = map_keys (data s) ≫=
                    (λ key, (λ cb, GlobalCall cb key VUndefined) <$> globalSubscribers s)
    ∧ (∀ cb v, KeyCall cb v ∉ evs)
    ∧ (data s = [] → calls evs = []).
Proof.
  destruct (clear_spec cb_throws s tr) as (evs & E & C).
  eexists _, evs. split; [exact E|]. simpl. split_and!; try done.
  - intros cb v Hin%key_call_in_calls. rewrite C in Hin.
    apply list_elem_of_bind in Hin as (k & Hin & _).
    by apply list_elem_of_fmap in Hin as (c & ? & _).
  - intros Hd. by rewrite C, Hd.
Qed.

(** X2.  [subscribeAll(callback)] returns normally, registers the callback as a
    global subscriber (once, however often it is registered) and replays
    every entry of the store to it, in insertion order, also the entries
    whose value is [undefined]; no other callback is called.  From then on
    every [set] calls it. *)
Theorem subscribeAll_replays_every_entry cb_throws callback s tr :
  ∃ s' evs,
    subscribeAll cb_throws callback s tr = (Normal callback, s', tr ++ evs)
    ∧ data s' = data s ∧ subscribers s' = subscribers s ∧ sets s' = sets s
    ∧ globalSubscribers s' = set_add (globalSubscribers s) callback
    ∧ calls evs = (λ kv, GlobalCall callback kv.1 kv.2) <$> data s
    ∧ (∀ tr1, ∃ evs1,
         subscribeAll cb_throws callback s' tr1 = (Normal callback, s', tr1 ++ evs1))
    ∧ (∀ key v tr1, ∃ s2 evs2,
         set cb_throws key v s' tr1 = (Normal tt, s2, tr1 ++ evs2)
         ∧ GlobalCall callback key v ∈ evs2).
Proof.
  destruct (subscribeAll_spec cb_throws callback s tr) as (evs & E & C).
  eexists _, evs. split; [exact E|]. simpl. split_and!; try done.
  - intros tr1.
    destruct (subscribeAll_spec cb_throws callback
                (mk (data s) (subscribers s) (sets s)
                    (set_add (globalSubscribers s) callback)) tr1) as (evs1 & E1 & _).
    exists evs1. rewrite E1. simpl. do 2 f_equal.
    unfold set_add at 1. by rewrite decide_True by apply set_add_elem.
  - intros key v tr1.
    destruct (set_spec cb_throws key v
                (mk (data s) (subscribers s) (sets s)
                    (set_add (globalSubscribers s) callback)) tr1) as (evs2 & E2 & C2).
    eexists _, evs2. split; [exact E2|].
    apply global_call_in_calls. rewrite C2. apply elem_of_app. right.
    apply list_elem_of_fmap. exists callback. split; [done|]. apply set_add_elem.
Qed.

(** X3.  The closure returned by [subscribeAll] removes the global subscriber:
    afterwards neither [set] nor [delete] nor [clear] calls it; calling the
    closure again changes nothing. *)
Theorem unsubscribeAll_stops_notifications cb_throws callback s tr :
  ∃ s',
    unsubscribeAll callback s tr = (Normal tt, s', tr)
    ∧ unsubscribeAll callback s' tr = (Normal tt, s', tr)
    ∧ data s' = data s ∧ subscribers s' = subscribers s ∧ sets s' = sets s
    ∧ (∀ cb, cb ≠ callback → cb ∈ globalSubscribers s' ↔ cb ∈ globalSubscribers s)
    ∧ (∀ key v tr1, ∃ s2 evs,
         set cb_throws key v s' tr1 = (Normal tt, s2, tr1 ++ evs)
         ∧ ∀ k w, GlobalCall callback k w ∉ evs)
    ∧ (∀ key tr1, ∃ s2 evs,
         delete cb_throws key s' tr1 = (Normal tt, s2, tr1 ++ evs)
         ∧ ∀ k w, GlobalCall callback k w ∉ evs)
    ∧ (∀ tr1, ∃ s2 evs,
         clear cb_throws s' tr1 = (Normal tt, s2, tr1 ++ evs)
         ∧ ∀ k w, GlobalCall callback k w ∉ evs).
Proof.
  eexists. split; [reflexivity|]. simpl.
  assert (∀ (evs : list event) k w,
            GlobalCall callback k w ∈ evs → GlobalCall callback k w ∈ calls evs) as Hc.
  { intros evs k w H. unfold calls. by apply list_elem_of_filter. }
  split_and!; try done.
  - unfold unsubscribeAll, modify. simpl. by rewrite set_delete_idemp.
  - intros cb Hcb. unfold set_delete. rewrite list_elem_of_filter. by split; [intros [_ ?]|].
  - intros key v tr1.
    destruct (set_spec cb_throws key v
                (mk (data s) (subscribers s) (sets s)
                    (set_delete (globalSubscribers s) callback)) tr1) as (evs & E & C).
    eexists _, evs. split; [exact E|]. intros k w Hin%Hc. rewrite C in Hin.
    apply elem_of_app in Hin as [Hin|Hin].
    + by apply list_elem_of_fmap in Hin as (c & ? & _).
    + apply list_elem_of_fmap in Hin as (c & [= <- _ _] & Hin). simpl in Hin.
      by apply set_delete_not_elem in Hin.
  - intros key tr1.
    destruct (delete_spec cb_throws key
                (mk (data s) (subscribers s) (sets s)
                    (set_delete (globalSubscribers s) callback)) tr1) as (evs & E & C).
    eexists _, evs. split; [exact E|]. intros k w Hin%Hc. rewrite C in Hin.
    apply list_elem_of_fmap in Hin as (c & [= <- _ _] & Hin). simpl in Hin.
    by apply set_delete_not_elem in Hin.
  - intros tr1.
    destruct (clear_spec cb_throws
                (mk (data s) (subscribers s) (sets s)
                    (set_delete (globalSubscribers s) callback)) tr1) as (evs & E & C).
    eexists _, evs. split; [exact E|]. intros k w Hin%Hc. rewrite C in Hin.
    apply list_elem_of_bind in Hin as (k' & Hin & _).
    apply list_elem_of_fmap in Hin as (c & [= <- _ _] & Hin). simpl in Hin.
    by apply set_delete_not_elem in Hin.
Qed.

Lemma map_keys_delete {V} (m : jsmap V) k :
  map_keys (map_delete m k) = filter (λ k', k' ≠ k) (map_keys m).
Proof.
  unfold map_keys. induction m as [|[k' v'] m IH]; simpl; [done|].
  destruct (decide (k' = k)) as [->|Hne].
  - by rewrite filter_cons_False by (simpl; auto).
  - rewrite filter_cons_True by done. simpl. f_equal. by apply IH.
Qed.







Lemma set_delete_add l cb : set_delete (set_add l cb) cb = set_delete l cb.
Proof.
  unfold set_add, set_delete. destruct (decide (cb ∈ l)); [done|].
  rewrite filter_app, filter_cons_False, filter_nil, app_nil_r; [done|]. simpl. auto.
Qed.

Lemma set_add_idemp l cb : set_add (set_add l cb) cb = set_add l cb.
Proof. unfold set_add at 1. by rewrite decide_True by apply set_add_elem. Qed.

Lemma key_subscribers_subscribe key callback s :
  wf s →
  key_subscribers (subscribe_state key callback s) key
  = set_add (key_subscribers s key) callback.
Proof.
  intros Hwf. destruct (set_contents_subscribe key callback s Hwf) as [Hc Hm].
  unfold key_subscribers at 1. by rewrite Hm.
Qed.

(** X5.  A cancellation closure that outlives a [delete] of its key cancels
    the wrong subscription.  When [cb1] subscribes to a key on which no
    other callback is registered, the key is deleted, [cb2] subscribes to
    it and then the closure of [cb1] is called, the subscription of [cb2]
    is gone although its own closure was never called: no later [set] of
    the key calls a per-key callback. *)
Theorem stale_cancel_drops_later_subscription cb_throws key cb1 cb2 s tr :
  wf s →
  set_delete (key_subscribers s key) cb1 = [] →
  ∃ h1 h2 s' tr',
    (let* h1 := subscribe cb_throws key cb1 in
     delete cb_throws key ;;
     let* h2 := subscribe cb_throws key cb2 in
     unsubscribe h1 ;;
     ret (h1, h2)) s tr = (Normal (h1, h2), s', tr')
    ∧ h_cb h2 = cb2
    ∧ map_get (subscribers s') key = None
    ∧ key_subscribers s' key = []
    ∧ (∀ v tr1, ∃ s2 evs,
         set cb_throws key v s' tr1 = (Normal tt, s2, tr1 ++ evs)
         ∧ ∀ cb w, KeyCall cb w ∉ evs).
Proof.
  intros Hwf Hsingle.
  destruct (subscribe_spec cb_throws key cb1 s tr) as (evs1 & E1 & _).
  set (s1 := subscribe_state key cb1 s) in *.
  destruct (delete_spec cb_throws key s1 (tr ++ evs1)) as (evs2 & E2 & _).
  set (s2 := mk (map_delete (data s1) key) (map_delete (subscribers s1) key) (sets s1)
                (globalSubscribers s1)) in *.
  destruct (subscribe_spec cb_throws key cb2 s2 ((tr ++ evs1) ++ evs2)) as (evs3 & E3 & _).
  set (s3 := subscribe_state key cb2 s2) in *.
  set (h1 := mk_handle key (subscribe_set key s) cb1).
  set (h2 := mk_handle key (subscribe_set key s2) cb2).
  exists h1, h2, (unsubscribe_state h1 s3), (((tr ++ evs1) ++ evs2) ++ evs3).
  assert (map_get (subscribers (unsubscribe_state h1 s3)) key = None) as Hnone.
  { rewrite (subscribers_unsubscribe h1). rewrite bool_decide_true.
    { apply map_get_delete_eq. }
    rewrite (set_contents_unsubscribe h1). simpl.
    assert (set_contents s3 (subscribe_set key s) = set_add (key_subscribers s key) cb1) as ->.
    { destruct (set_contents_subscribe key cb1 s Hwf) as [Hc Hm]. fold s1 in Hc, Hm.
      rewrite <- Hc. unfold s3, subscribe_state.
      assert (map_get (subscribers s2) key = None) as -> by apply map_get_delete_eq.
      unfold set_contents. simpl.
      assert (subscribe_set key s < length (sets s1)) as Hlt.
      { eapply (wf_refs s1); [by apply subscribe_state_wf|exact Hm]. }
      by rewrite lookup_app_l. }
    by rewrite set_delete_add. }
  split_and!.
  - unfold bind. rewrite E1, E2, E3. by rewrite unsubscribe_spec.
  - done.
  - done.
  - unfold key_subscribers. by rewrite Hnone.
  - intros v tr1.
    destruct (set_spec cb_throws key v (unsubscribe_state h1 s3) tr1) as (evs & E & C).
    eexists _, evs. split; [exact E|].
    intros cb w Hin%key_call_in_calls. rewrite C in Hin.
    unfold key_subscribers in Hin. rewrite Hnone in Hin. simpl in Hin.
    by apply list_elem_of_fmap in Hin as (c & ? & _).
Qed.

Lemma stale_cancel_drops_later_subscription_witness :
  wf empty
  ∧ set_delete (key_subscribers empty "k") 1 = []
  ∧ ∃ h1 h2 s' tr',
      (let* h1 := subscribe never_throws "k" 1 in
       delete never_throws "k" ;;
       let* h2 := subscribe never_throws "k" 2 in
       unsubscribe h1 ;;
       ret (h1, h2)) empty [] = (Normal (h1, h2), s', tr')
      ∧ key_subscribers s' "k" = [].
Proof.
  split; [apply wf_empty|]. split; [reflexivity|].
  destruct (stale_cancel_drops_later_subscription never_throws "k" 1 2 empty [])
    as (h1 & h2 & s' & tr' & E & _ & _ & Hk & _); [apply wf_empty|reflexivity|].
  by exists h1, h2, s', tr'.
Defined.

(** X6.  Subscribing the same callback to the same key twice registers it
    once: the second call only replays the current value again, and then
    a [set] calls the callback once.  Calling either of the two closures
    once removes the callback for good. *)
Theorem double_subscription_single_cancel cb_throws key callback s tr :
  wf s →
  ∃ h1 h2 s' evs,
    (let* h1 := subscribe cb_throws key callback in
     let* h2 := subscribe cb_throws key callback in
     ret (h1, h2)) s tr = (Normal (h1, h2), s', tr ++ evs)
    ∧ h1 = h2
    ∧ key_subscribers s' key = set_add (key_subscribers s key) callback
    ∧ NoDup (key_subscribers s' key)
    ∧ calls evs = (if is_defined (lookup s key)
                   then [KeyCall callback (lookup s key); KeyCall callback (lookup s key)]
                   else [])
    ∧ (∀ tr1, ∃ s1,
         unsubscribe h1 s' tr1 = (Normal tt, s1, tr1)
         ∧ (callback ∉ key_subscribers s1 key)).
Proof.
  intros Hwf.
  destruct (subscribe_spec cb_throws key callback s tr) as (evs1 & E1 & C1).
  set (s1 := subscribe_state key callback s) in *.
  assert (wf s1) as Hwf1 by by apply subscribe_state_wf.
  destruct (subscribe_spec cb_throws key callback s1 (tr ++ evs1)) as (evs2 & E2 & C2).
  destruct (set_contents_subscribe key callback s Hwf) as [_ Hm]. fold s1 in Hm.
  assert (subscribe_set key s1 = subscribe_set key s) as Hset.
  { unfold subscribe_set at 1. by rewrite Hm. }
  assert (lookup s1 key = lookup s key) as Hl.
  { unfold lookup, s1, subscribe_state. by destruct (map_get (subscribers s) key). }
  assert (key_subscribers (subscribe_state key callback s1) key
          = set_add (key_subscribers s key) callback) as Hk.
  { rewrite key_subscribers_subscribe by done. unfold s1.
    rewrite key_subscribers_subscribe by done. apply set_add_idemp. }
  set (h := mk_handle key (subscribe_set key s) callback).
  exists h, h, (subscribe_state key callback s1), (evs1 ++ evs2). split_and!.
  - unfold bind. rewrite E1, E2, Hset. by rewrite (assoc_L (++)).
  - done.
  - done.
  - apply key_subscribers_NoDup. by apply subscribe_state_wf.
  - rewrite calls_app, C1, C2, Hl. by destruct (is_defined (lookup s key)).
  - intros tr1. exists (unsubscribe_state h (subscribe_state key callback s1)).
    split; [apply unsubscribe_spec|].
    unfold key_subscribers. rewrite (subscribers_unsubscribe h). simpl.
    case_bool_decide as Hempty.
    + rewrite map_get_delete_eq. apply not_elem_of_nil.
    + destruct (set_contents_subscribe key callback s1 Hwf1) as [_ Hm2].
      rewrite Hm2, Hset. rewrite (set_contents_unsubscribe h). apply set_delete_not_elem.
Qed.

Lemma double_subscription_single_cancel_witness :
  wf demo_store
  ∧ ∃ h1 h2 s' evs,
      (let* h1 := subscribe never_throws "k" 7 in
       let* h2 := subscribe never_throws "k" 7 in
       ret (h1, h2)) demo_store [] = (Normal (h1, h2), s', [] ++ evs)
      ∧ key_subscribers s' "k" = [7; 8].
Proof.
  split; [apply demo_store_wf|].
  destruct (double_subscription_single_cancel never_throws "k" 7 demo_store [])
    as (h1 & h2 & s' & evs & E & _ & Hk & _); [apply demo_store_wf|].
  by exists h1, h2, s', evs.
Defined.

(** X7.  [keys()] lists the keys in the order of their first [set]: a [set]
    of a key that has an entry leaves the list as it is, a [set] of a
    new key appends the key, and [delete] removes the key, so that a
    [delete] followed by a [set] moves the key to the end. *)
Theorem keys_follow_insertion_order cb_throws key v s tr :
  (∃ s1 evs,
     set cb_throws key v s tr = (Normal tt, s1, tr ++ evs)
     ∧ ∀ tr1, keys s1 tr1
              = (Normal (if decide (key ∈ map_keys (data s)) then map_keys (data s)
                         else map_keys (data s) ++ [key]), s1, tr1))
  ∧ (∃ s1 evs,
       delete cb_throws key s tr = (Normal tt, s1, tr ++ evs)
       ∧ ∀ tr1, keys s1 tr1
                = (Normal (filter (λ k, k ≠ key) (map_keys (data s))), s1, tr1))
  ∧ (∃ s1 evs,
       (delete cb_throws key ;; set cb_throws key v) s tr = (Normal tt, s1, tr ++ evs)
       ∧ ∀ tr1, keys s1 tr1
                = (Normal (filter (λ k, k ≠ key) (map_keys (data s)) ++ [key]), s1, tr1)).
Proof.
  split_and!.
  - destruct (set_spec cb_throws key v s tr) as (evs & E & _).
    eexists _, evs. split; [exact E|]. intros tr1. unfold keys, bind, get_state, ret. simpl.
    do 2 f_equal. f_equal. destruct (decide (key ∈ map_keys (data s))) as [Hin|Hin].
    + apply map_keys_set_present. by apply map_keys_get.
    + apply map_keys_set_absent. rewrite map_keys_get in Hin.
      destruct (map_get (data s) key); [|done]. by destruct Hin.
  - destruct (delete_spec cb_throws key s tr) as (evs & E & _).
    eexists _, evs. split; [exact E|]. intros tr1. unfold keys, bind, get_state, ret. simpl.
    by rewrite map_keys_delete.
  - destruct (delete_spec cb_throws key s tr) as (evs1 & E1 & _).
    destruct (set_spec cb_throws key v
                (mk (map_delete (data s) key) (map_delete (subscribers s) key) (sets s)
                    (globalSubscribers s)) (tr ++ evs1)) as (evs2 & E2 & _).
    eexists _, (evs1 ++ evs2). unfold bind at 1. rewrite E1, E2, (assoc_L (++)).
    split; [done|]. intros tr1. unfold keys, bind, get_state, ret. simpl.
    rewrite map_keys_set_absent by apply map_get_delete_eq. by rewrite map_keys_delete.
Qed.

End DataStateMore.

(** ** The routing layer: the other methods *)

Module DataAdapterLayerMore.
Import DataAdapterLayer DataAdapterLayerFacts DataAdapterLayerOps.

Lemma data_calls_app tr1 tr2 : data_calls (tr1 ++ tr2) = data_calls tr1 ++ data_calls tr2.
Proof. apply filter_app. Qed.

Lemma data_calls_calls tr : data_calls (calls tr) = data_calls tr.
Proof.
  unfold data_calls, calls. induction tr as [|e tr IH]; [done|].
  destruct e; simpl;
    rewrite ?filter_cons_True, ?filter_cons_False by (simpl; congruence); simpl;
    rewrite ?filter_cons_True, ?filter_cons_False by (simpl; congruence);
    by rewrite ?IH.
Qed.

Lemma data_calls_none tr : Forall (λ e, is_data_call e = false) tr → data_calls tr = [].
Proof.
  unfold data_calls. induction 1 as [|e tr He _ IH]; [done|].
  rewrite filter_cons_False by (simpl; congruence). exact IH.
Qed.

Lemma data_calls_all (f : nat → value) (l : list nat) :
  data_calls ((λ c, DataCall c (f c)) <$> l) = (λ c, DataCall c (f c)) <$> l.
Proof.
  unfold data_calls. induction l as [|c l IH]; [done|].
  rewrite fmap_cons, filter_cons_True by done. by rewrite IH.
Qed.

Lemma data_calls_notifications ds entries :
  data_calls (entries ≫= DataState.notifications ds) = [].
Proof.
  apply data_calls_none. apply Forall_forall. intros e Hin.
  apply list_elem_of_bind in Hin as (kv & Hin & _). unfold DataState.notifications in Hin.
  apply elem_of_app in Hin as [Hin|Hin];
    by apply list_elem_of_fmap in Hin as (c & -> & _).
Qed.

Section Deliveries.
Variable cb_throws : list event → option value.

(** The loop of [emitData]: where the envelope ends up, and which data
    callbacks are called. *)
Lemma emit_loop_deliveries (l : list data_callback) (msg : string) item w tr :
  ∃ ds evs,
    for_each l
      (λ cb, try_catch
               match cb with
               | Route _ => handleAdapterData cb_throws item
               | External n => call cb_throws (DataCall n (DataItem.to_value item))
               end
               (λ err, emit (ConsoleError msg err))) w tr
    = (Normal tt, with_dataState w ds, tr ++ evs)
    ∧ (∀ p k, checkout_result w item = Normal (p, k) →
              (∃ c, Route c ∈ l) ∨ DataState.lookup (dataState w) k = DataItem.to_value p →
              DataState.lookup ds k = DataItem.to_value p)
    ∧ data_calls evs = l ≫= deliveries w item.
Proof.
  revert w tr. induction l as [|cb l IH]; intros w tr.
  - exists (dataState w), []. rewrite with_dataState_id, app_nil_r. split; [done|].
    split; [|done]. intros p k _ [[c Hc%elem_of_nil]|H]; done.
  - cbn [for_each]. unfold bind. unfold try_catch at 1. destruct cb as [c|n].
    + destruct (checkout_result w item) as [[p k]|e] eqn:Hc.
      * destruct (handleAdapterData_normal cb_throws item w tr p k Hc)
          as (ds1 & e1 & e2 & E & _ & Hds & C1 & C2).
        rewrite E.
        destruct (IH (with_dataState w ds1) (tr ++ e1 ++ e2)) as (ds2 & e3 & E3 & H3 & D3).
        rewrite E3. exists ds2, ((e1 ++ e2) ++ e3).
        split; [by rewrite with_dataState_twice, !app_assoc|]. split.
        -- intros p' k' [= <- <-] _. apply (H3 p k); [exact Hc|]. right.
           simpl. rewrite Hds. apply lookup_after_writes.
        -- rewrite !data_calls_app, D3. rewrite bind_cons. f_equal.
           rewrite <- (data_calls_calls e1), <- (data_calls_calls e2), C1, C2.
           rewrite data_calls_notifications. simpl. rewrite Hc. simpl.
           apply (data_calls_all (λ _, DataItem.to_value p)).
      * rewrite (handleAdapterData_thrown cb_throws item w tr e Hc).
        destruct (IH w (tr ++ [ConsoleError msg_handling e])) as (ds2 & e3 & E3 & H3 & D3).
        rewrite E3. exists ds2, ([ConsoleError msg_handling e] ++ e3).
        split; [by rewrite !app_assoc|]. split; [by intros p' k' [=]|].
        rewrite data_calls_app, D3, bind_cons. simpl. by rewrite Hc.
    + unfold call at 1.
      destruct (cb_throws (tr ++ [DataCall n (DataItem.to_value item)])) as [err|].
      * unfold emit at 1.
        destruct (IH w ((tr ++ [DataCall n (DataItem.to_value item)])
                          ++ [ConsoleError msg err])) as (ds2 & e3 & E3 & H3 & D3).
        rewrite E3. eexists ds2, ([_; _] ++ e3).
        split; [by rewrite <- !app_assoc|]. split.
        -- intros p k Hc [[c Hin]|H]; apply H3; try done; [|by right].
           apply elem_of_cons in Hin as [?|Hin]; [done|]. left. eauto.
        -- by rewrite data_calls_app, D3, bind_cons.
      * destruct (IH w (tr ++ [DataCall n (DataItem.to_value item)]))
          as (ds2 & e3 & E3 & H3 & D3).
        rewrite E3. eexists ds2, ([_] ++ e3).
        split; [by rewrite <- !app_assoc|]. split.
        -- intros p k Hc [[c Hin]|H]; apply H3; try done; [|by right].
           apply elem_of_cons in Hin as [?|Hin]; [done|]. left. eauto.
        -- by rewrite data_calls_app, D3, bind_cons.
Qed.

Lemma emitData_deliveries a item w tr :
  ∃ ds evs,
    emitData cb_throws a item w tr = (Normal tt, with_dataState w ds, tr ++ evs)
    ∧ (∀ p k, checkout_result w item = Normal (p, k) →
              (∃ c, Route c ∈ adapter_callbacks w a) →
              DataState.lookup ds k = DataItem.to_value p)
    ∧ data_calls evs = adapter_callbacks w a ≫= deliveries w item.
Proof.
  unfold emitData, bind, get_state.
  destruct (emit_loop_deliveries (adapter_callbacks w a)
              (msg_adapter_callback (adapter_name w a)) item w tr) as (ds & evs & E & H & D).
  exists ds, evs. split; [done|]. split; [|done]. intros p k Hc Hr. apply (H p k Hc). by left.
Qed.

End Deliveries.

Lemma adapter_callbacks_onData w a cb :
  a < length (objects w) →
  adapter_callbacks (onData a cb w) a
  = if decide (cb ∈ adapter_callbacks w a) then adapter_callbacks w a
    else adapter_callbacks w a ++ [cb].
Proof.
  intros Hlt. unfold adapter_callbacks, onData. simpl. rewrite list_lookup_alter_eq.
  destruct (lookup_lt_is_Some_2 (objects w) a Hlt) as [o ->]. simpl.
  by destruct (decide (cb ∈ adapterCallbacks o)).
Qed.

Lemma map_values_set_absent {V} (m : jsmap V) k v :
  map_get m k = None → map_values (map_set m k v) = map_values m ++ [v].
Proof.
  unfold map_values. induction m as [|[k' v'] m IH]; simpl; [done|].
  destruct (decide (k' = k)); [done|]. intros H. simpl. f_equal. by apply IH.
Qed.

Lemma map_has_false {V} (m : jsmap V) k : map_has m k = false ↔ map_get m k = None.
Proof. unfold map_has. by destruct (map_get m k). Qed.

Lemma removeAdapter_found nm a isConnected w tr :
  map_get (adapters w) nm = Some a →
  removeAdapter nm isConnected Resolves w tr
  = (Normal tt,
     mk (map_delete (adapters w) nm) (dataState w) (enableLogging w)
        (map_delete (checkoutFunctions w) nm) (dataCallbacks w) (objects w) (closures w),
     tr ++ (if isConnected then [AdapterDisconnect a] else [])
        ++ (if enableLogging w then [ConsoleLog (msg_removed nm)] else [])).
Proof.
  intros Hget. unfold removeAdapter, bind, get_state. rewrite Hget.
  destruct isConnected, (enableLogging w) eqn:El; simpl; unfold emit, modify, ret; simpl;
    rewrite ?El; simpl; rewrite <- ?app_assoc, ?app_nil_r; done.
Qed.

(** X8.  [removeAdapter(name)] throws for a name that is not registered and
    changes nothing.  It calls [disconnect()] only on an adapter that
    reports being connected; when that fails, [removeAdapter] fails with
    the same error and the adapter and its transform stay registered.
    Otherwise the adapter and the transform registered under [name] are
    removed, other registrations are kept, and removing the name again
    throws. *)
Theorem removeAdapter_outcomes nm isConnected r w tr :
  (map_get (adapters w) nm = None →
   removeAdapter nm isConnected r w tr = (Thrown (mk_error (msg_not_found nm)), w, tr))
  ∧ (∀ a e,
       map_get (adapters w) nm = Some a → isConnected = true → r = Rejects e →
       removeAdapter nm isConnected r w tr = (Thrown e, w, tr ++ [AdapterDisconnect a]))
  ∧ (∀ a,
       map_get (adapters w) nm = Some a → isConnected = false ∨ r = Resolves →
       ∃ w',
         removeAdapter nm isConnected r w tr
         = (Normal tt, w',
            tr ++ (if isConnected then [AdapterDisconnect a] else [])
               ++ (if enableLogging w then [ConsoleLog (msg_removed nm)] else []))
         ∧ map_get (adapters w') nm = None
         ∧ map_get (checkoutFunctions w') nm = None
         ∧ (∀ nm', nm' ≠ nm →
                   map_get (adapters w') nm' = map_get (adapters w) nm'
                   ∧ map_get (checkoutFunctions w') nm' = map_get (checkoutFunctions w) nm')
         ∧ dataState w' = dataState w ∧ dataCallbacks w' = dataCallbacks w
         ∧ objects w' = objects w
         ∧ (∀ tr1, removeAdapter nm isConnected r w' tr1
                   = (Thrown (mk_error (msg_not_found nm)), w', tr1))).
Proof.
  split_and!.
  - intros Hget. unfold removeAdapter, bind, get_state. by rewrite Hget.
  - intros a e Hget -> ->. unfold removeAdapter, bind, get_state. by rewrite Hget.
  - intros a Hget Hok.
    assert (removeAdapter nm isConnected r w tr
            = removeAdapter nm isConnected Resolves w tr) as ->.
    { destruct Hok as [->| ->]; [|done].
      unfold removeAdapter, bind, get_state. by rewrite Hget. }
    rewrite (removeAdapter_found nm a) by done. eexists. split; [done|]. simpl.
    split_and!; try done.
    + apply map_get_delete_eq.
    + apply map_get_delete_eq.
    + intros nm' Hne. by rewrite !map_get_delete_ne.
    + intros tr1. unfold removeAdapter, bind, get_state. simpl.
      by rewrite map_get_delete_eq.
Qed.

(** X9.  [removeAdapter] does not take its routing closure off the adapter
    (it never calls [offData]): what an adapter emits after it has been
    removed from the layer is still written to the store and still
    delivered to every data callback of the layer. *)
Theorem removed_adapter_still_delivers cb_throws nm a isConnected w tr :
  wf w →
  map_get (adapters w) nm = Some a →
  ∃ w' tr',
    removeAdapter nm isConnected Resolves w tr = (Normal tt, w', tr')
    ∧ (∀ tr1, getAdapter nm w' tr1 = (Normal None, w', tr1))
    ∧ adapter_callbacks w' a = adapter_callbacks w a
    ∧ (∀ item p k tr1,
         checkout_result w' item = Normal (p, k) →
         ∃ ds evs,
           emitData cb_throws a item w' tr1 = (Normal tt, with_dataState w' ds, tr1 ++ evs)
           ∧ DataState.lookup ds k = DataItem.to_value p
           ∧ (∀ c, c ∈ dataCallbacks w → DataCall c (DataItem.to_value p) ∈ evs)).
Proof.
  intros Hwf Hget. rewrite (removeAdapter_found nm a) by done.
  eexists _, _. split; [done|].
  set (w' := mk _ _ _ _ _ _ _).
  destruct (Hwf nm a Hget) as [c0 Hc0].
  split_and!.
  - intros tr1. unfold getAdapter, bind, get_state, ret. simpl.
    by rewrite map_get_delete_eq.
  - done.
  - intros item p k tr1 Hc.
    destruct (emitData_deliveries cb_throws a item w' tr1) as (ds & evs & E & Hl & D).
    exists ds, evs. split; [exact E|]. split; [apply Hl; [done|by exists c0]|].
    intros c Hin.
    assert (DataCall c (DataItem.to_value p) ∈ data_calls evs) as Hd.
    { rewrite D. apply list_elem_of_bind. exists (Route c0). split; [|exact Hc0].
      simpl. rewrite Hc. simpl. apply list_elem_of_fmap. by exists c. }
    unfold data_calls in Hd. by apply list_elem_of_filter in Hd as [_ ?].
Qed.

Lemma removed_adapter_still_delivers_witness :
  wf one_adapter_layer
  ∧ map_get (adapters one_adapter_layer) "a" = Some 0
  ∧ ∃ w' tr',
      removeAdapter "a" true Resolves one_adapter_layer [] = (Normal tt, w', tr')
      ∧ ∃ ds evs,
          emitData never_throws 0 (sensor_item "e1") w' tr'
          = (Normal tt, with_dataState w' ds, tr' ++ evs)
          ∧ DataCall 5 (DataItem.to_value (sensor_item "e1")) ∈ evs.
Proof.
  assert (wf one_adapter_layer) as Hwf.
  { intros nm a. unfold one_adapter_layer. simpl. case_decide; [|done].
    intros [= <-]. exists 0. apply list_elem_of_singleton. done. }
  split; [exact Hwf|]. split; [reflexivity|].
  destruct (removed_adapter_still_delivers never_throws "a" 0 true one_adapter_layer [] Hwf)
    as (w' & tr' & E & G & _ & H); [reflexivity|].
  exists w', tr'. split; [exact E|].
  destruct (H (sensor_item "e1") (sensor_item "e1") "sensor_e1" tr') as (ds & evs & E1 & _ & D).
  { injection E as <- _. reflexivity. }
  exists ds, evs. split; [exact E1|]. apply D. apply list_elem_of_singleton. done.
Defined.

(** X10.  Removing an adapter and adding the same adapter object again leaves
    two routing closures on it: from then on every envelope it emits is
    handled twice, and every data callback of the layer is called twice
    per envelope. *)
Theorem readded_adapter_delivers_twice cb_throws a isConnected w tr :
  a < length (objects w) →
  map_has (adapters w) (adapter_name w a) = false →
  closures_bounded w →
  ∃ w' tr',
    (addAdapter a ;;
     removeAdapter (adapter_name w a) isConnected Resolves ;;
     addAdapter a) w tr = (Normal tt, w', tr')
    ∧ map_get (adapters w') (adapter_name w a) = Some a
    ∧ adapter_callbacks w' a
      = adapter_callbacks w a ++ [Route (closures w); Route (S (closures w))]
    ∧ dataCallbacks w' = dataCallbacks w
    ∧ (∀ item p k tr1,
         checkout_result w' item = Normal (p, k) →
         ∃ ds evs,
           emitData cb_throws a item w' tr1 = (Normal tt, with_dataState w' ds, tr1 ++ evs)
           ∧ data_calls evs
             = (adapter_callbacks w a ≫= deliveries w' item)
               ++ ((λ c, DataCall c (DataItem.to_value p)) <$> dataCallbacks w)
               ++ ((λ c, DataCall c (DataItem.to_value p)) <$> dataCallbacks w)).
Proof.
  intros Hlt Hfresh Hb.
  set (nm := adapter_name w a). set (n := closures w).
  set (w1 := onData a (Route n)
               (mk (map_set (adapters w) nm a) (dataState w) (enableLogging w)
                   (checkoutFunctions w) (dataCallbacks w) (objects w) (S n))).
  set (w2 := mk (map_delete (adapters w1) nm) (dataState w1) (enableLogging w1)
                (map_delete (checkoutFunctions w1) nm) (dataCallbacks w1) (objects w1)
                (closures w1)).
  set (w3 := onData a (Route (S n))
               (mk (map_set (adapters w2) nm a) (dataState w2) (enableLogging w2)
                   (checkoutFunctions w2) (dataCallbacks w2) (objects w2) (S (S n)))).
  assert (adapter_callbacks w1 a = adapter_callbacks w a ++ [Route n]) as Hc1.
  { unfold w1. rewrite adapter_callbacks_onData by done.
    rewrite decide_False; [done|]. intros Hin. apply Hb in Hin. unfold n in Hin. lia. }
  assert (adapter_callbacks w3 a = adapter_callbacks w a ++ [Route n; Route (S n)]) as Hc3.
  { unfold w3. rewrite adapter_callbacks_onData.
    2:{ simpl. unfold w1, onData. simpl. by rewrite length_alter. }
    change (adapter_callbacks (mk _ _ _ _ _ (objects w2) _) a) with (adapter_callbacks w1 a).
    rewrite Hc1, decide_False; [by rewrite <- app_assoc|].
    intros [Hin|Hin]%elem_of_app.
    - apply Hb in Hin. unfold n in Hin. lia.
    - apply list_elem_of_singleton in Hin. injection Hin. lia. }
  exists w3, (((tr ++ (if enableLogging w then [ConsoleLog (msg_added nm)] else []))
                 ++ (if isConnected then [AdapterDisconnect a] else [])
                 ++ (if enableLogging w then [ConsoleLog (msg_removed nm)] else []))
                ++ (if enableLogging w then [ConsoleLog (msg_added nm)] else [])).
  split_and!.
  - unfold bind at 1. rewrite addAdapter_fresh by done. fold nm n w1.
    unfold bind at 1. rewrite (removeAdapter_found nm a).
    2:{ unfold w1. simpl. apply map_get_set_eq. }
    fold w2. rewrite addAdapter_fresh.
    2:{ apply map_has_false. unfold w2, w1, adapter_name. simpl.
        rewrite list_lookup_alter_eq. fold (adapter_name w a). fold nm.
        destruct (objects w !! a) as [o|] eqn:Ho; simpl.
        - unfold nm, adapter_name. rewrite Ho. simpl. apply map_get_delete_eq.
        - apply lookup_ge_None in Ho. lia. }
    assert (adapter_name w2 a = nm) as ->.
    { unfold w2. change (adapter_name (mk _ _ _ _ _ (objects w1) _) a)
        with (adapter_name w1 a).
      unfold w1. by rewrite adapter_name_onData. }
    done.
  - unfold w3. simpl. apply map_get_set_eq.
  - exact Hc3.
  - done.
  - intros item p k tr1 Hc.
    destruct (emitData_deliveries cb_throws a item w3 tr1) as (ds & evs & E & _ & D).
    exists ds, evs. split; [exact E|]. rewrite D, Hc3, bind_app. f_equal.
    simpl. rewrite Hc. simpl. by rewrite app_nil_r.
Qed.

Lemma readded_adapter_delivers_twice_witness :
  ∃ w' tr',
    (addAdapter 0 ;; removeAdapter "a" false Resolves ;; addAdapter 0)
      (create false [mk_adapter "a" []]) [] = (Normal tt, w', tr')
    ∧ adapter_callbacks w' 0 = [Route 0; Route 1].
Proof.
  destruct (readded_adapter_delivers_twice never_throws 0 false
              (create false [mk_adapter "a" []]) [])
    as (w' & tr' & E & _ & Hc & _).
  - simpl. lia.
  - reflexivity.
  - intros a c Hin. unfold adapter_callbacks in Hin. simpl in Hin.
    destruct a as [|a]; simpl in Hin; by apply elem_of_nil in Hin.
  - by exists w', tr'.
Defined.

(** X11.  [addAdapter] with an adapter whose name is free registers it after
    the adapters registered before, logs when logging is on, and puts a
    routing closure on it: every envelope the adapter emits from then on
    is stored under its key and delivered to every data callback of the
    layer.  Adding the same adapter a second time throws. *)
Theorem addAdapter_registers_and_routes cb_throws a w tr :
  a < length (objects w) →
  map_has (adapters w) (adapter_name w a) = false →
  ∃ w',
    addAdapter a w tr
    = (Normal tt, w',
       tr ++ if enableLogging w then [ConsoleLog (msg_added (adapter_name w a))] else [])
    ∧ (∀ tr1, getAdapter (adapter_name w a) w' tr1 = (Normal (Some a), w', tr1))
    ∧ (∀ tr1, getAllAdapters w' tr1 = (Normal (map_values (adapters w) ++ [a]), w', tr1))
    ∧ (∀ nm, nm ≠ adapter_name w a → map_get (adapters w') nm = map_get (adapters w) nm)
    ∧ dataState w' = dataState w ∧ checkoutFunctions w' = checkoutFunctions w
    ∧ dataCallbacks w' = dataCallbacks w
    ∧ (∀ item p k tr1,
         checkout_result w' item = Normal (p, k) →
         ∃ ds evs,
           emitData cb_throws a item w' tr1 = (Normal tt, with_dataState w' ds, tr1 ++ evs)
           ∧ DataState.lookup ds k = DataItem.to_value p
           ∧ (∀ c, c ∈ dataCallbacks w → DataCall c (DataItem.to_value p) ∈ evs))
    ∧ (∀ tr1, ∃ e, addAdapter a w' tr1 = (Thrown e, w', tr1)).
Proof.
  intros Hlt Hfresh. rewrite addAdapter_fresh by done.
  set (w' := onData a _ _). exists w'. split; [done|].
  assert (map_get (adapters w') (adapter_name w a) = Some a) as Hget
    by apply map_get_set_eq.
  assert (Route (closures w) ∈ adapter_callbacks w' a) as Hroute.
  { by apply adapter_callbacks_onData_new. }
  split_and!; try done.
  - intros tr1. unfold getAdapter, bind, get_state, ret. by rewrite Hget.
  - intros tr1. unfold getAllAdapters, bind, get_state, ret. do 2 f_equal.
    simpl. rewrite map_values_set_absent; [done|]. by apply map_has_false.
  - intros nm Hne. simpl. by rewrite map_get_set_ne.
  - intros item p k tr1 Hc.
    destruct (emitData_deliveries cb_throws a item w' tr1) as (ds & evs & E & Hl & D).
    exists ds, evs. split; [exact E|]. split; [apply Hl; [done|by eexists]|].
    intros c Hin.
    assert (DataCall c (DataItem.to_value p) ∈ data_calls evs) as Hd.
    { rewrite D. apply list_elem_of_bind. exists (Route (closures w)).
      split; [|exact Hroute]. simpl. rewrite Hc. simpl.
      apply list_elem_of_fmap. by exists c. }
    unfold data_calls in Hd. by apply list_elem_of_filter in Hd as [_ ?].
  - intros tr1. eexists. apply addAdapter_duplicate. apply map_has_true.
    assert (adapter_name w' a = adapter_name w a) as ->.
    { unfold w'. by rewrite adapter_name_onData. }
    by rewrite Hget.
Qed.

Lemma addAdapter_registers_and_routes_witness :
  ∃ w',
    addAdapter 0 (create true [mk_adapter "a" []]) []
    = (Normal tt, w', [ConsoleLog "Added adapter: a"])
    ∧ getAllAdapters w' [] = (Normal [0], w', []).
Proof.
  destruct (addAdapter_registers_and_routes never_throws 0
              (create true [mk_adapter "a" []]) [])
    as (w' & E & _ & G & _); [simpl; lia|reflexivity|].
  exists w'. split; [exact E|apply G].
Defined.

(** X12.  [connectAdapter(name)] and [disconnectAdapter(name)] throw for a
    name that is not registered, without calling any adapter.  For a
    registered name they call the adapter's method once and end as its
    promise does; success is logged when logging is on, and a failure is
    passed on without any console output. *)
Theorem single_adapter_connect_outcomes nm r w tr :
  (map_get (adapters w) nm = None →
   connectAdapter nm r w tr = (Thrown (mk_error (msg_not_found nm)), w, tr)
   ∧ disconnectAdapter nm r w tr = (Thrown (mk_error (msg_not_found nm)), w, tr))
  ∧ (∀ a,
       map_get (adapters w) nm = Some a →
       connectAdapter nm r w tr
       = (outcome_of r, w,
          tr ++ AdapterConnect a ::
                match r with
                | Resolves => if enableLogging w then [ConsoleLog (msg_connected nm)] else []
                | Rejects _ => []
                end)
       ∧ disconnectAdapter nm r w tr
         = (outcome_of r, w,
            tr ++ AdapterDisconnect a ::
                  match r with
                  | Resolves =>
                      if enableLogging w then [ConsoleLog (msg_disconnected nm)] else []
                  | Rejects _ => []
                  end)).
Proof.
  split.
  - intros Hget. unfold connectAdapter, disconnectAdapter, bind, get_state.
    by rewrite Hget.
  - intros a Hget. unfold connectAdapter, disconnectAdapter, bind, get_state.
    rewrite Hget. destruct r as [|e]; simpl; [|done].
    destruct (enableLogging w) eqn:El; simpl; unfold emit, ret; simpl;
      rewrite ?El; simpl; by rewrite <- ?app_assoc.
Qed.

(** X13.  The transform registered under a name is applied to the envelopes
    whose source is that name, among them all envelopes the adapter of
    that name creates; a later registration replaces an earlier one,
    envelopes of other sources are treated as before, and after
    [removeCheckoutFunction] the envelope is stored unchanged under
    ["<name>_<id>"]. *)
Theorem checkout_registration_round_trip cb_throws nm fn item w tr :
  nm ≠ EmptyString →
  DataItem.source item = Some nm →
  (∀ d i t1 t2 rnd, DataItem.source (createDataItem nm d i t1 t2 rnd) = Some nm)
  ∧ ∃ w1 w2,
      setCheckoutFunction nm fn w tr = (Normal tt, w1, tr)
      ∧ checkout_result w1 item
        = match fn (DataItem.data item) with
          | Normal r => Normal (DataItem.with_data item (result_data r), result_key r)
          | Thrown e => Thrown e
          end
      ∧ (∀ item2, DataItem.source_or item2 EmptyString ≠ nm →
                  checkout_result w1 item2 = checkout_result w item2)
      ∧ removeCheckoutFunction nm w1 tr = (Normal tt, w2, tr)
      ∧ checkout_result w2 item = Normal (item, nm +:+ "_" +:+ DataItem.id item)
      ∧ ∃ ds evs,
          handleAdapterData cb_throws item w2 tr
          = (Normal tt, with_dataState w2 ds, tr ++ evs)
          ∧ DataState.lookup ds (nm +:+ "_" +:+ DataItem.id item) = DataItem.to_value item.
Proof.
  intros Hnm Hsrc. split; [done|].
  assert (∀ fb, DataItem.source_or item fb = nm) as Hso.
  { intros fb. unfold DataItem.source_or. rewrite Hsrc.
    destruct (String.eqb_spec nm EmptyString); done. }
  eexists _, _. split; [reflexivity|]. split_and!.
  - unfold checkout_result. simpl. by rewrite Hso, map_get_set_eq.
  - intros item2 Hne. unfold checkout_result. simpl. by rewrite map_get_set_ne.
  - reflexivity.
  - unfold checkout_result, generateStateKey. simpl.
    by rewrite !Hso, map_get_delete_eq.
  - set (w2 := mk _ _ _ _ _ _ _).
    assert (checkout_result w2 item = Normal (item, nm +:+ "_" +:+ DataItem.id item)) as Hc.
    { unfold checkout_result, generateStateKey, w2. simpl.
      by rewrite !Hso, map_get_delete_eq. }
    destruct (handleAdapterData_normal cb_throws item w2 tr _ _ Hc)
      as (ds & e1 & e2 & E & _ & Hds & _).
    exists ds, (e1 ++ e2). split; [exact E|]. rewrite Hds. apply lookup_after_writes.
Qed.

Lemma checkout_registration_round_trip_witness :
  "sensor" ≠ EmptyString
  ∧ DataItem.source (sensor_item "e1") = Some "sensor"
  ∧ ∃ w1 w2,
      setCheckoutFunction "sensor" sensor_checkout (create false []) [] = (Normal tt, w1, [])
      ∧ removeCheckoutFunction "sensor" w1 [] = (Normal tt, w2, [])
      ∧ checkout_result w2 (sensor_item "e1") = Normal (sensor_item "e1", "sensor_e1").
Proof.
  split; [done|]. split; [reflexivity|].
  destruct (checkout_registration_round_trip never_throws "sensor" sensor_checkout
              (sensor_item "e1") (create false []) [])
    as (_ & w1 & w2 & E1 & _ & _ & E2 & C & _); [done|reflexivity|].
  by exists w1, w2.
Defined.

Lemma key_separator_unique (n1 n2 i1 i2 : string) :
  has_underscore n1 = false → has_underscore n2 = false →
  n1 +:+ "_" +:+ i1 = n2 +:+ "_" +:+ i2 → n1 = n2 ∧ i1 = i2.
Proof.
  assert (∀ t, EmptyString +:+ t = t) as Hnil by done.
  assert (∀ c s t, String c s +:+ t = String c (s +:+ t)) as Hcons by done.
  revert n2. induction n1 as [|c n1 IH]; intros [|c' n2]; simpl;
    rewrite ?Hnil, ?Hcons, ?Hnil.
  - by intros _ _ [= ->].
  - intros _ H [= <- _]. by simpl in H.
  - intros H _ [= -> _]. by simpl in H.
  - destruct (Ascii.eqb c "_") eqn:Ec; [done|].
    destruct (Ascii.eqb c' "_") eqn:Ec'; [done|].
    intros H1 H2 [= -> Heq]. destruct (IH n2 H1 H2 Heq) as [-> ->]. done.
Qed.

(** X14.  Without transforms, envelopes of two adapters are stored under the
    same key only if source and id agree, as long as the adapter names
    are not empty and hold no underscore.  With an underscore in a name
    the keys of different adapters can coincide, and the later envelope
    then overwrites the earlier one. *)
Theorem default_keys_collide_only_with_underscores :
  (∀ item1 item2 n1 n2,
     DataItem.source item1 = Some n1 → DataItem.source item2 = Some n2 →
     n1 ≠ EmptyString → n2 ≠ EmptyString →
     has_underscore n1 = false → has_underscore n2 = false →
     generateStateKey item1 = generateStateKey item2 →
     n1 = n2 ∧ DataItem.id item1 = DataItem.id item2)
  ∧ (∃ item1 item2,
       DataItem.source item1 ≠ DataItem.source item2
       ∧ DataItem.id item1 ≠ DataItem.id item2
       ∧ generateStateKey item1 = generateStateKey item2).
Proof.
  split.
  - intros item1 item2 n1 n2 H1 H2 Hn1 Hn2 Hu1 Hu2. unfold generateStateKey.
    assert (∀ item n fb, DataItem.source item = Some n → n ≠ EmptyString →
                         DataItem.source_or item fb = n) as Hso.
    { intros item n fb Hs Hn. unfold DataItem.source_or. rewrite Hs.
      destruct (String.eqb_spec n EmptyString); done. }
    rewrite (Hso item1 n1), (Hso item2 n2) by done.
    by apply key_separator_unique.
  - exists (DataItem.mk "c" 0 VNull (Some "a_b")), (DataItem.mk "b_c" 0 VNull (Some "a")).
    split_and!; done.
Qed.

(** X15.  The closure returned by the layer's [onData] takes the callback off
    again.  [onData] puts a new callback after the callbacks registered
    before it and changes nothing when the callback is registered
    already: a handled envelope is delivered, processed, to the earlier
    callbacks in their order and then to the new one, to each once.  Once
    the closure has been called, the other callbacks are left in their
    order and handling an envelope never calls the callback. *)
Theorem layer_onData_round_trip cb_throws callback item p k w tr :
  checkout_result w item = Normal (p, k) →
  NoDup (dataCallbacks w) →
  ∃ w1 w2,
    onLayerData callback w tr = (Normal tt, w1, tr)
    ∧ dataCallbacks w1
      = (if decide (callback ∈ dataCallbacks w) then dataCallbacks w
         else dataCallbacks w ++ [callback])
    ∧ onLayerData callback w1 tr = (Normal tt, w1, tr)
    ∧ (∃ ds evs,
         handleAdapterData cb_throws item w1 tr
         = (Normal tt, with_dataState w1 ds, tr ++ evs)
         ∧ data_calls evs
           = ((λ c, DataCall c (DataItem.to_value p)) <$> dataCallbacks w)
             ++ (if decide (callback ∈ dataCallbacks w) then []
                 else [DataCall callback (DataItem.to_value p)])
         ∧ callback ∈ dataCallbacks w1 ∧ NoDup (dataCallbacks w1))
    ∧ offLayerData callback w1 tr = (Normal tt, w2, tr)
    ∧ dataCallbacks w2 = filter (λ c, c ≠ callback) (dataCallbacks w)
    ∧ (∃ ds evs,
         handleAdapterData cb_throws item w2 tr
         = (Normal tt, with_dataState w2 ds, tr ++ evs)
         ∧ data_calls evs
           = (λ c, DataCall c (DataItem.to_value p))
               <$> filter (λ c, c ≠ callback) (dataCallbacks w)
         ∧ ∀ v, DataCall callback v ∉ evs).
Proof.
  intros Hc Hnd.
  assert (set_add (dataCallbacks w) callback
          = if decide (callback ∈ dataCallbacks w) then dataCallbacks w
            else dataCallbacks w ++ [callback]) as Hadd by done.
  assert (set_delete (set_add (dataCallbacks w) callback) callback
          = filter (λ c, c ≠ callback) (dataCallbacks w)) as Hdel.
  { unfold set_add, set_delete. destruct (decide (callback ∈ dataCallbacks w)); [done|].
    rewrite filter_app, filter_cons_False, filter_nil, app_nil_r; [done|]. simpl. auto. }
  eexists _, _. split; [reflexivity|]. split_and!.
  - exact Hadd.
  - unfold onLayerData, modify. simpl. do 2 f_equal.
    unfold set_add at 1. by rewrite decide_True by apply set_add_elem.
  - set (w1 := mk _ _ _ _ _ _ _).
    destruct (handleAdapterData_normal cb_throws item w1 tr p k Hc)
      as (ds & e1 & e2 & E & _ & _ & C1 & C2).
    exists ds, (e1 ++ e2). split; [exact E|]. split_and!.
    + rewrite data_calls_app, <- (data_calls_calls e1), <- (data_calls_calls e2), C1, C2.
      rewrite data_calls_notifications. simpl.
      rewrite (data_calls_all (λ _, DataItem.to_value p)), Hadd.
      destruct (decide (callback ∈ dataCallbacks w)); [by rewrite app_nil_r|].
      by rewrite fmap_app.
    + apply set_add_elem.
    + by apply set_add_NoDup.
  - reflexivity.
  - exact Hdel.
  - set (w2 := mk _ _ _ _ _ _ _).
    destruct (handleAdapterData_normal cb_throws item w2 tr p k Hc)
      as (ds & e1 & e2 & E & _ & _ & C1 & C2).
    assert (data_calls (e1 ++ e2)
            = (λ c, DataCall c (DataItem.to_value p))
                <$> filter (λ c, c ≠ callback) (dataCallbacks w)) as Hd.
    { rewrite data_calls_app, <- (data_calls_calls e1), <- (data_calls_calls e2), C1, C2.
      rewrite data_calls_notifications. simpl.
      rewrite (data_calls_all (λ _, DataItem.to_value p)). by rewrite Hdel. }
    exists ds, (e1 ++ e2). split; [exact E|]. split; [exact Hd|]. intros v Hin.
    assert (DataCall callback v ∈ data_calls (e1 ++ e2)) as Hm.
    { unfold data_calls. by apply list_elem_of_filter. }
    rewrite Hd in Hm. apply list_elem_of_fmap in Hm as (c & [= <- _] & Hm).
    apply list_elem_of_filter in Hm as [Hm _]. done.
Qed.

Lemma layer_onData_round_trip_witness :
  checkout_result one_adapter_layer (sensor_item "e1")
  = Normal (sensor_item "e1", "sensor_e1")
  ∧ NoDup (dataCallbacks one_adapter_layer)
  ∧ ∃ w1 w2,
      onLayerData 6 one_adapter_layer [] = (Normal tt, w1, [])
      ∧ offLayerData 6 w1 [] = (Normal tt, w2, [])
      ∧ dataCallbacks w1 = [5; 6] ∧ dataCallbacks w2 = [5].
Proof.
  assert (NoDup (dataCallbacks one_adapter_layer)) as Hnd.
  { apply NoDup_singleton. }
  split; [reflexivity|]. split; [exact Hnd|].
  destruct (layer_onData_round_trip never_throws 6 (sensor_item "e1") (sensor_item "e1")
              "sensor_e1" one_adapter_layer [] eq_refl Hnd)
    as (w1 & w2 & E1 & _ & _ & _ & E2 & _).
  exists w1, w2. split; [exact E1|]. split; [exact E2|].
  injection E1 as <-. injection E2 as <-. split; reflexivity.
Defined.

End DataAdapterLayerMore.

(** ** The push adapters: disconnecting *)

Module SSEAdapterMore.
Import SSEAdapter SSEAdapterOps.

Section Disconnect.
Variable opts : options.
Variable JSON_parse : string → option value.

Local Abbreviation step := (step opts JSON_parse).
Local Abbreviation run := (run opts JSON_parse).

Lemma sse_not_open st src :
  Forall (λ b, b = false) (sources st) → source_open st src = false.
Proof.
  intros Hall. unfold source_open. apply bool_decide_eq_false. intros Hsrc.
  rewrite Forall_forall in Hall. by specialize (Hall true (list_elem_of_lookup_2 _ _ _ Hsrc)).
Qed.

Lemma sse_idle_step i st : idle st → is_connect i = false → step i st = (st, []).
Proof.
  intros (Hc & Hs & Htm & Hall) Hi. destruct st as [c es att tm srcs tms].
  simpl in *. subst. destruct i as [| |src|src raw|src|]; try done; simpl.
  - by rewrite sse_not_open.
  - by rewrite sse_not_open.
  - by rewrite sse_not_open.
Qed.

Lemma sse_idle_run ins st :
  idle st → Forall (λ i, is_connect i = false) ins → run ins st = (st, []).
Proof.
  intros Hidle. induction 1 as [|i ins Hi _ IH]; [done|].
  unfold SSEAdapter.run in *. rewrite run_inputs_cons.
  rewrite (sse_idle_step i st Hidle Hi). cbn [fst snd]. rewrite IH. done.
Qed.

Lemma sse_disconnect_idle st : tidy st → idle (disconnect st).1.
Proof.
  intros Htidy. unfold idle, disconnect. simpl. split_and!; try done.
  apply Forall_forall. intros b Hb. apply list_elem_of_lookup_1 in Hb as [i Hi].
  destruct b; [|done]. destruct (eventSource st) as [src|] eqn:Hsrc.
  - destruct (decide (i = src)) as [->|Hne].
    + assert (src < length (sources st)) as Hlt.
      { apply lookup_lt_Some in Hi. by rewrite length_insert in Hi. }
      by rewrite list_lookup_insert_eq in Hi.
    + rewrite list_lookup_insert_ne in Hi by done.
      apply Htidy in Hi. congruence.
  - apply Htidy in Hi. congruence.
Qed.

(** X16.  Once [disconnect()] has returned, an adapter on which every open
    [EventSource] is the current one stays as it is until [connect()] is
    called: nothing is emitted, opened or scheduled, whatever events
    arrive.  That condition holds for a new adapter and is kept by every
    input, except a [connect()] while an earlier connection attempt is
    still open. *)
Theorem sse_disconnect_is_final st ins :
  tidy st →
  Forall (λ i, is_connect i = false) ins →
  run (Disconnect :: ins) st = disconnect st
  ∧ connected (disconnect st).1 = false
  ∧ tidy create
  ∧ (∀ i, (i = Connect → eventSource st = None) → tidy (step i st).1).
Proof.
  intros Htidy Hins. split_and!.
  - unfold SSEAdapter.run. rewrite run_inputs_cons.
    change (SSEAdapter.step opts JSON_parse Disconnect st) with (disconnect st).
    pose proof (sse_idle_run ins _ (sse_disconnect_idle st Htidy) Hins) as E.
    unfold SSEAdapter.run in E. unfold and_then. rewrite E. simpl.
    by rewrite app_nil_r.
  - done.
  - by intros src Hsrc.
  - intros i Hi. destruct i as [| |src|src raw|src|]; simpl.
    + unfold connect. destruct (connected st); [done|]. simpl.
      intros src Hsrc. simpl in *.
      destruct (decide (src = length (sources st))) as [->|Hne]; [done|].
      assert (src < length (sources st)) as Hlt.
      { apply lookup_lt_Some in Hsrc. rewrite length_app in Hsrc. simpl in Hsrc. lia. }
      rewrite lookup_app_l in Hsrc by done. apply Htidy in Hsrc.
      rewrite Hi in Hsrc; done.
    + intros src Hsrc.
      destruct (sse_disconnect_idle st Htidy) as (_ & _ & _ & Hall).
      rewrite Forall_forall in Hall.
      by specialize (Hall true (list_elem_of_lookup_2 _ _ _ Hsrc)).
    + destruct (source_open st src); simpl; [|done]. exact Htidy.
    + destruct (source_open st src); simpl; [|done]. exact Htidy.
    + destruct (source_open st src); simpl; [|done].
      unfold onerror. simpl. destruct (_ <? _)%Z; [|exact Htidy].
      unfold scheduleReconnect. simpl. destruct (reconnectTimer st); exact Htidy.
    + destruct (reconnectTimer st) as [tm|] eqn:Htm; [|done].
      unfold reconnect, and_then. simpl. unfold connect. simpl.
      intros src Hsrc. simpl in *.
      set (srcs := match eventSource st with
                   | Some src => <[src:=false]> (sources st)
                   | None => sources st
                   end) in *.
      destruct (decide (src = length srcs)) as [->|Hne]; [done|].
      assert (src < length srcs) as Hlt.
      { apply lookup_lt_Some in Hsrc. rewrite length_app in Hsrc. simpl in Hsrc. lia. }
      rewrite lookup_app_l in Hsrc by done.
      destruct (sse_disconnect_idle st Htidy) as (_ & _ & _ & Hall).
      rewrite Forall_forall in Hall.
      by specialize (Hall true (list_elem_of_lookup_2 _ _ _ Hsrc)).
Qed.

(** X17.  A [connect()] while an earlier connection attempt has not opened yet
    creates a second [EventSource] and forgets the first: [disconnect()]
    then closes only the second.  The first stays open, its messages are
    still emitted by the disconnected adapter, and when it opens the
    adapter reports being connected again. *)
Theorem sse_second_connect_leaks_source st src raw :
  connected st = false →
  eventSource st = Some src →
  sources st !! src = Some true →
  (Closed src ∉ (run [Connect; Disconnect] st).2)
  ∧ Created (length (sources st)) ∈ (run [Connect; Disconnect] st).2
  ∧ connected (run [Connect; Disconnect] st).1 = false
  ∧ eventSource (run [Connect; Disconnect] st).1 = None
  ∧ sources (run [Connect; Disconnect] st).1 !! src = Some true
  ∧ (step (Message src raw) (run [Connect; Disconnect] st).1).2
    = [Emitted (parse_or_raw JSON_parse raw)]
  ∧ connected (step (Open src) (run [Connect; Disconnect] st).1).1 = true.
Proof.
  intros Hc Hes Hsrc.
  assert (src < length (sources st)) as Hlt by by apply lookup_lt_Some in Hsrc.
  assert (run [Connect; Disconnect] st
          = (mk false None (reconnectAttempts st) None
               (<[length (sources st) := false]> (sources st ++ [true])) (timers st),
             [Created (length (sources st))]
             ++ match reconnectTimer st with Some tm => [Cleared tm] | None => [] end
             ++ [Closed (length (sources st))])) as E.
  { unfold SSEAdapter.run. simpl. unfold connect. rewrite Hc. unfold and_then. simpl.
    unfold disconnect. simpl. by rewrite app_nil_r. }
  rewrite E. cbn [fst snd].
  assert (<[length (sources st) := false]> (sources st ++ [true]) !! src = Some true) as Hopen.
  { rewrite list_lookup_insert_ne by lia. by rewrite lookup_app_l. }
  split_and!; try done.
  - intros [Hin|Hin]%elem_of_app; [by apply list_elem_of_singleton in Hin|].
    apply elem_of_app in Hin as [Hin|Hin].
    + destruct (reconnectTimer st); [by apply list_elem_of_singleton in Hin|].
      by apply elem_of_nil in Hin.
    + apply list_elem_of_singleton in Hin. injection Hin. lia.
  - apply elem_of_app. left. by apply list_elem_of_singleton.
  - simpl. unfold source_open. simpl. by rewrite bool_decide_true.
  - simpl. unfold source_open. simpl. by rewrite bool_decide_true.
Qed.

End Disconnect.

Lemma sse_disconnect_is_final_witness :
  tidy sse_connected
  ∧ run sse_three no_json [Disconnect; Message 0 "x"; Open 0; Error 0; TimerFires] sse_connected
    = disconnect sse_connected.
Proof.
  assert (tidy sse_connected) as Ht.
  { intros [|src] Hsrc; [done|]. by destruct src. }
  split; [exact Ht|].
  apply (sse_disconnect_is_final sse_three no_json sse_connected
           [Message 0 "x"; Open 0; Error 0; TimerFires] Ht).
  by repeat constructor.
Defined.

Lemma sse_second_connect_leaks_source_witness :
  connected sse_connecting = false
  ∧ run sse_three no_json [Connect] create = (sse_connecting, [Created 0])
  ∧ (step sse_three no_json (Message 0 "x")
       (run sse_three no_json [Connect; Disconnect] sse_connecting).1).2
    = [Emitted (VStr "x")].
Proof.
  split; [reflexivity|]. split; [reflexivity|].
  apply (sse_second_connect_leaks_source sse_three no_json sse_connecting 0 "x");
    reflexivity.
Defined.

End SSEAdapterMore.

Module WebSocketAdapterMore.
Import WebSocketAdapter WebSocketAdapterOps.

Section Disconnect.
Variable opts : options.
Variable JSON_parse : string → option value.

Local Abbreviation step := (step opts JSON_parse).
Local Abbreviation run := (run opts JSON_parse).

(** X18.  The [onclose] of a socket marks the adapter disconnected and stops
    its ping timers, also when the socket is not the adapter's current
    one.  When a socket closed by [disconnect()] finishes closing after a
    new connection has opened, the adapter reports being disconnected
    while the new socket stays open and its messages are still emitted,
    and a further [connect()] opens one more socket beside it. *)
Theorem ws_stale_close_disconnects st sock cur wasClean raw :
  connected st = true →
  ws st = Some cur →
  ready st cur = Some OPEN →
  ready st sock = Some CLOSING →
  connected (step (Close sock wasClean) st).1 = false
  ∧ pingTimer (step (Close sock wasClean) st).1 = None
  ∧ ws (step (Close sock wasClean) st).1 = Some cur
  ∧ ready (step (Close sock wasClean) st).1 cur = Some OPEN
  ∧ (raw ≠ "pong" →
     (step (Message cur raw) (step (Close sock wasClean) st).1).2
     = [Emitted (parse_or_raw JSON_parse raw)])
  ∧ (step Connect (step (Close sock wasClean) st).1).2 = [Created (length (sockets st))].
Proof.
  intros Hc Hws Hcur Hsock.
  assert (sock ≠ cur) as Hne by (intros ->; congruence).
  assert (∃ att tm tms,
            (step (Close sock wasClean) st).1
            = mk false (Some cur) att tm None None (<[sock := CLOSED]> (sockets st)) tms)
    as (att & tm & tms & E).
  { simpl. rewrite Hsock. unfold onclose, and_then, stopPing. simpl.
    destruct (negb wasClean && _); simpl.
    - unfold scheduleReconnect. simpl. rewrite Hws.
      destruct (reconnectTimer st); simpl; by eexists _, _, _.
    - rewrite Hws. by eexists _, _, _. }
  rewrite E. unfold ready in *. simpl.
  rewrite list_lookup_insert_ne by done. rewrite Hcur. simpl.
  split_and!; try done.
  - intros Hraw. unfold ready. simpl. rewrite list_lookup_insert_ne by done.
    rewrite bool_decide_true by done. unfold onmessage.
    destruct (String.eqb_spec raw "pong"); [done|]. done.
  - unfold connect. simpl. by rewrite length_insert.
Qed.

(** X19.  [disconnect()] does not switch reconnection off.  When the socket it
    closes ends with an unclean close, a reconnect is scheduled as for
    any lost connection, and when its timeout expires the adapter opens a
    new socket although [connect()] was never called; after a clean close
    nothing is scheduled. *)
Theorem ws_reconnects_after_disconnect st sock :
  ws st = Some sock →
  ready st sock = Some OPEN →
  (reconnectAttempts st < maxReconnectAttempts opts)%Z →
  connected (run [Disconnect] st).1 = false
  ∧ Closed sock ∈ (run [Disconnect] st).2
  ∧ scheduled (run [Disconnect; Close sock true] st).2 = 0
  ∧ scheduled (run [Disconnect; Close sock false] st).2 = 1
  ∧ Created (length (sockets st)) ∈ (run [Disconnect; Close sock false; TimerFires] st).2
  ∧ ws (run [Disconnect; Close sock false; TimerFires] st).1 = Some (length (sockets st)).
Proof.
  intros Hws Hopen Hlt.
  assert (sock < length (sockets st)) as Hsl by by apply lookup_lt_Some in Hopen.
  set (outs := match reconnectTimer st with Some tm => [Cleared tm] | None => [] end
               ++ (match pingTimer st with Some tm => [Cleared tm] | None => [] end
                   ++ match pongTimer st with Some tm => [Cleared tm] | None => [] end)
               ++ [Closed sock]).
  assert (step Disconnect st
          = (mk false None (reconnectAttempts st) None None None
               (<[sock := CLOSING]> (sockets st)) (timers st), outs)) as E.
  { simpl. unfold disconnect, and_then, stopPing. simpl. rewrite Hws. simpl.
    unfold ready in *. simpl. rewrite bool_decide_true by done. simpl.
    unfold outs. by rewrite <- !app_assoc. }
  assert (scheduled outs = 0) as Houts.
  { unfold outs. destruct (reconnectTimer st), (pingTimer st), (pongTimer st); done. }
  unfold WebSocketAdapter.run. rewrite !run_inputs_cons, E. cbn [fst snd run_inputs].
  unfold and_then. cbn [fst snd].
  assert (∀ b, step (Close sock b)
                 (mk false None (reconnectAttempts st) None None None
                     (<[sock := CLOSING]> (sockets st)) (timers st))
               = if b
                 then (mk false None (reconnectAttempts st) None None None
                          (<[sock := CLOSED]> (sockets st)) (timers st), [])
                 else (mk false None (reconnectAttempts st + 1) (Some (timers st)) None None
                          (<[sock := CLOSED]> (sockets st)) (S (timers st)),
                       [Scheduled (timers st) (reconnectInterval opts)])) as EC.
  { intros b. simpl. unfold ready. simpl. rewrite list_lookup_insert_eq by done.
    unfold onclose, and_then, stopPing. simpl. rewrite list_insert_insert_eq.
    destruct b; simpl; [done|].
    destruct (Z.ltb_spec (reconnectAttempts st) (maxReconnectAttempts opts)); [|lia].
    done. }
  rewrite !EC. cbn [fst snd]. rewrite !app_nil_r.
  split_and!.
  - done.
  - unfold outs. rewrite !elem_of_app. right. right. by apply list_elem_of_singleton.
  - exact Houts.
  - by rewrite scheduled_app, Houts.
  - simpl. unfold reconnect, and_then, disconnect, stopPing, connect. simpl.
    rewrite length_insert. rewrite !elem_of_app. right. right.
    simpl. by apply list_elem_of_singleton.
  - simpl. unfold reconnect, and_then, disconnect, stopPing, connect. simpl.
    by rewrite length_insert.
Qed.

End Disconnect.

Lemma ws_stale_close_disconnects_witness :
  (run ws_three no_json [Connect; Open 0; Disconnect; Connect; Open 1] create).1
  = ws_reconnected
  ∧ connected ws_reconnected = true
  ∧ connected (step ws_three no_json (Close 0 true) ws_reconnected).1 = false
  ∧ ready (step ws_three no_json (Close 0 true) ws_reconnected).1 1 = Some OPEN.
Proof.
  split; [reflexivity|]. split; [reflexivity|].
  destruct (ws_stale_close_disconnects ws_three no_json ws_reconnected 0 1 true "x")
    as (H1 & _ & _ & H2 & _); try reflexivity.
  by split.
Defined.

Lemma ws_reconnects_after_disconnect_witness :
  ws ws_connected = Some 0
  ∧ Created 1 ∈ (run ws_three no_json [Disconnect; Close 0 false; TimerFires] ws_connected).2.
Proof.
  split; [reflexivity|].
  destruct (ws_reconnects_after_disconnect ws_three no_json ws_connected 0)
    as (_ & _ & _ & _ & H & _); try reflexivity. exact H.
Defined.

End WebSocketAdapterMore.

(** ** The pull adapters *)

Module StreamAdapterMore.
Import StreamAdapter StreamAdapterOps.

Lemma string_app_nil_l t : EmptyString +:+ t = t.
Proof. done. Qed.

Lemma string_app_cons c s t : String c s +:+ t = String c (s +:+ t).
Proof. done. Qed.

Lemma string_app_assoc s t u : (s +:+ t) +:+ u = s +:+ (t +:+ u).
Proof.
  induction s as [|c s IH]; [done|]. rewrite !string_app_cons. by rewrite IH.
Qed.

(** [trim] strips the white space of Unicode, not only that of ASCII: the
    no-break space, the byte order mark and the line separator go, while
    the zero-width space U+200B, which is not white space, stays. *)
Lemma trim_unicode_white_space :
  trim (nbsp +:+ " x" +:+ nbsp +:+ newline) = "x"
  ∧ trim nbsp = EmptyString
  ∧ trim (String "239"%char (String "187"%char (String "191"%char "x"))) = "x"
  ∧ trim (String "226"%char (String "128"%char (String "168"%char EmptyString)))
    = EmptyString
  ∧ trim (String "226"%char (String "128"%char (String "139"%char EmptyString)))
    = String "226"%char (String "128"%char (String "139"%char EmptyString)).
Proof. by vm_compute. Qed.

Lemma split_lines_nonempty s : split_lines s ≠ [].
Proof.
  destruct s as [|c s]; simpl; [done|].
  destruct (Ascii.eqb c "010"); [done|]. by destruct (split_lines s).
Qed.

Lemma last_cons_nonempty {A} (x d : A) l : l ≠ [] → List.last (x :: l) d = List.last l d.
Proof. by destruct l. Qed.

Lemma removelast_cons_nonempty {A} (x : A) l :
  l ≠ [] → List.removelast (x :: l) = x :: List.removelast l.
Proof. by destruct l. Qed.

(** Splitting a text into lines can be done piece by piece, carrying the
    incomplete last line over. *)
Lemma split_lines_app s t :
  split_lines (s +:+ t)
  = complete_lines s ++ split_lines (incomplete_line s +:+ t).
Proof.
  unfold complete_lines, incomplete_line.
  induction s as [|c s IH]; [done|].
  rewrite string_app_cons. cbn [split_lines].
  pose proof (split_lines_nonempty s) as Hne.
  destruct (Ascii.eqb c "010") eqn:Ec.
  - rewrite removelast_cons_nonempty, last_cons_nonempty by done.
    rewrite IH. done.
  - rewrite IH. destruct (split_lines s) as [|l0 [|l1 ls]] eqn:Hs; [done| |].
    + cbn [List.removelast List.last app]. rewrite string_app_cons.
      cbn [split_lines]. rewrite Ec.
      pose proof (split_lines_nonempty (l0 +:+ t)).
      by destruct (split_lines (l0 +:+ t)).
    + rewrite !removelast_cons_nonempty by done.
      rewrite !(last_cons_nonempty _ _ (l1 :: ls)) by done.
      simpl. done.
Qed.

Lemma complete_lines_app s t :
  complete_lines (s +:+ t) = complete_lines s ++ complete_lines (incomplete_line s +:+ t).
Proof.
  unfold complete_lines at 1. rewrite split_lines_app.
  by rewrite removelast_app by apply split_lines_nonempty.
Qed.

Lemma last_app_nonempty {A} (l1 l2 : list A) d :
  l2 ≠ [] → List.last (l1 ++ l2) d = List.last l2 d.
Proof.
  intros Hne. induction l1 as [|x l1 IH]; [done|].
  rewrite <- app_comm_cons, last_cons_nonempty; [done|]. by destruct l1, l2.
Qed.

Lemma incomplete_line_app s t :
  incomplete_line (s +:+ t) = incomplete_line (incomplete_line s +:+ t).
Proof.
  unfold incomplete_line at 1. rewrite split_lines_app.
  by rewrite last_app_nonempty by apply split_lines_nonempty.
Qed.

Section Stream.
Variable opts : options.
Variable JSON_parse : string → option value.

Local Abbreviation step := (step opts JSON_parse).
Local Abbreviation run := (run opts JSON_parse).

Lemma chunk_step id n b text r st :
  task_of st id = Some (mk_task n (Reading b)) →
  connected st = true →
  reader st = Some r →
  step (Chunk id text) st
  = (mk true (abortController st) (Some r)
        (<[id := Some (mk_task n (Reading (incomplete_line (b +:+ text))))]> (tasks st))
        (timeouts st) (retries st),
     complete_lines (b +:+ text) ≫= line_outputs JSON_parse).
Proof.
  intros Ht Hc Hr. simpl. rewrite Ht. unfold on_chunk, and_then. simpl.
  rewrite Hc, Hr. simpl. by rewrite app_nil_r.
Qed.

Lemma task_of_insert id tk st c a r ts rs :
  id < length (tasks st) →
  task_of (mk c a r (<[id := tk]> (tasks st)) ts rs) id = tk.
Proof. intros Hlt. unfold task_of. simpl. by rewrite list_lookup_insert_eq. Qed.

Lemma task_of_lt st id tk : task_of st id = Some tk → id < length (tasks st).
Proof.
  unfold task_of. intros H. destruct (tasks st !! id) eqn:E; [|done].
  by apply lookup_lt_Some in E.
Qed.

(** X20.  What an established stream emits depends on the text it delivers,
    not on how the text is cut into chunks: two chunks have the effect of
    the one chunk that joins them.  A line is emitted when its newline
    has arrived; when the stream ends, every line of the whole text that
    is not blank has been emitted exactly once, trimmed, in order.
    Trimming and blankness are those of [String.prototype.trim], which
    knows the white space of Unicode ([line_outputs], [trim]). *)
Theorem stream_chunking_is_invisible id n b r t1 t2 st :
  task_of st id = Some (mk_task n (Reading b)) →
  connected st = true →
  reader st = Some r →
  run [Chunk id t1; Chunk id t2] st = run [Chunk id (t1 +:+ t2)] st
  ∧ (run [Chunk id t1] st).2 = complete_lines (b +:+ t1) ≫= line_outputs JSON_parse
  ∧ (run [Chunk id t1; Done id] st).2 = split_lines (b +:+ t1) ≫= line_outputs JSON_parse.
Proof.
  intros Ht Hc Hr. pose proof (task_of_lt _ _ _ Ht) as Hlt.
  unfold StreamAdapter.run. rewrite !run_inputs_cons.
  rewrite !(chunk_step id n b _ r st Ht Hc Hr). cbn [fst snd run_inputs].
  unfold and_then. cbn [fst snd]. rewrite !app_nil_r.
  split_and!.
  - rewrite (chunk_step id n (incomplete_line (b +:+ t1)) t2 r);
      [|by apply task_of_insert|done..].
    cbn [fst snd tasks abortController timeouts retries].
    rewrite list_insert_insert_eq.
    rewrite <- string_app_assoc, (complete_lines_app (b +:+ t1) t2), bind_app.
    by rewrite <- incomplete_line_app.
  - done.
  - simpl. rewrite task_of_insert by done. unfold flush, and_then. simpl.
    rewrite app_nil_r.
    pose proof (app_removelast_last EmptyString (split_lines_nonempty (b +:+ t1))) as Hs.
    fold (complete_lines (b +:+ t1)) in Hs. fold (incomplete_line (b +:+ t1)) in Hs.
    rewrite Hs at 1. rewrite bind_app. f_equal. simpl. by rewrite app_nil_r.
Qed.

(** X21.  [retryAttempts] does not cover the first connection.  A request
    issued by [connect()] that fails, in the network or with a status
    that is not ok, is not retried: nothing is scheduled and the adapter
    stays disconnected.  Once the stream is established, a failing read
    below the ceiling schedules one retry with [retryDelay]. *)
Theorem stream_first_failure_is_not_retried st ok :
  connected st = false →
  (∀ i, i = FetchFails (length (tasks st)) ∨ i = FetchResolves (length (tasks st)) false →
        (run [Connect; i] st).2 = [Created (length (tasks st))]
        ∧ connected (run [Connect; i] st).1 = false
        ∧ retries (run [Connect; i] st).1 = retries st
        ∧ task_of (run [Connect; i] st).1 (length (tasks st)) = None)
  ∧ ((0 < retryAttempts opts)%Z →
     (run [Connect; FetchResolves (length (tasks st)) ok; ReadFails (length (tasks st))]
        st).2
     = if ok then [Created (length (tasks st));
                   Scheduled (length (retries st)) (retryDelay opts)]
       else [Created (length (tasks st))]).
Proof.
  intros Hc.
  assert (step Connect st
          = (mk false (Some (length (tasks st))) (reader st)
               (tasks st ++ [Some (mk_task 0 Fetching)])
               (timeouts st ++ [length (tasks st)]) (retries st),
             [Created (length (tasks st))])) as E.
  { simpl. unfold connect, startStream. by rewrite Hc. }
  assert (∀ c a r ts rs,
            task_of (mk c a r (tasks st ++ [Some (mk_task 0 Fetching)]) ts rs)
              (length (tasks st)) = Some (mk_task 0 Fetching)) as Ht.
  { intros. unfold task_of. simpl. by rewrite lookup_app_r, Nat.sub_diag. }
  assert (∀ c a r ts rs tk,
            task_of (mk c a r (<[length (tasks st) := tk]>
                                 (tasks st ++ [Some (mk_task 0 Fetching)])) ts rs)
              (length (tasks st)) = tk) as Hi.
  { intros. unfold task_of. simpl. rewrite list_lookup_insert_eq; [done|].
    rewrite length_app. simpl. lia. }
  unfold StreamAdapter.run. split.
  - intros i [-> | ->]; rewrite !run_inputs_cons, E; cbn [fst snd run_inputs];
      unfold and_then; cbn [fst snd]; simpl; rewrite Ht;
      unfold on_response, on_failure, and_then; simpl;
      rewrite ?andb_false_r; simpl; by rewrite Hi.
  - intros Hn. rewrite !run_inputs_cons, E. cbn [fst snd run_inputs].
    unfold and_then. cbn [fst snd]. simpl. rewrite Ht.
    unfold on_response. destruct ok; simpl.
    + rewrite Hi. unfold on_failure, and_then. simpl.
      destruct (Z.ltb_spec 0 (retryAttempts opts)); [done|lia].
    + unfold on_failure, and_then. simpl. rewrite ?andb_false_r. simpl.
      by rewrite Hi.
Qed.

(** X22.  When the stream ends, the remainder of the buffer is emitted,
    trimmed as [String.prototype.trim] does and unless this leaves
    nothing, and the
    adapter keeps reporting that it is connected, with no reader: a
    [connect()] after the end of the stream does nothing, and only
    [disconnect()] followed by [connect()] issues a new request. *)
Theorem stream_end_leaves_adapter_connected id n b r st :
  task_of st id = Some (mk_task n (Reading b)) →
  connected st = true →
  reader st = Some r →
  (run [Done id; Connect] st).2 = line_outputs JSON_parse b
  ∧ connected (run [Done id; Connect] st).1 = true
  ∧ reader (run [Done id; Connect] st).1 = None
  ∧ abortController (run [Done id; Connect] st).1 = None
  ∧ task_of (run [Done id; Connect] st).1 id = None
  ∧ (run [Done id; Disconnect; Connect] st).2
    = line_outputs JSON_parse b ++ [Created (length (tasks st))].
Proof.
  intros Ht Hc Hr. pose proof (task_of_lt _ _ _ Ht) as Hlt.
  assert (step (Done id) st
          = (mk true None None (<[id := None]> (tasks st)) (timeouts st) (retries st),
             line_outputs JSON_parse b)) as E.
  { simpl. rewrite Ht. unfold flush, and_then, finally. simpl.
    by rewrite Hc, app_nil_r. }
  unfold StreamAdapter.run. rewrite !run_inputs_cons, E. cbn [fst snd run_inputs].
  unfold and_then. cbn [fst snd]. simpl. rewrite !app_nil_r.
  split_and!; try done.
  - by apply task_of_insert.
  - unfold disconnect, and_then, connect, startStream. simpl.
    by rewrite length_insert.
Qed.

End Stream.

Lemma stream_chunking_is_invisible_witness :
  (run default_options no_json [Connect; FetchResolves 0 true] create).1 = stream_reading
  ∧ run default_options no_json
      [Chunk 0 "a"; Chunk 0 ("b" +:+ String "010"%char "c")] stream_reading
    = run default_options no_json
        [Chunk 0 ("a" +:+ "b" +:+ String "010"%char "c")] stream_reading
  ∧ (run default_options no_json
       [Chunk 0 ("ab" +:+ String "010"%char "c"); Done 0] stream_reading).2
    = [Emitted (VStr "ab"); Emitted (VStr "c")]
  ∧ (run default_options no_json
       [Chunk 0 (nbsp +:+ newline +:+ "x" +:+ nbsp +:+ newline)] stream_reading).2
    = [Emitted (VStr "x")].
Proof.
  split; [reflexivity|].
  destruct (stream_chunking_is_invisible default_options no_json 0 0%Z EmptyString 0
              "a" ("b" +:+ String "010"%char "c") stream_reading eq_refl eq_refl eq_refl)
    as (H1 & _ & _).
  split; [exact H1|].
  destruct (stream_chunking_is_invisible default_options no_json 0 0%Z EmptyString 0
              ("ab" +:+ String "010"%char "c") EmptyString stream_reading
              eq_refl eq_refl eq_refl) as (_ & _ & H3).
  split; [rewrite H3; reflexivity|].
  destruct (stream_chunking_is_invisible default_options no_json 0 0%Z EmptyString 0
              (nbsp +:+ newline +:+ "x" +:+ nbsp +:+ newline) EmptyString stream_reading
              eq_refl eq_refl eq_refl) as (_ & H2 & _).
  rewrite H2. reflexivity.
Defined.

Lemma stream_first_failure_is_not_retried_witness :
  connected create = false
  ∧ (run default_options no_json [Connect; FetchFails 0] create).2 = [Created 0]
  ∧ connected (run default_options no_json [Connect; FetchFails 0] create).1 = false.
Proof.
  split; [reflexivity|].
  destruct (stream_first_failure_is_not_retried default_options no_json create true eq_refl)
    as [H _].
  destruct (H (FetchFails 0)) as (H1 & H2 & _); [by left|]. by split.
Defined.

Lemma stream_end_leaves_adapter_connected_witness :
  connected stream_reading = true
  ∧ (run default_options no_json [Done 0; Connect] stream_reading).2 = []
  ∧ connected (run default_options no_json [Done 0; Connect] stream_reading).1 = true
  ∧ (run default_options no_json [Chunk 0 ("tail" +:+ nbsp)] stream_reading).1
    = stream_reading_tail
  ∧ (run default_options no_json [Done 0; Connect] stream_reading_tail).2
    = [Emitted (VStr "tail")].
Proof.
  split; [reflexivity|].
  destruct (stream_end_leaves_adapter_connected default_options no_json 0 0%Z EmptyString 0
              stream_reading eq_refl eq_refl eq_refl) as (H1 & H2 & _).
  split; [exact H1|]. split; [exact H2|]. split; [reflexivity|].
  destruct (stream_end_leaves_adapter_connected default_options no_json 0 0%Z
              ("tail" +:+ nbsp) 0 stream_reading_tail eq_refl eq_refl eq_refl)
    as (H3 & _).
  rewrite H3. reflexivity.
Defined.

End StreamAdapterMore.

Module RestAdapterMore.
Import RestAdapter RestAdapterOps.

Section Rest.
Variable opts : options.
Variable JSON_parse : string → option value.

Local Abbreviation step := (step opts JSON_parse).
Local Abbreviation run := (run opts JSON_parse).

Lemma rest_idle_step i st :
  idle st → i ≠ Connect → (step i st).2 = [] ∧ idle (step i st).1.
Proof.
  intros (Hc & Hp & Ha & Ht) Hi. unfold idle.
  destruct i as [| | | |id ok json|id|id raw|id|id|]; try done; simpl.
  - unfold disconnect, and_then, stopPolling. simpl. by rewrite Hp, Ha.
  - by rewrite Hp.
  - unfold fetchData. by rewrite Hc.
  - by rewrite Ht.
  - by rewrite Ht.
  - by rewrite Ht.
  - by rewrite Ht.
  - case_bool_decide; [|done]. unfold and_then. simpl. by rewrite Ha.
  - destruct (retries st) as [|n rest]; [done|]. unfold fetchData. simpl. by rewrite Hc.
Qed.

Lemma rest_idle_run ins st :
  idle st → Forall (λ i, i ≠ Connect) ins → (run ins st).2 = [] ∧ idle (run ins st).1.
Proof.
  intros Hidle Hins. revert st Hidle.
  induction Hins as [|i ins Hi _ IH]; intros st Hidle; [done|].
  unfold RestAdapter.run in *. rewrite run_inputs_cons. cbn [fst snd].
  destruct (rest_idle_step i st Hidle Hi) as [E1 Hidle1].
  destruct (IH _ Hidle1) as [E2 Hidle2]. by rewrite E1, E2.
Qed.

Lemma task_of_finally id id' c p a ts rs tms st :
  task_of (mk c p a (<[id := None]> (tasks st)) ts rs tms) id'
  = if decide (id' = id) then None else task_of st id'.
Proof.
  unfold task_of. simpl. destruct (decide (id' = id)) as [->|Hne].
  - destruct (decide (id < length (tasks st))).
    + by rewrite list_lookup_insert_eq.
    + rewrite lookup_ge_None_2; [done|]. rewrite length_insert. lia.
  - by rewrite list_lookup_insert_ne.
Qed.

Lemma rest_task_of_lt st id tk : task_of st id = Some tk → id < length (tasks st).
Proof.
  unfold task_of. intros H. destruct (tasks st !! id) eqn:E; [|done].
  by apply lookup_lt_Some in E.
Qed.

Lemma rest_tidy_finally id tk c p ts rs tms st :
  tidy st → task_of st id = Some tk →
  ∀ id', task_of (mk c p None (<[id := None]> (tasks st)) ts rs tms) id' = None.
Proof.
  intros Htidy Hid id'. rewrite task_of_finally. case_decide; [done|].
  destruct (task_of st id') as [tk'|] eqn:E; [|done].
  apply Htidy in E. apply Htidy in Hid. congruence.
Qed.

Lemma rest_tidy_failure id n tk st :
  tidy st → task_of st id = Some tk → tidy (on_failure opts id n st).1.
Proof.
  intros Htidy Hid. unfold on_failure, and_then.
  destruct (n <? retryAttempts opts)%Z; simpl;
    intros id' m Hid'; by rewrite (rest_tidy_finally id tk _ _ _ _ _ st Htidy Hid) in Hid'.
Qed.

(** The response of the request that holds the controller moves it to
    the read of the body, and it keeps the controller. *)
Lemma rest_tidy_body id tk tk' c p ts rs tms st :
  tidy st → task_of st id = Some tk →
  tidy (mk c p (abortController st) (<[id := Some tk']> (tasks st)) ts rs tms).
Proof.
  intros Htidy Hid id' m. unfold task_of. simpl.
  destruct (decide (id' = id)) as [->|Hne]; [intros _; by eapply Htidy|].
  rewrite list_lookup_insert_ne by done. apply Htidy.
Qed.

Lemma rest_disconnect_idle st : tidy st → idle (disconnect st).1.
Proof.
  intros Htidy. unfold disconnect, and_then, stopPolling. simpl.
  destruct (abortController st) as [c|] eqn:Ha; simpl.
  - unfold abort, and_then. simpl.
    change (task_of (mk false None (Some c) (tasks st) (timeouts st) (retries st)
                       (timers st)) c) with (task_of st c).
    destruct (task_of st c) as [tk|] eqn:Hc; simpl.
    + split_and!; try done. by eapply rest_tidy_finally.
    + split_and!; try done. intros id.
      change (task_of _ id) with (task_of st id).
      destruct (task_of st id) as [tk|] eqn:E; [|done].
      pose proof (Htidy _ _ E). congruence.
  - split_and!; try done. intros id. change (task_of _ id) with (task_of st id).
    destruct (task_of st id) as [tk|] eqn:E; [|done].
    pose proof (Htidy _ _ E). congruence.
Qed.

Lemma rest_tidy_fetchData n st :
  tidy st → (∀ id, task_of st id = None) → tidy (fetchData n st).1.
Proof.
  intros Htidy Hnone. unfold fetchData. destruct (connected st); simpl; [|done].
  intros id m. unfold task_of. simpl. intros Hid.
  destruct (decide (id = length (tasks st))) as [->|Hne]; [done|].
  destruct (decide (id < length (tasks st))).
  - rewrite lookup_app_l in Hid by done. specialize (Hnone id).
    unfold task_of in Hnone. congruence.
  - rewrite lookup_ge_None_2 in Hid; [done|]. rewrite length_app. simpl. lia.
Qed.

Lemma rest_tidy_step i st :
  tidy st →
  ((∃ id n, task_of st id = Some n) → starts_request i = false) →
  tidy (step i st).1.
Proof.
  intros Htidy Hi.
  assert (starts_request i = true → ∀ id, task_of st id = None) as Hnone.
  { intros Hs id. destruct (task_of st id) as [n|] eqn:E; [|done].
    rewrite Hi in Hs by eauto. done. }
  destruct i as [| | | |id ok json|id|id raw|id|id|]; simpl.
  - unfold connect. destruct (connected st) eqn:Hc; [done|].
    unfold startPolling. destruct (0 <? pollInterval opts)%Z; [|exact Htidy].
    unfold and_then. simpl.
    apply (rest_tidy_fetchData 0
             (mk true (pollTimer st) (abortController st) (tasks st) (timeouts st)
                 (retries st) (timers st))); [exact Htidy|by apply Hnone].
  - destruct (rest_disconnect_idle st Htidy) as (_ & _ & _ & Ht).
    intros id n Hid. by rewrite Ht in Hid.
  - destruct (pollTimer st); [|done]. apply rest_tidy_fetchData; [done|by apply Hnone].
  - apply rest_tidy_fetchData; [done|by apply Hnone].
  - destruct (task_of st id) as [[n [| |]]|] eqn:Hid; try done.
    unfold on_response. destruct ok.
    + by eapply rest_tidy_body.
    + by apply (rest_tidy_failure id n (mk_task n Fetching)
                  (mk (connected st) (pollTimer st) (abortController st) (tasks st)
                      (filter (λ i, i ≠ id) (timeouts st)) (retries st) (timers st))).
  - destruct (task_of st id) as [[n [| |]]|] eqn:Hid; try done.
    by eapply rest_tidy_failure.
  - destruct (task_of st id) as [[n [| |]]|] eqn:Hid; try done; unfold on_body.
    + destruct (JSON_parse raw); [|by eapply rest_tidy_failure].
      unfold and_then. simpl. intros id' m Hid'.
      by rewrite (rest_tidy_finally id _ _ _ _ _ _ st Htidy Hid) in Hid'.
    + unfold and_then. simpl. intros id' m Hid'.
      by rewrite (rest_tidy_finally id _ _ _ _ _ _ st Htidy Hid) in Hid'.
  - destruct (task_of st id) as [[n [| |]]|] eqn:Hid; try done;
      by eapply rest_tidy_failure.
  - case_bool_decide; [|done]. unfold and_then. simpl.
    destruct (abortController st) as [c|] eqn:Ha; simpl.
    2:{ intros id' m Hid'. change (task_of _ id') with (task_of st id') in Hid'.
        apply Htidy in Hid'. by rewrite Ha in Hid'. }
    unfold abort, and_then. simpl.
    change (task_of (mk (connected st) (pollTimer st) (Some c) (tasks st) _ (retries st)
                       (timers st)) c) with (task_of st c).
    destruct (task_of st c) as [tk|] eqn:Hc; simpl.
    + intros id' m Hid'. by rewrite (rest_tidy_finally c tk _ _ _ _ _ st Htidy Hc) in Hid'.
    + intros id' m Hid'. change (task_of _ id') with (task_of st id') in Hid'.
      apply Htidy in Hid'. by rewrite Ha in Hid'.
  - destruct (retries st) as [|n rest]; [done|].
    apply (rest_tidy_fetchData n
             (mk (connected st) (pollTimer st) (abortController st) (tasks st)
                 (timeouts st) rest (timers st))); [exact Htidy|by apply Hnone].
Qed.

(** X23.  Once [disconnect()] has returned, a RestAdapter whose requests did
    not overlap does nothing until [connect()] is called: no response,
    body, timeout, retry, poll or [fetch()] emits data or issues a
    request.  A request is in flight from its start until its body has
    been read, its failure handled or its abort seen.  Requests do not
    overlap for a new adapter, and this is kept by every input that does
    not issue a request while another one is in flight, the arrival of a
    response and of a body included; a request issued while a body is
    being read breaks it. *)
Theorem rest_disconnect_is_final st ins :
  tidy st →
  Forall (λ i, i ≠ Connect) ins →
  (run (Disconnect :: ins) st).2 = (disconnect st).2
  ∧ idle (run (Disconnect :: ins) st).1
  ∧ tidy create
  ∧ (∀ i, ((∃ id tk, task_of st id = Some tk) → starts_request i = false) →
          tidy (step i st).1)
  ∧ (∀ id n ph, task_of st id = Some (mk_task n ph) → connected st = true →
                ¬ tidy (step Fetch st).1).
Proof.
  intros Htidy Hins.
  destruct (rest_idle_run ins _ (rest_disconnect_idle st Htidy) Hins) as [E Hidle].
  unfold RestAdapter.run in *. rewrite run_inputs_cons. cbn [fst snd].
  change (RestAdapter.step opts JSON_parse Disconnect st) with (disconnect st).
  rewrite E, app_nil_r. split_and!; try done.
  - intros i. by apply rest_tidy_step.
  - intros id n ph Hid Hc Hbad. pose proof (rest_task_of_lt _ _ _ Hid) as Hlt.
    revert Hbad. simpl. unfold fetchData. rewrite Hc. simpl. intros Hbad.
    specialize (Hbad id (mk_task n ph)). simpl in Hbad.
    unfold task_of in Hbad. simpl in Hbad. rewrite lookup_app_l in Hbad by done.
    specialize (Hbad Hid). injection Hbad as Hbad. lia.
Qed.

(** X24.  The timeout of a request is cleared only when its response arrives.
    After a request has failed in the network its timeout is still
    pending, and when it expires it aborts whatever request is in flight
    then: a later request is cancelled by the timeout of an earlier one,
    and its response, or its body if the response had arrived, is
    dropped. *)
Theorem rest_stale_timeout_aborts_later_request st id c tk json raw :
  id ∈ timeouts st →
  id ≠ c →
  abortController st = Some c →
  task_of st c = Some tk →
  (step (TimeoutFires id) st).2 = [Closed c]
  ∧ task_of (step (TimeoutFires id) st).1 c = None
  ∧ abortController (step (TimeoutFires id) st).1 = None
  ∧ step (FetchResolves c true json) (step (TimeoutFires id) st).1
    = ((step (TimeoutFires id) st).1, [])
  ∧ step (BodyArrives c raw) (step (TimeoutFires id) st).1
    = ((step (TimeoutFires id) st).1, [])
  ∧ (∀ m, task_of st id = Some (mk_task m Fetching) →
          id ∈ timeouts (step (FetchFails id) st).1).
Proof.
  intros Hin Hne Ha Hc.
  assert (step (TimeoutFires id) st
          = (mk (connected st) (pollTimer st) None (<[c := None]> (tasks st))
               (filter (λ i, i ≠ id) (timeouts st)) (retries st) (timers st),
             [Closed c])) as E.
  { simpl. rewrite bool_decide_true by done. unfold and_then. simpl. rewrite Ha.
    unfold abort, and_then. simpl.
    change (task_of (mk (connected st) (pollTimer st) (Some c) (tasks st) _ (retries st)
                       (timers st)) c) with (task_of st c).
    by rewrite Hc. }
  rewrite E. cbn [fst snd].
  assert (task_of (mk (connected st) (pollTimer st) None (<[c := None]> (tasks st))
                     (filter (λ i, i ≠ id) (timeouts st)) (retries st) (timers st)) c
          = None) as Hgone.
  { rewrite task_of_finally. by rewrite decide_True. }
  split_and!; try done.
  - simpl. by rewrite Hgone.
  - simpl. by rewrite Hgone.
  - intros m Hm. simpl. rewrite Hm. unfold on_failure, and_then. simpl.
    by destruct (m <? retryAttempts opts)%Z.
Qed.

End Rest.

Lemma rest_disconnect_is_final_witness :
  tidy (run default_options no_json [Connect] create).1
  ∧ (run default_options no_json
       [Disconnect; FetchResolves 0 true true; BodyArrives 0 "late"; PollTick;
        RetryFires; Fetch]
       (run default_options no_json [Connect] create).1).2
    = [Cleared 0; Closed 0]
  ∧ (run default_options no_json [Connect; FetchResolves 0 true true] create).1
    = rest_reading_body
  ∧ tidy rest_reading_body
  ∧ (run default_options no_json [Disconnect; BodyArrives 0 "late"] rest_reading_body).2
    = [Cleared 0; Closed 0].
Proof.
  assert (tidy (run default_options no_json [Connect] create).1) as Ht.
  { intros id n. unfold task_of. simpl. destruct id as [|id]; [done|]. by destruct id. }
  split; [exact Ht|].
  destruct (rest_disconnect_is_final default_options no_json
              (run default_options no_json [Connect] create).1
              [FetchResolves 0 true true; BodyArrives 0 "late"; PollTick; RetryFires; Fetch]
              Ht)
    as (E & _); [by repeat constructor|].
  split; [rewrite E; reflexivity|]. split; [reflexivity|].
  assert (tidy rest_reading_body) as Hb.
  { intros id n. unfold task_of. simpl. destruct id as [|id]; [done|]. by destruct id. }
  split; [exact Hb|].
  destruct (rest_disconnect_is_final default_options no_json rest_reading_body
              [BodyArrives 0 "late"] Hb)
    as (E' & _); [by repeat constructor|].
  rewrite E'. reflexivity.
Defined.

Lemma rest_stale_timeout_aborts_later_request_witness :
  (run default_options no_json [Connect; FetchFails 0; PollTick] create).1
  = rest_second_request
  ∧ (step default_options no_json (TimeoutFires 0) rest_second_request).2 = [Closed 1].
Proof.
  split; [reflexivity|].
  destruct (rest_stale_timeout_aborts_later_request default_options no_json
              rest_second_request 0 1 (mk_task 0 Fetching) true "x") as (E & _);
    try done.
  apply list_elem_of_here.
Defined.

End RestAdapterMore.

(** ** The mock adapter *)

Module MockAdapterFacts.
Import MockAdapter.

Lemma emitted_app o1 o2 : emitted (o1 ++ o2) = emitted o1 + emitted o2.
Proof. unfold emitted. by rewrite filter_app, length_app. Qed.

Lemma cleared_app o1 o2 : cleared (o1 ++ o2) = cleared o1 + cleared o2.
Proof. unfold cleared. by rewrite filter_app, length_app. Qed.

Lemma emitted_cons o outs :
  emitted (o :: outs) = (if is_emitted o then 1 else 0) + emitted outs.
Proof.
  unfold emitted. destruct (is_emitted o) eqn:Ho.
  - by rewrite filter_cons_True.
  - rewrite filter_cons_False; [done|]. by rewrite Ho.
Qed.

Section Mock.
Variable defaultDataGenerator : nat → value.

Local Abbreviation step := (step defaultDataGenerator).
Local Abbreviation run := (run defaultDataGenerator).
Local Abbreviation generate := (generate defaultDataGenerator).

(** The generation loop emits at most [n] items and counts each of them;
    it touches nothing else. *)
Lemma generate_spec n st :
  totalItemCount (generate n st).1
  = (totalItemCount st + Z.of_nat (emitted (generate n st).2))%Z
  ∧ (emitted (generate n st).2 ≤ n)%nat
  ∧ scheduled (generate n st).2 = 0 ∧ cleared (generate n st).2 = 0
  ∧ connected (generate n st).1 = connected st
  ∧ timer (generate n st).1 = timer st
  ∧ opts (generate n st).1 = opts st
  ∧ (dataGenerator (opts st) = None → emitted (generate n st).2 = n).
Proof.
  revert st. induction n as [|n IH]; intros st.
  { simpl. split_and!; try done. change (emitted []) with 0. lia. }
  cbn [MockAdapter.generate]. destruct (draw defaultDataGenerator st) as [data|e] eqn:Hd.
  - unfold and_then. cbn [fst snd].
    destruct (IH (mk (connected st) (timer st) (totalItemCount st + 1) (opts st)
                     (timers st) (S (draws st))))
      as (H1 & H2 & H3 & H4 & H5 & H6 & H7 & H8).
    rewrite emitted_app, scheduled_app, cleared_app.
    change (emitted [Emitted data]) with 1. change (scheduled [Emitted data]) with 0.
    change (cleared [Emitted data]) with 0.
    simpl in *. split_and!; try done; try lia.
    intros Hg. rewrite H8 by done. done.
  - simpl. change (emitted []) with 0. split_and!; try done; try lia.
    intros Hg. unfold draw in Hd. by rewrite Hg in Hd.
Qed.

(** The invariant of the timer field: an interval only runs while the
    adapter is connected. *)
Lemma mock_step_timer i st :
  (timer st ≠ None → connected st = true) →
  (timer (step i st).1 ≠ None → connected (step i st).1 = true)
  ∧ scheduled (step i st).2 + generating st = cleared (step i st).2 + generating (step i st).1.
Proof.
  intros Hinv. unfold generating.
  destruct i as [| | | | | |p|]; simpl.
  - unfold connect, startGenerating. destruct st as [c tm cnt o tms dr]. simpl in *.
    destruct c; [done|]. destruct tm; [by specialize (Hinv ltac:(done))|].
    by destruct (autoStart o).
  - unfold disconnect, stopGenerating. simpl. by destruct (timer st).
  - unfold startGenerating. destruct st as [c tm cnt o tms dr]. simpl in *.
    destruct c, tm; simpl; done.
  - unfold stopGenerating. destruct st as [c tm cnt o tms dr]. simpl in *.
    destruct tm; simpl; (split; [congruence|done]).
  - unfold generateOne. destruct (connected st) eqn:Hc; simpl.
    2:{ rewrite Hc. split; [exact Hinv|done]. }
    destruct (generate_spec (itemsToGenerate (opts st)) st)
      as (_ & _ & H3 & H4 & H5 & H6 & _).
    rewrite H3, H4, H5, H6, Hc. split; [done|lia].
  - done.
  - unfold updateOptions, and_then, stopGenerating, startGenerating.
    destruct st as [c tm cnt o tms dr]. simpl in *.
    destruct tm; simpl; [|done]. rewrite Hinv by done. simpl. done.
  - destruct (timer st) as [tm|] eqn:Ht.
    2:{ simpl. rewrite Ht. split; [congruence|done]. }
    destruct (generate_spec (itemsToGenerate (opts st)) st)
      as (_ & _ & H3 & H4 & H5 & H6 & _).
    rewrite H3, H4, H5, H6, Ht. split; [|lia]. intros _. by apply Hinv.
Qed.

Lemma mock_step_count i st :
  resets_count i = false →
  totalItemCount (step i st).1
  = (totalItemCount st + Z.of_nat (emitted (step i st).2))%Z.
Proof.
  assert (∀ tm, emitted [Cleared tm] = 0) as Hcl by done.
  assert (∀ tm d, emitted [Scheduled tm d] = 0) as Hsc by done.
  assert (emitted [] = 0) as Hnil by done.
  intros Hi. destruct i as [| | | | | |p|]; try done; simpl.
  - unfold disconnect, stopGenerating. simpl.
    destruct (timer st); simpl; rewrite ?Hcl, ?Hnil; lia.
  - unfold startGenerating. destruct (negb _ || _); simpl; rewrite ?Hsc, ?Hnil; lia.
  - unfold stopGenerating. destruct (timer st); simpl; rewrite ?Hcl, ?Hnil; lia.
  - unfold generateOne. destruct (connected st); simpl; [|rewrite Hnil; lia].
    apply generate_spec.
  - unfold updateOptions, and_then, stopGenerating, startGenerating.
    destruct (timer st); simpl; [|rewrite Hnil; lia].
    destruct (connected st); simpl; rewrite ?emitted_cons, ?Hnil; simpl; lia.
  - destruct (timer st); [apply generate_spec|simpl; rewrite Hnil; lia].
Qed.

Lemma mock_idle_step i st :
  connected st = false → timer st = None → i ≠ Connect →
  (step i st).2 = [] ∧ connected (step i st).1 = false ∧ timer (step i st).1 = None.
Proof.
  intros Hc Ht Hi. destruct i as [| | | | | |p|]; try done; simpl.
  - unfold disconnect, stopGenerating. simpl. by rewrite Ht.
  - unfold startGenerating. by rewrite Hc.
  - unfold stopGenerating. by rewrite Ht.
  - unfold generateOne. by rewrite Hc.
  - unfold updateOptions, and_then. rewrite Ht. simpl. by rewrite Hc, Ht.
  - by rewrite Ht.
Qed.

(** X25.  The adapter never leaks an interval timer and never generates while
    disconnected.  From a state in which a running interval implies
    being connected (a new adapter is one), every sequence of calls and
    ticks keeps that, and creates exactly as many intervals as it clears,
    plus the one that is running at the end if it was not running at the
    start.  After [disconnect()], nothing is emitted and no interval is
    created until [connect()] is called. *)
Theorem mock_timer_is_never_leaked ins st :
  (timer st ≠ None → connected st = true) →
  (timer (run ins st).1 ≠ None → connected (run ins st).1 = true)
  ∧ scheduled (run ins st).2 + generating st
    = cleared (run ins st).2 + generating (run ins st).1
  ∧ (Forall (λ i, i ≠ Connect) ins →
     (run (Disconnect :: ins) st).2 = (disconnect st).2
     ∧ emitted (run (Disconnect :: ins) st).2 = 0
     ∧ scheduled (run (Disconnect :: ins) st).2 = 0).
Proof.
  intros Hinv. split_and!.
  - revert st Hinv. induction ins as [|i ins IH]; intros st Hinv; [done|].
    unfold MockAdapter.run in *. rewrite run_inputs_cons. cbn [fst].
    apply IH. by apply mock_step_timer.
  - revert st Hinv. induction ins as [|i ins IH]; intros st Hinv; [done|].
    unfold MockAdapter.run in *. rewrite run_inputs_cons. cbn [fst snd].
    destruct (mock_step_timer i st Hinv) as [Hinv1 E1].
    specialize (IH _ Hinv1). rewrite scheduled_app, cleared_app. lia.
  - intros Hins.
    assert (∀ st', connected st' = false → timer st' = None → (run ins st').2 = []) as Hq.
    { clear Hinv. induction Hins as [|i ins Hi _ IH]; intros st' Hc Ht; [done|].
      unfold MockAdapter.run in *. rewrite run_inputs_cons. cbn [snd].
      destruct (mock_idle_step i st' Hc Ht Hi) as (E & Hc1 & Ht1).
      by rewrite E, IH. }
    unfold MockAdapter.run in *. rewrite run_inputs_cons. cbn [snd].
    change (MockAdapter.step defaultDataGenerator Disconnect st) with (disconnect st).
    rewrite Hq, app_nil_r.
    + unfold disconnect, stopGenerating. simpl. by destruct (timer st).
    + unfold disconnect, stopGenerating. simpl. by destruct (timer st).
    + unfold disconnect, stopGenerating. simpl. by destruct (timer st).
Qed.

(** X26.  [getItemCount()] counts what was emitted: over every sequence of
    calls and ticks without [connect()] and [resetCount()], the counter
    grows by the number of items emitted, also when the generator
    throws in the middle of a batch.  With no generator of the user, one
    tick or one [generateOne()] of a connected adapter emits [maxItems]
    items, one item when [maxItems] is [0], and none when it is
    negative. *)
Theorem mock_counts_what_it_emits ins st :
  Forall (λ i, resets_count i = false) ins →
  totalItemCount (run ins st).1
  = (totalItemCount st + Z.of_nat (emitted (run ins st).2))%Z
  ∧ (dataGenerator (opts st) = None → connected st = true →
     emitted (step GenerateOne st).2 = itemsToGenerate (opts st)
     ∧ (timer st ≠ None → emitted (step Tick st).2 = itemsToGenerate (opts st)))
  ∧ itemsToGenerate (opts st)
    = (if (maxItems (opts st) =? 0)%Z then 1 else Z.to_nat (maxItems (opts st)))
  ∧ ((maxItems (opts st) < 0)%Z → itemsToGenerate (opts st) = 0).
Proof.
  intros Hins. split_and!.
  - revert st. induction Hins as [|i ins Hi _ IH]; intros st.
    { simpl. change (emitted []) with 0. lia. }
    unfold MockAdapter.run in *. rewrite run_inputs_cons. cbn [fst snd].
    rewrite IH, (mock_step_count i st Hi), emitted_app. lia.
  - intros Hg Hc. split.
    + simpl. unfold generateOne. rewrite Hc. simpl. by apply generate_spec.
    + intros Ht. simpl. destruct (timer st); [|done]. by apply generate_spec.
  - unfold itemsToGenerate. by destruct (maxItems (opts st) =? 0)%Z.
  - intros Hneg. unfold itemsToGenerate.
    destruct (Z.eqb_spec (maxItems (opts st)) 0); lia.
Qed.

End Mock.

Lemma mock_timer_is_never_leaked_witness :
  (timer (create plain_options) ≠ None → connected (create plain_options) = true)
  ∧ scheduled (run no_data [Connect; UpdateOptions (mk_patch (Some 10%Z) None None None);
                            Tick; Disconnect; Tick] (create plain_options)).2
    + generating (create plain_options)
    = cleared (run no_data [Connect; UpdateOptions (mk_patch (Some 10%Z) None None None);
                            Tick; Disconnect; Tick] (create plain_options)).2
      + generating (run no_data [Connect;
                                 UpdateOptions (mk_patch (Some 10%Z) None None None);
                                 Tick; Disconnect; Tick] (create plain_options)).1.
Proof.
  split; [done|].
  apply (mock_timer_is_never_leaked no_data
           [Connect; UpdateOptions (mk_patch (Some 10%Z) None None None);
            Tick; Disconnect; Tick] (create plain_options)).
  done.
Defined.

Lemma mock_counts_what_it_emits_witness :
  Forall (λ i, resets_count i = false) [Tick; GenerateOne; Disconnect]
  ∧ totalItemCount (run no_data [Tick; GenerateOne; Disconnect]
                      (run no_data [Connect] (create plain_options)).1).1 = 2%Z.
Proof.
  assert (Forall (λ i, resets_count i = false) [Tick; GenerateOne; Disconnect]) as H
    by by repeat constructor.
  split; [exact H|].
  destruct (mock_counts_what_it_emits no_data [Tick; GenerateOne; Disconnect]
              (run no_data [Connect] (create plain_options)).1 H) as (E & _).
  rewrite E. reflexivity.
Defined.

End MockAdapterFacts.

(** ** The consumer *)

Module ConsumerFacts.
Import Consumer.

Lemma delivered_app cb t1 t2 : delivered cb (t1 ++ t2) = delivered cb t1 ++ delivered cb t2.
Proof. apply bind_app. Qed.

Section ConsumerSpecs.
Variable cb_throws : list event → option value.

Local Abbreviation step := (step cb_throws).
Local Abbreviation run := (run cb_throws).

Lemma error_loop_spec err (l : list nat) tr :
  ∃ evs, foldl (call_error cb_throws err) tr l = tr ++ evs ∧ ∀ cb, delivered cb evs = [].
Proof.
  revert tr. induction l as [|c l IH]; intros tr.
  - exists []. by rewrite app_nil_r.
  - simpl. unfold call_error at 2.
    destruct (cb_throws (tr ++ [ErrorCalled c err])) as [e|].
    + destruct (IH ((tr ++ [ErrorCalled c err]) ++ [Logged "Error in error callback:" e]))
        as (evs & E & D).
      exists ([ErrorCalled c err; Logged "Error in error callback:" e] ++ evs).
      rewrite E. split; [by rewrite <- !app_assoc|].
      intros cb. by rewrite delivered_app, D.
    + destruct (IH (tr ++ [ErrorCalled c err])) as (evs & E & D).
      exists ([ErrorCalled c err] ++ evs). rewrite E. split; [by rewrite <- !app_assoc|].
      intros cb. by rewrite delivered_app, D.
Qed.

Lemma onError_spec err st tr :
  ∃ evs, onError cb_throws err st tr = tr ++ evs ∧ ∀ cb, delivered cb evs = [].
Proof.
  unfold onError. destruct (enableLogging (opts st)).
  - destruct (error_loop_spec err (errorCallbacks st) (tr ++ [Logged "Consumer error:" err]))
      as (evs & E & D).
    exists ([Logged "Consumer error:" err] ++ evs). rewrite E.
    split; [by rewrite <- !app_assoc|]. intros cb. by rewrite delivered_app, D.
  - apply error_loop_spec.
Qed.

Lemma processing_loop_spec d st (l : list nat) tr cb :
  NoDup l →
  ∃ evs, foldl (call_processing cb_throws d st) tr l = tr ++ evs
         ∧ delivered cb evs = if decide (cb ∈ l) then items_of d else [].
Proof.
  intros Hnd. revert tr. induction Hnd as [|c l Hc Hnd IH]; intros tr.
  - exists []. by rewrite app_nil_r.
  - simpl. unfold call_processing at 2.
    assert (delivered cb [Delivered c d] ++ (if decide (cb ∈ l) then items_of d else [])
            = if decide (cb ∈ c :: l) then items_of d else []) as Hcount.
    { unfold delivered. simpl. destruct (decide (c = cb)) as [->|Hne].
      - rewrite decide_False by done. rewrite decide_True by apply list_elem_of_here.
        by rewrite !app_nil_r.
      - simpl. destruct (decide (cb ∈ l)).
        + by rewrite decide_True by by apply list_elem_of_further.
        + rewrite decide_False; [done|]. by intros [?|?]%elem_of_cons. }
    destruct (cb_throws (tr ++ [Delivered c d])) as [e|].
    + destruct (onError_spec e st
                  ((tr ++ [Delivered c d]) ++ [Logged "Error in processing callback:" e]))
        as (evs1 & E1 & D1).
      rewrite E1. destruct (IH (((tr ++ [Delivered c d])
                                   ++ [Logged "Error in processing callback:" e]) ++ evs1))
        as (evs2 & E2 & D2).
      exists ([Delivered c d] ++ [Logged "Error in processing callback:" e] ++ evs1 ++ evs2).
      rewrite E2. split; [by rewrite <- !app_assoc|].
      rewrite !delivered_app, D1, D2. simpl. by rewrite <- Hcount.
    + destruct (IH (tr ++ [Delivered c d])) as (evs2 & E2 & D2).
      exists ([Delivered c d] ++ evs2). rewrite E2. split; [by rewrite <- !app_assoc|].
      rewrite delivered_app, D2. exact Hcount.
Qed.

Lemma processData_spec d st tr cb :
  NoDup (processingCallbacks st) →
  ∃ evs, processData cb_throws d st tr = tr ++ evs
         ∧ delivered cb evs
           = if decide (cb ∈ processingCallbacks st) then items_of d else [].
Proof. apply processing_loop_spec. Qed.

(** [processBatch()] hands the whole queue over and leaves it empty, with
    no timeout pending. *)
Lemma processBatch_spec st tr cb :
  NoDup (processingCallbacks st) →
  ∃ evs,
    processBatch cb_throws st tr
    = (mk (opts st) [] None (processingCallbacks st) (errorCallbacks st) (subscribed st)
          (timers st), tr ++ evs)
    ∧ delivered cb evs = if decide (cb ∈ processingCallbacks st) then dataQueue st else [].
Proof.
  intros Hnd. unfold processBatch, clear_timer.
  destruct (batchTimer st) as [tm|] eqn:Htm; simpl.
  - destruct (dataQueue st) as [|x q] eqn:Hq.
    + exists [TimerCleared tm]. split; [done|]. by destruct (decide _).
    + destruct (processData_spec (Batch (x :: q))
                  (mk (opts st) [] None (processingCallbacks st) (errorCallbacks st)
                      (subscribed st) (timers st)) (tr ++ [TimerCleared tm]) cb Hnd)
        as (evs & E & D).
      rewrite E. exists ([TimerCleared tm] ++ evs). split; [by rewrite <- app_assoc|].
      by rewrite delivered_app, D.
  - destruct (dataQueue st) as [|x q] eqn:Hq.
    + exists []. rewrite app_nil_r. split; [|by destruct (decide _)].
      destruct st; simpl in *; by subst.
    + rewrite Htm.
      destruct (processData_spec (Batch (x :: q))
                  (mk (opts st) [] None (processingCallbacks st) (errorCallbacks st)
                      (subscribed st) (timers st)) tr cb Hnd) as (evs & E & D).
      rewrite E. by exists evs.
Qed.

Lemma flush_spec st tr cb :
  NoDup (processingCallbacks st) →
  ∃ evs,
    flush cb_throws st tr
    = (mk (opts st) [] (if dataQueue st is [] then batchTimer st else None)
          (processingCallbacks st) (errorCallbacks st) (subscribed st) (timers st),
       tr ++ evs)
    ∧ delivered cb evs = if decide (cb ∈ processingCallbacks st) then dataQueue st else [].
Proof.
  intros Hnd. unfold flush. destruct (dataQueue st) as [|x q] eqn:Hq; simpl.
  - exists []. rewrite app_nil_r. split; [|by destruct (decide _)].
    destruct st; simpl in *; by subst.
  - destruct (processBatch_spec st tr cb Hnd) as (evs & E & D).
    rewrite E. exists evs. by rewrite D, Hq.
Qed.

(** One steady input: what the callback receives, followed by what stays
    queued, is what was queued followed by what was consumed. *)
Lemma steady_step i st tr cb :
  ready cb st → steady i = true →
  ∃ evs,
    step i st tr = ((step i st tr).1, tr ++ evs)
    ∧ delivered cb evs ++ dataQueue (step i st tr).1 = dataQueue st ++ consumed [i]
    ∧ ready cb (step i st tr).1.
Proof.
  intros (Hnd & Hin & Hq) Hi. unfold ready.
  destruct i as [x| | |p| | | | |]; try done; simpl.
  - unfold consume. destruct (Z.ltb_spec 1 (batchSize (opts st))) as [Hb|Hb].
    + unfold addToBatch. simpl.
      destruct (batchSize (opts st) <=? _)%Z.
      * destruct (processBatch_spec
                    (mk (opts st) (dataQueue st ++ [x]) (batchTimer st)
                        (processingCallbacks st) (errorCallbacks st) (subscribed st)
                        (timers st)) tr cb Hnd) as (evs & E & D).
        rewrite E. exists evs. simpl. rewrite D, decide_True by done.
        by rewrite app_nil_r.
      * destruct (batchTimer st); simpl.
        -- exists []. rewrite app_nil_r. split_and!; try done. intros. lia.
        -- eexists [_]. split_and!; try done. intros. lia.
    + destruct (processData_spec (One x) st tr cb Hnd) as (evs & E & D).
      rewrite E. exists evs. rewrite D, decide_True by done. simpl.
      rewrite (Hq Hb). done.
  - destruct (flush_spec st tr cb Hnd) as (evs & E & D).
    rewrite E. exists evs. simpl. rewrite D, decide_True by done.
    by rewrite !app_nil_r.
  - destruct (batchTimer st) eqn:Htm; simpl.
    + destruct (processBatch_spec st tr cb Hnd) as (evs & E & D).
      rewrite E. exists evs. simpl. rewrite D, decide_True by done.
      by rewrite !app_nil_r.
    + exists []. rewrite !app_nil_r. done.
  - unfold updateOptions. simpl in Hi.
    destruct (bool_decide (p_batchSize p = Some 1%Z) && _) eqn:Hf.
    + destruct (flush_spec
                  (mk (merge (opts st) p) (dataQueue st) (batchTimer st)
                      (processingCallbacks st) (errorCallbacks st) (subscribed st)
                      (timers st)) tr cb Hnd) as (evs & E & D).
      rewrite E. exists evs. simpl. simpl in D. rewrite D, decide_True by done.
      by rewrite !app_nil_r.
    + exists []. rewrite !app_nil_r. simpl. split_and!; try done.
      intros Hb. destruct (p_batchSize p) as [n|] eqn:Hp; simpl in Hb; [|by apply Hq].
      apply Z.leb_le in Hi. assert (n = 1%Z) as -> by lia.
      rewrite bool_decide_true in Hf by done. simpl in Hf.
      destruct (dataQueue st); [done|]. done.
Qed.

(** X27.  Nothing is lost, duplicated or reordered.  For a registered
    processing callback, over every sequence of [consume], [flush],
    expiring timeouts and option updates that keep the batch size at
    least [1], and whatever the callbacks throw: the envelopes handed to
    the callback, followed by the envelopes still queued, are the
    envelopes queued at the start followed by the envelopes consumed, in
    that order. *)
Theorem consumer_delivers_in_order ins st tr cb :
  ready cb st →
  Forall (λ i, steady i = true) ins →
  ∃ evs,
    run ins st tr = ((run ins st tr).1, tr ++ evs)
    ∧ delivered cb evs ++ dataQueue (run ins st tr).1 = dataQueue st ++ consumed ins
    ∧ ready cb (run ins st tr).1.
Proof.
  intros Hready Hins. revert st tr Hready.
  induction Hins as [|i ins Hi _ IH]; intros st tr Hready.
  - exists []. simpl. by rewrite !app_nil_r.
  - cbn [Consumer.run].
    destruct (steady_step i st tr cb Hready Hi) as (evs1 & E1 & D1 & Hready1).
    destruct (IH (step i st tr).1 (step i st tr).2 Hready1) as (evs2 & E2 & D2 & Hready2).
    exists (evs1 ++ evs2). split_and!; [|  |done].
    + rewrite E2 at 1. f_equal. rewrite E1. simpl. by rewrite app_assoc.
    + rewrite delivered_app, <- app_assoc, D2, app_assoc, D1.
      assert (consumed (i :: ins) = consumed [i] ++ consumed ins) as ->.
      { unfold consumed. simpl. by rewrite app_nil_r. }
      by rewrite app_assoc.
Qed.

End ConsumerSpecs.

Lemma consumer_delivers_in_order_witness :
  ready 7 (step always_throws (OnData 7) (create (batches_of 2)) []).1
  ∧ ∃ evs,
      run always_throws [Consume (item "x"); Consume (item "y"); Consume (item "z")]
        (step always_throws (OnData 7) (create (batches_of 2)) []).1 []
      = ((run always_throws [Consume (item "x"); Consume (item "y"); Consume (item "z")]
            (step always_throws (OnData 7) (create (batches_of 2)) []).1 []).1, [] ++ evs)
      ∧ delivered 7 evs = [item "x"; item "y"].
Proof.
  assert (ready 7 (step always_throws (OnData 7) (create (batches_of 2)) []).1) as Hr.
  { split_and!; [apply NoDup_singleton|by apply list_elem_of_singleton|done]. }
  split; [exact Hr|].
  destruct (consumer_delivers_in_order always_throws
              [Consume (item "x"); Consume (item "y"); Consume (item "z")]
              (step always_throws (OnData 7) (create (batches_of 2)) []).1 [] 7 Hr)
    as (evs & E & D & _); [by repeat constructor|].
  exists evs. split; [exact E|].
  change (delivered 7 evs ++ [item "z"] = [item "x"; item "y"] ++ [item "z"]) in D.
  by apply app_inv_tail in D.
Defined.

Section ConsumerInvariants.
Variable cb_throws : list event → option value.

Local Abbreviation step := (step cb_throws).
Local Abbreviation run := (run cb_throws).

Lemma destroy_spec st tr cb :
  NoDup (processingCallbacks st) →
  ∃ evs,
    destroy cb_throws st tr
    = (mk (opts st) [] None [] [] false (timers st),
       tr ++ match batchTimer st with Some tm => [TimerCleared tm] | None => [] end
          ++ (if subscribed st then [Unsubscribed] else [])
          ++ evs)
    ∧ delivered cb evs = if decide (cb ∈ processingCallbacks st) then dataQueue st else [].
Proof.
  intros Hnd. unfold destroy.
  set (st1 := (clear_timer st tr).1). set (tr1 := (clear_timer st tr).2).
  assert (st1 = mk (opts st) (dataQueue st) None (processingCallbacks st)
                  (errorCallbacks st) (subscribed st) (timers st)
          ∧ tr1 = tr ++ match batchTimer st with
                        | Some tm => [TimerCleared tm]
                        | None => []
                        end) as [-> ->].
  { unfold st1, tr1, clear_timer. destruct (batchTimer st) eqn:Htm; simpl; [done|].
    rewrite app_nil_r. split; [|done]. destruct st; simpl in *; by subst. }
  simpl.
  set (tr2 := if subscribed st then _ else _).
  destruct (flush_spec cb_throws
              (mk (opts st) (dataQueue st) None (processingCallbacks st) (errorCallbacks st)
                  false (timers st)) tr2 cb Hnd) as (evs & E & D).
  rewrite E. simpl. exists evs. split; [|exact D]. f_equal.
  - by destruct (dataQueue st).
  - unfold tr2. destruct (subscribed st); by rewrite <- ?app_assoc.
Qed.

Lemma step_tracks i st tr :
  timer_tracks_queue st → NoDup (processingCallbacks st) →
  timer_tracks_queue (step i st tr).1 ∧ NoDup (processingCallbacks (step i st tr).1).
Proof.
  intros Ht Hnd. unfold timer_tracks_queue in *.
  destruct i as [x| | |p| |cb|cb|cb|cb]; cbn [Consumer.step].
  - unfold consume. destruct (1 <? batchSize (opts st))%Z; [|done].
    unfold addToBatch. simpl. destruct (batchSize (opts st) <=? _)%Z.
    + destruct (processBatch_spec cb_throws
                  (mk (opts st) (dataQueue st ++ [x]) (batchTimer st)
                      (processingCallbacks st) (errorCallbacks st) (subscribed st)
                      (timers st)) tr 0 Hnd) as (evs & E & _).
      rewrite E. done.
    + destruct (batchTimer st) eqn:Htm; simpl; (split; [|done]);
        (split; [by intros [_ ?]%app_eq_nil|done]).
  - destruct (flush_spec cb_throws st tr 0 Hnd) as (evs & E & _). rewrite E. simpl.
    split; [|done]. destruct (dataQueue st); [|done]. split; [|done].
    intros _. by apply Ht.
  - destruct (batchTimer st) eqn:Htm; [|simpl; by rewrite Htm].
    destruct (processBatch_spec cb_throws st tr 0 Hnd) as (evs & E & _). by rewrite E.
  - unfold updateOptions. destruct (bool_decide _ && _); [|done].
    destruct (flush_spec cb_throws
                (mk (merge (opts st) p) (dataQueue st) (batchTimer st)
                    (processingCallbacks st) (errorCallbacks st) (subscribed st)
                    (timers st)) tr 0 Hnd) as (evs & E & _).
    rewrite E. simpl. split; [|done]. destruct (dataQueue st); [|done]. split; [|done].
    intros _. by apply Ht.
  - destruct (destroy_spec st tr 0 Hnd) as (evs & E & _). rewrite E. simpl.
    split; [done|constructor].
  - split; [done|]. by apply set_add_NoDup.
  - split; [done|]. by apply set_delete_NoDup.
  - done.
  - done.
Qed.

(** X28.  No envelope is stranded in the queue.  From a new consumer, after
    every sequence of calls and expiring timeouts, whatever the callbacks
    throw, a batch timeout is pending exactly while the queue holds
    envelopes; and when that timeout expires the whole queue is handed to
    every registered processing callback and the queue is empty again. *)
Theorem consumer_timer_tracks_queue st :
  timer_tracks_queue st →
  NoDup (processingCallbacks st) →
  (∀ ins tr,
     timer_tracks_queue (run ins st tr).1 ∧ NoDup (processingCallbacks (run ins st tr).1))
  ∧ (∀ cb tr,
       cb ∈ processingCallbacks st → dataQueue st ≠ [] →
       ∃ evs,
         step TimerFires st tr
         = (mk (opts st) [] None (processingCallbacks st) (errorCallbacks st)
               (subscribed st) (timers st), tr ++ evs)
         ∧ delivered cb evs = dataQueue st)
  ∧ (∀ o, timer_tracks_queue (create o) ∧ NoDup (processingCallbacks (create o))).
Proof.
  intros Ht Hnd. split_and!.
  - intros ins. revert st Ht Hnd. induction ins as [|i ins IH]; intros st Ht Hnd tr; [done|].
    cbn [Consumer.run]. destruct (step_tracks i st tr Ht Hnd) as [Ht1 Hnd1].
    by apply IH.
  - intros cb tr Hin Hq. simpl.
    destruct (batchTimer st) eqn:Htm; [|by apply Ht in Htm].
    destruct (processBatch_spec cb_throws st tr cb Hnd) as (evs & E & D).
    exists evs. split; [exact E|]. by rewrite D, decide_True.
  - intros o. split; [done|constructor].
Qed.

(** X29.  [destroy()] hands the queued envelopes to the processing callbacks
    before it drops them: after the pending timeout is cleared and the
    subscription to the listener is cancelled (if there still is one),
    every registered callback receives the whole queue.  Afterwards the
    queue is empty, no timeout is pending and no callback is registered; a
    second [destroy()] does nothing, and an envelope consumed afterwards
    without batching reaches nobody. *)
Theorem consumer_destroy_flushes_first st tr cb :
  NoDup (processingCallbacks st) →
  cb ∈ processingCallbacks st →
  ∃ st' evs,
    destroy cb_throws st tr
    = (st',
       tr ++ match batchTimer st with Some tm => [TimerCleared tm] | None => [] end
          ++ (if subscribed st then [Unsubscribed] else [])
          ++ evs)
    ∧ delivered cb evs = dataQueue st
    ∧ getQueueStatus st' = (0%nat, batchSize (opts st), 0%nat, 0%nat)
    ∧ batchTimer st' = None ∧ subscribed st' = false
    ∧ (∀ tr1, destroy cb_throws st' tr1 = (st', tr1))
    ∧ (∀ x tr1, (batchSize (opts st) ≤ 1)%Z → consume cb_throws x st' tr1 = (st', tr1)).
Proof.
  intros Hnd Hin. destruct (destroy_spec st tr cb Hnd) as (evs & E & D).
  rewrite decide_True in D by done.
  eexists _, evs. split; [exact E|]. split_and!; try done.
  intros x tr1 Hb. unfold consume. simpl.
  destruct (Z.ltb_spec 1 (batchSize (opts st))); [lia|]. done.
Qed.

End ConsumerInvariants.

Lemma consumer_timer_tracks_queue_witness :
  timer_tracks_queue (create (batches_of 3))
  ∧ NoDup (processingCallbacks (create (batches_of 3)))
  ∧ timer_tracks_queue
      (run always_throws [OnData 7; Consume (item "x"); UpdateOptions (mk_patch None (Some 0%Z) None);
                          Consume (item "y")] (create (batches_of 3)) []).1.
Proof.
  assert (timer_tracks_queue (create (batches_of 3))) as Ht by done.
  assert (NoDup (processingCallbacks (create (batches_of 3)))) as Hnd by constructor.
  split; [exact Ht|]. split; [exact Hnd|].
  destruct (consumer_timer_tracks_queue always_throws (create (batches_of 3)) Ht Hnd)
    as (H & _).
  apply H.
Defined.

Lemma consumer_destroy_flushes_first_witness :
  NoDup (processingCallbacks
           (run always_throws [OnData 7; Consume (item "x")] (create (batches_of 3)) []).1)
  ∧ ∃ st' evs,
      destroy always_throws
        (run always_throws [OnData 7; Consume (item "x")] (create (batches_of 3)) []).1 []
      = (st', [TimerCleared 0; Unsubscribed] ++ evs)
      ∧ delivered 7 evs = [item "x"].
Proof.
  assert (NoDup (processingCallbacks
                   (run always_throws [OnData 7; Consume (item "x")]
                      (create (batches_of 3)) []).1)) as Hnd by apply NoDup_singleton.
  split; [exact Hnd|].
  destruct (consumer_destroy_flushes_first always_throws
              (run always_throws [OnData 7; Consume (item "x")] (create (batches_of 3)) []).1
              [] 7 Hnd) as (st' & evs & E & D & _); [by apply list_elem_of_singleton|].
  exists st', evs. split; [exact E|exact D].
Defined.

End ConsumerFacts.

(** ** The wrapper *)

Module SimpleDataSystemFacts.
Import DataAdapterLayer DataAdapterLayerFacts DataAdapterLayerOps SimpleDataSystem.

Lemma adapter_connects_app t1 t2 :
  adapter_connects (t1 ++ t2) = adapter_connects t1 ++ adapter_connects t2.
Proof. apply filter_app. Qed.

Lemma adapter_connects_none tr :
  Forall (λ e, is_adapter_connect e = false) tr → adapter_connects tr = [].
Proof.
  unfold adapter_connects. induction 1 as [|e tr He _ IH]; [done|].
  rewrite filter_cons_False by (simpl; congruence). exact IH.
Qed.

Lemma disconnect_log_no_connect w schedule :
  adapter_connects (schedule ≫= disconnect_log w) = [].
Proof.
  apply adapter_connects_none, Forall_forall. intros e Hin.
  apply list_elem_of_bind in Hin as ([a r] & Hin & _). unfold disconnect_log in Hin.
  simpl in Hin. destruct r as [|err].
  - destruct (enableLogging w); [|by apply elem_of_nil in Hin].
    by apply list_elem_of_singleton in Hin as ->.
  - by apply list_elem_of_singleton in Hin as ->.
Qed.

(** X30.  A system connects to one source per adapter type, once.  [connect]
    names its adapter ["auto-<type>"], from the given type or else from
    the URL, and [disconnect()] leaves the adapter registered.  So after
    a first [connect] has succeeded, a [connect] that resolves to the
    same type throws ["already exists"], with or without a [disconnect()]
    in between: its new adapter is never connected and the system stays
    as it was before that call. *)
Theorem simple_connect_once_per_type url1 url2 type1 type2 schedule r s tr :
  resolve url1 type1 = resolve url2 type2 →
  map_has (adapters (system s)) (adapterName (resolve url1 type1)) = false →
  ∃ s1 tr1 st s2 tr2 s3,
    connect url1 type1 Resolves s tr = (Normal tt, s1, tr1)
    ∧ isInitialized s1 = true
    ∧ adapter_connects tr1 = adapter_connects tr ++ [AdapterConnect (length (objects (system s)))]
    ∧ disconnect schedule s1 tr1 = (Normal st, s2, tr2)
    ∧ (st = Fulfilled → isInitialized s2 = false)
    ∧ adapters (system s2) = adapters (system s1)
    ∧ connect url2 type2 r s2 tr2
      = (Thrown (mk_error (msg_exists (adapterName (resolve url2 type2)))), s3, tr2)
    ∧ isInitialized s3 = isInitialized s2
    ∧ adapters (system s3) = adapters (system s1)
    ∧ adapter_connects tr2 = adapter_connects tr1
    ∧ (∃ s4,
         connect url2 type2 r s1 tr1
         = (Thrown (mk_error (msg_exists (adapterName (resolve url2 type2)))), s4, tr1)
         ∧ isInitialized s4 = true
         ∧ adapters (system s4) = adapters (system s1)).
Proof.
  intros Hty Hfresh. set (nm := adapterName (resolve url1 type1)) in *.
  set (w := system s).
  set (w0 := DataAdapterLayer.mk (adapters w) (dataState w) (enableLogging w)
               (checkoutFunctions w) (dataCallbacks w)
               (objects w ++ [mk_adapter nm []]) (closures w)).
  assert (adapter_name w0 (length (objects w)) = nm) as Hname.
  { unfold adapter_name, w0. simpl. by rewrite lookup_app_r, Nat.sub_diag. }
  assert (∃ w1, addAdapter (length (objects w)) w0 tr
                = (Normal tt, w1,
                   tr ++ if enableLogging w then [ConsoleLog (msg_added nm)] else [])
                ∧ map_get (adapters w1) nm = Some (length (objects w))
                ∧ enableLogging w1 = enableLogging w) as (w1 & E1 & Hget & Hlog).
  { rewrite addAdapter_fresh by by rewrite Hname.
    eexists. split; [by rewrite Hname|]. split; [|done].
    simpl. apply map_get_set_eq. }
  set (tr1 := (tr ++ (if enableLogging w then [ConsoleLog (msg_added nm)] else []))
              ++ AdapterConnect (length (objects w))
                 :: (if enableLogging w then [ConsoleLog (msg_connected nm)] else [])).
  assert (connect url1 type1 Resolves s tr = (Normal tt, mk w1 true, tr1)) as Ec.
  { unfold connect, bind, new_adapter, lift_layer. fold nm w. simpl. fold w0.
    rewrite E1. simpl. unfold connectAdapter, bind, get_state. rewrite Hget.
    unfold emit, await, ret, modify, when. simpl. rewrite Hlog.
    unfold tr1. destruct (enableLogging w); simpl; by rewrite <- ?app_assoc. }
  set (tr2 := tr1 ++ (AdapterDisconnect <$> map_values (adapters w1))
                  ++ (schedule ≫= disconnect_log w1)).
  set (st := promise_allSettled (length (map_values (adapters w1)))
               ((λ _, Normal tt) <$> schedule)).
  assert (disconnect schedule (mk w1 true) tr1
          = (Normal st, mk w1 (match st with Fulfilled => false | _ => true end), tr2)) as Ed.
  { unfold disconnect, bind, lift_layer. simpl. rewrite disconnectAll_spec. fold st tr2.
    destruct st; done. }
  set (s2 := mk w1 (match st with Fulfilled => false | _ => true end)).
  set (w2 := DataAdapterLayer.mk (adapters w1) (dataState w1) (enableLogging w1)
               (checkoutFunctions w1) (dataCallbacks w1)
               (objects w1 ++ [mk_adapter nm []]) (closures w1)).
  assert (∀ b trx,
            connect url2 type2 r (mk w1 b) trx
            = (Thrown (mk_error (msg_exists (adapterName (resolve url2 type2)))),
               mk w2 b, trx)) as Eagain.
  { intros b trx. unfold connect, bind, new_adapter, lift_layer. rewrite <- Hty. fold nm.
    simpl. fold w2.
    assert (adapter_name w2 (length (objects w1)) = nm) as Hname2.
    { unfold adapter_name, w2. simpl. by rewrite lookup_app_r, Nat.sub_diag. }
    rewrite addAdapter_duplicate; [by rewrite Hname2|].
    rewrite Hname2. apply map_has_true. unfold w2. simpl. by rewrite Hget. }
  exists (mk w1 true), tr1, st, s2, tr2, (mk w2 (isInitialized s2)).
  split_and!; try done.
  - unfold tr1. rewrite !adapter_connects_app.
    rewrite (adapter_connects_none (if enableLogging w then _ else _))
      by (destruct (enableLogging w); by repeat constructor).
    rewrite app_nil_r. f_equal. unfold adapter_connects.
    rewrite filter_cons_True by done. f_equal.
    change (adapter_connects (if enableLogging w then [ConsoleLog (msg_connected nm)] else [])
            = []).
    apply adapter_connects_none. destruct (enableLogging w); by repeat constructor.
  - intros Hst. unfold s2. simpl. by rewrite Hst.
  - apply Eagain.
  - unfold tr2. rewrite !adapter_connects_app, disconnect_log_no_connect, !app_nil_r.
    rewrite (adapter_connects_none (AdapterDisconnect <$> _)); [by rewrite app_nil_r|].
    apply Forall_forall. by intros e (a & -> & _)%list_elem_of_fmap.
  - exists (mk w2 true). split; [apply Eagain|done].
Qed.

Lemma simple_connect_once_per_type_witness :
  resolve "wss://host/events" None = resolve "http://host/x" (Some WebSocket)
  ∧ ∃ s1 tr1 st s2 tr2 s3,
      connect "wss://host/events" None Resolves new_system [] = (Normal tt, s1, tr1)
      ∧ disconnect [(0, Resolves)] s1 tr1 = (Normal st, s2, tr2)
      ∧ connect "http://host/x" (Some WebSocket) Resolves s2 tr2
        = (Thrown (mk_error (msg_exists "auto-websocket")), s3, tr2)
      ∧ ∃ s4, connect "http://host/x" (Some WebSocket) Resolves s1 tr1
              = (Thrown (mk_error (msg_exists "auto-websocket")), s4, tr1).
Proof.
  split; [reflexivity|].
  destruct (simple_connect_once_per_type "wss://host/events" "http://host/x" None
              (Some WebSocket) [(0, Resolves)] Resolves new_system [])
    as (s1 & tr1 & st & s2 & tr2 & s3 & E1 & _ & _ & E2 & _ & _ & E3 & _ & _ & _
        & s4 & E4 & _);
    [reflexivity|reflexivity|].
  exists s1, tr1, st, s2, tr2, s3. split; [exact E1|]. split; [exact E2|].
  split; [exact E3|]. by exists s4.
Defined.

End SimpleDataSystemFacts.
